(** * message-ix-models: cost projection tools and CLI glue

    A shallow embedding of

    - [message_ix_models/tools/costs/regional_differentiation.py]
    - [message_ix_models/tools/costs/gdp.py]
    - [message_ix_models/tools/costs/splines.py]
    - [message_ix_models/util/click.py]

    Data frames are lists of records, in row order.  A numeric cell is an
    [option Qc]: [Some q] is the number [q], [None] is the missing value
    (pandas' NaN).  Arithmetic is exact rational arithmetic; a division by
    zero, which numpy answers with a non-finite value, gives [None].  The
    regression of gdp.py is given a second time on binary64 numbers
    ([Gdp.Float64]), for the one question where rounding decides.
    Python exceptions are values of [exn]; a function that may raise returns a
    [result]. *)

From Stdlib Require Import List String Ascii Bool Arith ZArith Lia Permutation.
From Stdlib Require Import QArith Qcanon Qround Field.
From Stdlib Require Import Decimal DecimalString DecimalN DecimalFacts.
From Stdlib Require PrimFloat.
Import ListNotations.

Set Implicit Arguments.
Open Scope string_scope.
Open Scope list_scope.

(** ** Python values shared by the modules *)

Module Py.

(** Exception classes.  [ConfigurationError] is the class of
    [message_ix_models.util.config]; no function modelled here raises it. *)
Inductive exn : Type :=
| ValueError
| AssertionError
| NotImplementedError
| UnboundLocalError
| FileNotFoundError
| AttributeError
| IndexError
| ConfigurationError.

Inductive result (A : Type) : Type :=
| Ok (a : A)
| Raise (e : exn).
Arguments Ok {A} a.
Arguments Raise {A} e.

Definition bind {A B} (m : result A) (k : A -> result B) : result B :=
  match m with
  | Ok a => k a
  | Raise e => Raise e
  end.

(** Running computations in order, up to the first that raises. *)
Fixpoint sequence {A} (l : list (result A)) : result (list A) :=
  match l with
  | [] => Ok []
  | m :: t => bind m (fun a => bind (sequence t) (fun r => Ok (a :: r)))
  end.

(** Decidable equality as a boolean test, the [==] of the column types. *)
Class EqB (A : Type) : Type := {
  eqb : A -> A -> bool;
  eqb_eq : forall x y, eqb x y = true <-> x = y
}.

Arguments eqb : simpl never.

#[export] Instance EqB_string : EqB string :=
  {| eqb := String.eqb; eqb_eq := String.eqb_eq |}.

#[export] Instance EqB_Z : EqB Z :=
  {| eqb := Z.eqb; eqb_eq := Z.eqb_eq |}.

Lemma prod_eqb_eq {A B} `{EqB A} `{EqB B} (x y : A * B) :
  (eqb (fst x) (fst y) && eqb (snd x) (snd y))%bool = true <-> x = y.
Proof.
  destruct x as [a b], y as [c d]; simpl.
  rewrite andb_true_iff, !eqb_eq.
  split; [intros [-> ->]; reflexivity | intros E; inversion E; auto].
Qed.

#[export] Instance EqB_prod {A B} `{EqB A} `{EqB B} : EqB (A * B) :=
  {| eqb := fun x y => (eqb (fst x) (fst y) && eqb (snd x) (snd y))%bool;
     eqb_eq := prod_eqb_eq |}.

Definition option_eqb {A} `{EqB A} (x y : option A) : bool :=
  match x, y with
  | Some a, Some b => eqb a b
  | None, None => true
  | _, _ => false
  end.

Lemma option_eqb_eq {A} `{EqB A} (x y : option A) :
  option_eqb x y = true <-> x = y.
Proof.
  destruct x as [a|], y as [b|]; simpl; try rewrite eqb_eq;
    split; intros E; try discriminate; try congruence.
Qed.

#[export] Instance EqB_option {A} `{EqB A} : EqB (option A) :=
  {| eqb := option_eqb; eqb_eq := option_eqb_eq |}.

Lemma Qc_eq_bool_eq (x y : Qc) : Qc_eq_bool x y = true <-> x = y.
Proof.
  unfold Qc_eq_bool. destruct (Qc_eq_dec x y); split; congruence.
Qed.

#[export] Instance EqB_Qc : EqB Qc :=
  {| eqb := Qc_eq_bool; eqb_eq := Qc_eq_bool_eq |}.

Lemma eqb_refl {A} `{EqB A} (x : A) : eqb x x = true.
Proof. apply eqb_eq; reflexivity. Qed.

Lemma eqb_neq {A} `{EqB A} (x y : A) : eqb x y = false <-> x <> y.
Proof.
  split.
  - intros E ->. rewrite eqb_refl in E. discriminate.
  - intros N. destruct (eqb x y) eqn:E; [apply eqb_eq in E; contradiction | reflexivity].
Qed.

Lemma eqb_sym {A} `{EqB A} (x y : A) : eqb x y = eqb y x.
Proof.
  destruct (eqb y x) eqn:E.
  - apply eqb_eq in E. subst. apply eqb_refl.
  - apply eqb_neq in E. apply eqb_neq. congruence.
Qed.

(** [x in xs] *)
Definition mem {A} `{EqB A} (x : A) (xs : list A) : bool :=
  existsb (eqb x) xs.

Lemma mem_In {A} `{EqB A} (x : A) xs : mem x xs = true <-> In x xs.
Proof.
  unfold mem. rewrite existsb_exists. split.
  - intros [y [Hy E]]. apply eqb_eq in E. subst. exact Hy.
  - intros Hx. exists x. split; [exact Hx | apply eqb_refl].
Qed.

Lemma mem_not_In {A} `{EqB A} (x : A) xs : mem x xs = false <-> ~ In x xs.
Proof.
  rewrite <- mem_In. destruct (mem x xs); split; congruence.
Qed.

(** [str.upper()] on ASCII text. *)
Definition upper_ascii (c : ascii) : ascii :=
  let n := nat_of_ascii c in
  if ((97 <=? n) && (n <=? 122))%nat then ascii_of_nat (n - 32) else c.

Fixpoint upper (s : string) : string :=
  match s with
  | EmptyString => EmptyString
  | String c t => String (upper_ascii c) (upper t)
  end.

End Py.
Import Py.

(** ** The pandas operations the modules use *)

Module Pandas.

(** [Series.unique()]: the distinct values in order of first appearance. *)
Fixpoint unique {A} `{EqB A} (l : list A) : list A :=
  match l with
  | [] => []
  | x :: t => x :: filter (fun y => negb (eqb x y)) (unique t)
  end.

(** [left.merge(right, on=..., how="inner")]: for each left row, in order,
    one output row per matching right row. *)
Definition merge {L R O} (on : L -> R -> bool) (mk : L -> R -> O)
    (left : list L) (right : list R) : list O :=
  flat_map (fun l => map (mk l) (filter (on l) right)) left.

(** [how="left"]: a left row without a match is kept once, the right
    columns missing. *)
Definition merge_left {L R O} (on : L -> R -> bool) (mk : L -> option R -> O)
    (left : list L) (right : list R) : list O :=
  flat_map
    (fun l =>
       match filter (on l) right with
       | [] => [mk l None]
       | ms => map (fun r => mk l (Some r)) ms
       end)
    left.

(** [Series.dropna()] *)
Fixpoint dropna {A} (col : list (option A)) : list A :=
  match col with
  | [] => []
  | Some a :: t => a :: dropna t
  | None :: t => dropna t
  end.

(** The order of a column's values, as [sort_values] and [groupby] use
    it: code points for text, lexicographic for several columns. *)
Class Ord (A : Type) : Type := { leb : A -> A -> bool }.

Arguments leb : simpl never.

#[export] Instance Ord_string : Ord string := {| leb := String.leb |}.
#[export] Instance Ord_Z : Ord Z := {| leb := Z.leb |}.
#[export] Instance Ord_Qc : Ord Qc :=
  {| leb := fun x y =>
              match (x ?= y)%Qc with
              | Gt => false
              | _ => true
              end |}.
#[export] Instance Ord_prod {A B} `{EqB A} `{Ord A} `{Ord B} : Ord (A * B) :=
  {| leb := fun x y =>
              if eqb (fst x) (fst y) then leb (snd x) (snd y)
              else leb (fst x) (fst y) |}.

Fixpoint insert_sorted {A} (le : A -> A -> bool) (x : A) (l : list A)
    : list A :=
  match l with
  | [] => [x]
  | y :: t => if le x y then x :: l else y :: insert_sorted le x t
  end.

(** A stable sort: rows that compare equal keep their order. *)
Definition sort_by {A} (le : A -> A -> bool) (l : list A) : list A :=
  fold_right (insert_sorted le) [] l.

(** [Series.sort_values()] *)
Definition sort_values {A} `{Ord A} (l : list A) : list A := sort_by leb l.

(** [df.groupby(by)]: the groups in the order of their sorted keys, each
    with its rows in table order. *)
Definition groupby {K R} `{EqB K} `{Ord K} (by_ : R -> K) (df : list R)
    : list (K * list R) :=
  map (fun k => (k, filter (fun r => eqb (by_ r) k) df))
      (sort_values (unique (map by_ df))).

Definition two : Qc := Q2Qc 2.

(** The median of a list of numbers: the middle one of the sorted values,
    or the mean of the two middle ones; no value for the empty list. *)
Definition median_of (l : list Qc) : option Qc :=
  let s := sort_values l in
  let n := List.length s in
  match n with
  | O => None
  | _ =>
      if Nat.even n
      then Some ((nth (n / 2 - 1) s 0%Qc + nth (n / 2) s 0%Qc) / two)%Qc
      else Some (nth (n / 2) s 0%Qc)
  end.

(** [Series.median()], which skips missing values. *)
Definition median (col : list (option Qc)) : option Qc :=
  median_of (dropna col).

(** Elementwise arithmetic on numeric cells. *)
Definition fmul (a b : option Qc) : option Qc :=
  match a, b with
  | Some x, Some y => Some (x * y)%Qc
  | _, _ => None
  end.

Definition fadd (a b : option Qc) : option Qc :=
  match a, b with
  | Some x, Some y => Some (x + y)%Qc
  | _, _ => None
  end.

Definition fdiv (a b : option Qc) : option Qc :=
  match a, b with
  | Some x, Some y =>
      if Qc_eq_bool y 0%Qc then None else Some (x / y)%Qc
  | _, _ => None
  end.

(** A table holds one value per key. *)
Definition keyed {R K V} (key : R -> K) (val : R -> V) (df : list R) : Prop :=
  forall r1 r2, In r1 df -> In r2 df -> key r1 = key r2 -> val r1 = val r2.

Definition keyedb {R K V} `{EqB K} `{EqB V} (key : R -> K) (val : R -> V)
    (df : list R) : bool :=
  forallb
    (fun r1 =>
       forallb (fun r2 => implb (eqb (key r1) (key r2)) (eqb (val r1) (val r2)))
               df)
    df.

(** [Series.isnull()] *)
Definition isnull {A} (a : option A) : bool :=
  match a with
  | None => true
  | Some _ => false
  end.

(** [np.where(cond, a, b)], one cell *)
Definition where_ {A} (cond : bool) (a b : A) : A :=
  if cond then a else b.

End Pandas.
Import Pandas.

(** ** regional_differentiation.py *)

Module RegionalDifferentiation.

(** *** [get_weo_data] *)

Record weo_row : Type := mk_weo_row {
  cost_type : string;
  weo_technology : string;
  weo_region : string;
  year : string;
  units : string;
  value : option Qc
}.

Definition DICT_TECH_ROWS : list (string * (string * nat)) :=
  [ ("bioenergy_ccus", ("Renewables", 95%nat));
    ("bioenergy_cofiring", ("Renewables", 75%nat));
    ("bioenergy_large", ("Renewables", 65%nat));
    ("bioenergy_medium_chp", ("Renewables", 85%nat));
    ("ccgt", ("Gas", 5%nat));
    ("ccgt_ccs", ("Fossil fuels equipped with CCUS", 25%nat));
    ("ccgt_chp", ("Gas", 25%nat));
    ("csp", ("Renewables", 105%nat));
    ("fuel_cell", ("Gas", 35%nat));
    ("gas_turbine", ("Gas", 15%nat));
    ("geothermal", ("Renewables", 115%nat));
    ("hydropower_large", ("Renewables", 45%nat));
    ("hydropower_small", ("Renewables", 55%nat));
    ("igcc", ("Coal", 35%nat));
    ("igcc_ccs", ("Fossil fuels equipped with CCUS", 15%nat));
    ("marine", ("Renewables", 125%nat));
    ("nuclear", ("Nuclear", 5%nat));
    ("pulverized_coal_ccs", ("Fossil fuels equipped with CCUS", 5%nat));
    ("solarpv_buildings", ("Renewables", 15%nat));
    ("solarpv_large", ("Renewables", 5%nat));
    ("steam_coal_subcritical", ("Coal", 5%nat));
    ("steam_coal_supercritical", ("Coal", 15%nat));
    ("steam_coal_ultrasupercritical", ("Coal", 25%nat));
    ("wind_offshore", ("Renewables", 35%nat));
    ("wind_onshore", ("Renewables", 25%nat)) ].

Definition DICT_COST_COLS : list (string * string) :=
  [ ("inv_cost", "A,B:D"); ("fix_cost", "A,F:H") ].

(** A cost cell of the workbook: a number, or the text "n.a.". *)
Inductive cell : Type :=
| Number (q : Qc)
| NotApplicable.

(** One row as [pd.read_excel] delivers it: the region label and the cells
    of the three year columns. *)
Record sheet_row : Type := mk_sheet_row {
  sr_region : string;
  sr_2021 : cell;
  sr_2030 : cell;
  sr_2050 : cell
}.

(** [.replace({"value": "n.a."}, np.nan)] *)
Definition replace_na (c : cell) : option Qc :=
  match c with
  | Number q => Some q
  | NotApplicable => None
  end.

(** The group of a row in [groupby(["weo_technology", "cost_type"])]. *)
Definition group_key (r : weo_row) : string * string :=
  (weo_technology r, cost_type r).

Definition set_value (r : weo_row) (v : option Qc) : weo_row :=
  mk_weo_row (cost_type r) (weo_technology r) (weo_region r) (year r)
             (units r) v.

Section GetWeoData.

(** The workbook: [read_excel sheet skiprows usecols] are the (at most
    nine) rows read from [sheet] below [skiprows] in columns [usecols].
    Reading is taken to succeed: a missing workbook or sheet, and a block
    without the four columns, on which [set_axis] raises ValueError, are
    not modelled. *)
Variable read_excel : string -> nat -> string -> list sheet_row.

(** [registry("1.0 USD_2021").to("USD_2005").magnitude] *)
Variable conversion_factor : Qc.

(** [.melt(id_vars=["weo_region"], var_name="year", value_name="value")]
    followed by the [assign], [reindex], [replace] and [eval] steps. *)
Definition read_block (tech_key cost_key sheet : string) (skip : nat)
    (cols : string) : list weo_row :=
  let raw := read_excel sheet skip cols in
  let long :=
    map (fun r => (sr_region r, "2021", sr_2021 r)) raw ++
    map (fun r => (sr_region r, "2030", sr_2030 r)) raw ++
    map (fun r => (sr_region r, "2050", sr_2050 r)) raw in
  map (fun '(reg, yr, c) =>
         mk_weo_row cost_key tech_key reg yr "usd_per_kw"
                    (fmul (replace_na c) (Some conversion_factor)))
      long.

(** [pd.concat(dfs_cost)] over [product(DICT_TECH_ROWS, DICT_COST_COLS)] *)
Definition all_cost_df : list weo_row :=
  flat_map
    (fun '(tech_key, (sheet, skip)) =>
       flat_map
         (fun '(cost_key, cols) =>
            read_block tech_key cost_key sheet skip cols)
         DICT_COST_COLS)
    DICT_TECH_ROWS.

(** [groupby(["weo_technology", "cost_type"]).agg(median_value=("value",
    "median")).reset_index()] *)
Definition df_median_of (df : list weo_row)
    : list ((string * string) * option Qc) :=
  map (fun g => (fst g, median (map value (snd g))))
      (groupby group_key df).

(** The merge with the medians and [np.where(x.value.isnull(),
    x.median_value, x.value)]. *)
Definition impute (df : list weo_row) : list weo_row :=
  merge_left
    (fun r m => eqb (group_key r) (fst m))
    (fun r m =>
       let median_value :=
         match m with Some m' => snd m' | None => None end in
       set_value r (where_ (isnull (value r)) median_value (value r)))
    df (df_median_of df).

Definition get_weo_data : list weo_row := impute all_cost_df.

End GetWeoData.


(** *** Configuration and static inputs *)

(** The fields of [.config.Config] that the cost tools read. *)
Record Config : Type := mk_Config {
  base_year : Z;
  convergence_year : Z;
  module_ : string;
  node : string;
  ref_region : option string
}.

(** A row of the table read by [get_intratec_data], and of the table
    [adapt_R11_R12] makes of it. *)
Record intratec_row : Type := mk_intratec_row {
  it_node : string;
  it_value : option Qc
}.

(** A row of the technology mapping, [tech_map_{module}.csv]. *)
Record tech_map_row : Type := mk_tech_map_row {
  message_technology : string;
  reg_diff_source : option string;
  reg_diff_technology : option string;
  base_year_reference_region_cost : option Qc;
  fix_ratio : option Qc
}.

(** *** [get_weo_regional_differentiation] *)

(** Rows of [df_sel_weo]. *)
Record sel_weo_row : Type := mk_sel_weo_row {
  sw_cost_type : string;
  sw_weo_technology : string;
  sw_weo_region : string;
  sw_region : string;
  sw_year : string;
  sw_weo_cost : option Qc
}.

(** Rows of [df_reg_ratios] (WEO). *)
Record weo_ratio_row : Type := mk_weo_ratio_row {
  wr_weo_technology : string;
  wr_region : string;
  wr_weo_ref_region_cost : option Qc;
  wr_reg_cost_ratio : option Qc
}.

(** Rows of [df_fom_inv]. *)
Record fom_inv_row : Type := mk_fom_inv_row {
  fi_weo_technology : string;
  fi_region : string;
  fi_weo_fix_ratio : option Qc
}.

(** Rows of the table the function returns. *)
Record weo_cost_ratio_row : Type := mk_weo_cost_ratio_row {
  wc_weo_technology : string;
  wc_region : string;
  wc_weo_ref_region_cost : option Qc;
  wc_reg_cost_ratio : option Qc;
  wc_weo_fix_ratio : option Qc
}.

Definition sel_year : string := "2021".

(** The loop over [get_weo_region_map(config.node).items()] and
    [pd.concat(l_sel_weo)]. *)
Definition df_sel_weo_of (region_map : list (string * string))
    (df_weo : list weo_row) : list sel_weo_row :=
  flat_map
    (fun '(message_node, weo_reg) =>
       map (fun r =>
              mk_sel_weo_row (cost_type r) (weo_technology r) (weo_region r)
                             message_node (year r) (value r))
           (filter (fun r => eqb (year r) sel_year &&
                             eqb (weo_region r) weo_reg)
                   df_weo))
    region_map.

Definition weo_reg_ratios (ref : string) (df_sel_weo : list sel_weo_row)
    : list weo_ratio_row :=
  merge
    (fun l r => eqb (sw_weo_technology l) (sw_weo_technology r) &&
                eqb (sw_year l) (sw_year r))
    (fun l r =>
       mk_weo_ratio_row (sw_weo_technology l) (sw_region r) (sw_weo_cost l)
                        (fdiv (sw_weo_cost r) (sw_weo_cost l)))
    (filter (fun r => eqb (sw_region r) ref && eqb (sw_cost_type r) "inv_cost")
            df_sel_weo)
    (filter (fun r => eqb (sw_cost_type r) "inv_cost") df_sel_weo).

Definition weo_fom_inv (df_sel_weo : list sel_weo_row) : list fom_inv_row :=
  let df_inv :=
    filter (fun r => eqb (sw_cost_type r) "inv_cost" &&
                     eqb (sw_year r) sel_year) df_sel_weo in
  let df_fix :=
    filter (fun r => eqb (sw_cost_type r) "fix_cost" &&
                     eqb (sw_year r) sel_year) df_sel_weo in
  merge
    (fun i f => eqb (sw_weo_technology i) (sw_weo_technology f) &&
                eqb (sw_weo_region i) (sw_weo_region f) &&
                eqb (sw_region i) (sw_region f))
    (fun i f =>
       mk_fom_inv_row (sw_weo_technology i) (sw_region i)
                      (fdiv (sw_weo_cost f) (sw_weo_cost i)))
    df_inv df_fix.

Section WeoRegionalDifferentiation.

Variable read_excel : string -> nat -> string -> list sheet_row.
Variable conversion_factor : Qc.

(** [get_weo_region_map]: the items of the dict for a node codelist. *)
Variable get_weo_region_map : string -> list (string * string).

Definition get_weo_regional_differentiation (config : Config)
    : result (list weo_cost_ratio_row) :=
  let df_weo := get_weo_data read_excel conversion_factor in
  match get_weo_region_map (node config) with
  | [] => Raise ValueError (* pd.concat of no objects *)
  | region_map =>
      let df_sel_weo := df_sel_weo_of region_map df_weo in
      match ref_region config with
      | None => Raise AssertionError
      | Some r =>
          let ref := upper r in
          if negb (mem ref (unique (map sw_region df_sel_weo)))
          then Raise ValueError
          else
            Ok (merge
                  (fun a b => eqb (wr_weo_technology a) (fi_weo_technology b) &&
                              eqb (wr_region a) (fi_region b))
                  (fun a b =>
                     mk_weo_cost_ratio_row
                       (wr_weo_technology a) (wr_region a)
                       (wr_weo_ref_region_cost a) (wr_reg_cost_ratio a)
                       (fi_weo_fix_ratio b))
                  (weo_reg_ratios ref df_sel_weo)
                  (weo_fom_inv df_sel_weo))
      end
  end.

End WeoRegionalDifferentiation.

(** *** [get_intratec_regional_differentiation] *)

(** Rows of [df_intratec_map]. *)
Record intratec_map_row : Type := mk_intratec_map_row {
  im_region : string;
  im_intratec_index : option Qc;
  im_intratec_tech : string
}.

(** Rows of [df_reg_ratios] (Intratec). *)
Record intratec_ratio_row : Type := mk_intratec_ratio_row {
  ir_intratec_tech : string;
  ir_region : string;
  ir_intratec_ref_region_cost : option Qc;
  ir_reg_cost_ratio : option Qc
}.

Section IntratecRegionalDifferentiation.

(** [get_intratec_data()] *)
Variable df_intratec : list intratec_row.

(** [message_ix_models.util.node.adapt_R11_R12] *)
Variable adapt_R11_R12 : list intratec_row -> list intratec_row.

Definition to_intratec_map (df : list intratec_row)
    : list intratec_map_row :=
  map (fun r => mk_intratec_map_row (it_node r) (it_value r) "all") df.

(** The [if]/[elif] chain on [node.upper()]; [None] when no branch binds
    [df_intratec_map]. *)
Definition df_intratec_map_of (node : string)
    : result (option (list intratec_map_row)) :=
  if eqb (upper node) "R11" then Ok (Some (to_intratec_map df_intratec))
  else if eqb (upper node) "R12"
  then Ok (Some (to_intratec_map (adapt_R11_R12 df_intratec)))
  else if eqb (upper node) "R20" then Raise NotImplementedError
  else Ok None.

Definition intratec_reg_ratios (ref : string)
    (df_intratec_map : list intratec_map_row) : list intratec_ratio_row :=
  merge
    (fun l r => eqb (im_intratec_tech l) (im_intratec_tech r))
    (fun l r =>
       mk_intratec_ratio_row
         (im_intratec_tech l) (im_region r) (im_intratec_index l)
         (fdiv (im_intratec_index r) (im_intratec_index l)))
    (filter (fun r => eqb (im_region r) ref) df_intratec_map)
    df_intratec_map.

Definition get_intratec_regional_differentiation (node ref_region : string)
    : result (list intratec_ratio_row) :=
  bind (df_intratec_map_of node) (fun bound =>
    let ref := upper ref_region in
    match bound with
    | None => Raise UnboundLocalError
    | Some df_intratec_map =>
        if negb (mem ref (unique (map im_region df_intratec_map)))
        then Raise ValueError
        else Ok (intratec_reg_ratios ref df_intratec_map)
    end).

End IntratecRegionalDifferentiation.

(** [reg_diff_source == src] *)
Definition source_is (src : string) (m : tech_map_row) : bool :=
  eqb (reg_diff_source m) (Some src).

(** *** The technology mapping *)

Definition tech_map_columns (m : tech_map_row)
    : string * (option string * (option string * (option Qc * option Qc))) :=
  (message_technology m,
   (reg_diff_source m,
    (reg_diff_technology m,
     (base_year_reference_region_cost m, fix_ratio m)))).

Lemma tech_map_eqb_eq (a b : tech_map_row) :
  eqb (tech_map_columns a) (tech_map_columns b) = true <-> a = b.
Proof.
  rewrite eqb_eq. split; [|intros ->; reflexivity].
  destruct a, b. unfold tech_map_columns. cbn. intros E.
  inversion E. reflexivity.
Qed.

(** Equality of rows, as [drop_duplicates] sees it. *)
#[export] Instance EqB_tech_map_row : EqB tech_map_row :=
  {| eqb := fun a b => eqb (tech_map_columns a) (tech_map_columns b);
     eqb_eq := tech_map_eqb_eq |}.

(** [Series.round()]: to the nearest integer, a half to the even one. *)
Definition round_half_even (x : Qc) : Qc :=
  let f := Qfloor x in
  match ((x - Q2Qc (inject_Z f)) ?= Q2Qc (1 # 2))%Qc with
  | Lt => Q2Qc (inject_Z f)
  | Gt => Q2Qc (inject_Z (f + 1))
  | Eq => if Z.even f then Q2Qc (inject_Z f) else Q2Qc (inject_Z (f + 1))
  end.

Definition subset_materials_map (raw_map : list tech_map_row)
    : list tech_map_row :=
  map (fun m =>
         mk_tech_map_row
           (message_technology m) (reg_diff_source m) (reg_diff_technology m)
           (option_map round_half_even (base_year_reference_region_cost m))
           (fix_ratio m))
      (filter (fun m => negb (isnull (reg_diff_source m)) ||
                        negb (isnull (base_year_reference_region_cost m)))
              raw_map).

Section AdjustTechnologyMapping.

(** [get_raw_technology_mapping]: the rows of [tech_map_{module}.csv]. *)
Variable get_raw_technology_mapping : string -> list tech_map_row.

(** The four tables of the "materials" branch.  [materials_replace] and
    [materials_map_energy] are reindexed to four columns, so their rows
    carry no [fix_ratio] after the [concat]. *)
Definition materials_replace (raw_map_energy sub_map_materials
                                : list tech_map_row) : list tech_map_row :=
  merge_left
    (fun e l => eqb (message_technology l) (message_technology e))
    (fun e l =>
       let material_base_cost :=
         match l with
         | Some l' => base_year_reference_region_cost l'
         | None => None
         end in
       mk_tech_map_row
         (message_technology e) (reg_diff_source e) (reg_diff_technology e)
         (where_ (negb (isnull material_base_cost))
                 material_base_cost (base_year_reference_region_cost e))
         None)
    raw_map_energy
    (filter (fun l => mem (message_technology l)
                          (map message_technology raw_map_energy))
            sub_map_materials).

Definition materials_map_energy (raw_map_energy sub_map_materials
                                   : list tech_map_row) : list tech_map_row :=
  merge_left
    (fun l e => eqb (reg_diff_technology l) (Some (message_technology e)))
    (fun l e =>
       mk_tech_map_row
         (message_technology l)
         (match e with Some e' => reg_diff_source e' | None => None end)
         (match e with Some e' => reg_diff_technology e' | None => None end)
         (where_ (isnull (base_year_reference_region_cost l))
                 (match e with
                  | Some e' => base_year_reference_region_cost e'
                  | None => None
                  end)
                 (base_year_reference_region_cost l))
         None)
    (filter (source_is "energy") sub_map_materials)
    raw_map_energy.

Definition materials_map_intratec (sub_map_materials : list tech_map_row)
    : list tech_map_row :=
  map (fun m =>
         mk_tech_map_row
           (message_technology m) (reg_diff_source m) (Some "all")
           (base_year_reference_region_cost m) (fix_ratio m))
      (filter (fun m => source_is "intratec" m &&
                        negb (isnull (base_year_reference_region_cost m)))
              sub_map_materials).

Definition materials_map_noregdiff (sub_map_materials : list tech_map_row)
    : list tech_map_row :=
  filter (fun m => isnull (reg_diff_source m) &&
                   negb (isnull (base_year_reference_region_cost m)))
         sub_map_materials.

(** The mapping for a module; Python's [None] for a module that is neither
    "energy" nor "materials". *)
Definition adjust_technology_mapping (module : string)
    : option (list tech_map_row) :=
  let raw_map_energy := get_raw_technology_mapping "energy" in
  if eqb module "energy" then Some raw_map_energy
  else if eqb module "materials"
  then
    let raw_map_materials := get_raw_technology_mapping "materials" in
    let sub_map_materials := subset_materials_map raw_map_materials in
    Some (unique
            (materials_replace raw_map_energy sub_map_materials ++
             materials_map_energy raw_map_energy sub_map_materials ++
             materials_map_intratec sub_map_materials ++
             materials_map_noregdiff sub_map_materials))
  else None.

End AdjustTechnologyMapping.

(** *** [apply_regional_differentiation] *)

(** Rows of [filt_weo], [filt_intratec], [filt_none]. *)
Record filt_row : Type := mk_filt_row {
  f_message_technology : string;
  f_reg_diff_source : option string;
  f_reg_diff_technology : option string;
  f_region : option string;
  f_base_year_reference_region_cost : option Qc;
  f_reg_cost_ratio : option Qc;
  f_fix_ratio : option Qc
}.

(** Rows of [all_tech]. *)
Record all_tech_row : Type := mk_all_tech_row {
  at_row : filt_row;
  at_reg_cost_base_year : option Qc
}.

(** Rows of [un_reg]. *)
Record un_reg_row : Type := mk_un_reg_row {
  ur_region : option string;
  ur_reg_cost_ratio : option Qc;
  ur_key : string
}.

Definition filt_weo_of (df_map : list tech_map_row)
    (df_weo : list weo_cost_ratio_row) : list filt_row :=
  merge_left
    (fun m w => eqb (reg_diff_technology m) (Some (wc_weo_technology w)))
    (fun m w =>
       mk_filt_row
         (message_technology m) (reg_diff_source m) (reg_diff_technology m)
         (option_map wc_region w)
         (where_ (isnull (base_year_reference_region_cost m))
                 (match w with Some w' => wc_weo_ref_region_cost w' | None => None end)
                 (base_year_reference_region_cost m))
         (match w with Some w' => wc_reg_cost_ratio w' | None => None end)
         (where_ (isnull (fix_ratio m))
                 (match w with Some w' => wc_weo_fix_ratio w' | None => None end)
                 (fix_ratio m)))
    (filter (fun m => source_is "energy" m || source_is "weo" m) df_map)
    df_weo.

Definition filt_intratec_of (df_map : list tech_map_row)
    (df_intratec : list intratec_ratio_row) : list filt_row :=
  merge_left
    (fun m i => eqb (reg_diff_technology m) (Some (ir_intratec_tech i)))
    (fun m i =>
       mk_filt_row
         (message_technology m) (reg_diff_source m) (reg_diff_technology m)
         (option_map ir_region i)
         (where_ (isnull (base_year_reference_region_cost m))
                 (match i with
                  | Some i' => ir_intratec_ref_region_cost i'
                  | None => None
                  end)
                 (base_year_reference_region_cost m))
         (match i with Some i' => ir_reg_cost_ratio i' | None => None end)
         (where_ (isnull (fix_ratio m)) (Some 0%Qc) (fix_ratio m)))
    (filter (source_is "intratec") df_map)
    df_intratec.

(** [pd.DataFrame({"region": filt_intratec.region.unique(),
    "reg_cost_ratio": 1, "key": "z"})] *)
Definition un_reg_of (filt_intratec : list filt_row) : list un_reg_row :=
  map (fun r => mk_un_reg_row r (Some 1%Qc) "z")
      (unique (map f_region filt_intratec)).

Definition filt_none_of (df_map : list tech_map_row)
    (un_reg : list un_reg_row) : list filt_row :=
  merge_left
    (fun (m : tech_map_row * string) u => eqb (snd m) (ur_key u))
    (fun m u =>
       mk_filt_row
         (message_technology (fst m)) (reg_diff_source (fst m))
         (reg_diff_technology (fst m))
         (match u with Some u' => ur_region u' | None => None end)
         (base_year_reference_region_cost (fst m))
         (match u with Some u' => ur_reg_cost_ratio u' | None => None end)
         (where_ (isnull (fix_ratio (fst m))) (Some 0%Qc) (fix_ratio (fst m))))
    (map (fun m => (m, "z"))
         (filter (fun m => isnull (reg_diff_source m)) df_map))
    un_reg.

Definition all_tech_of (filt_weo filt_intratec filt_none : list filt_row)
    : list all_tech_row :=
  map (fun r =>
         mk_all_tech_row
           r (fmul (f_base_year_reference_region_cost r) (f_reg_cost_ratio r)))
      (filt_weo ++ filt_intratec ++ filt_none).

(** The static inputs of the module: the files it reads and the helpers it
    imports. *)
Record Inputs : Type := mk_Inputs {
  read_excel : string -> nat -> string -> list sheet_row;
  conversion_factor : Qc;
  get_weo_region_map : string -> list (string * string);
  get_intratec_data : list intratec_row;
  adapt_R11_R12 : list intratec_row -> list intratec_row;
  get_raw_technology_mapping : string -> list tech_map_row
}.

Definition apply_regional_differentiation (inputs : Inputs) (config : Config)
    : result (list all_tech_row) :=
  let df_map :=
    adjust_technology_mapping (get_raw_technology_mapping inputs)
                              (module_ config) in
  match ref_region config with
  | None => Raise AssertionError
  | Some ref =>
      bind (get_weo_regional_differentiation
              (read_excel inputs) (conversion_factor inputs)
              (get_weo_region_map inputs) config) (fun df_weo =>
      bind (get_intratec_regional_differentiation
              (get_intratec_data inputs) (adapt_R11_R12 inputs)
              (node config) ref)
           (fun df_intratec =>
      match df_map with
      | None => Raise AttributeError (* None has no method query *)
      | Some df_map =>
          let filt_weo := filt_weo_of df_map df_weo in
          let filt_intratec := filt_intratec_of df_map df_intratec in
          let un_reg := un_reg_of filt_intratec in
          let filt_none := filt_none_of df_map un_reg in
          Ok (all_tech_of filt_weo filt_intratec filt_none)
      end))
  end.

End RegionalDifferentiation.

(** ** gdp.py *)

Module Gdp.

Import RegionalDifferentiation.

(** What the functions [print]. *)
Inductive message : Type :=
| PleaseSelectValidRegion
| PleaseSelectValidReferenceRegion (regions : list string)
| BaseYearNotFound (input_base_year base_year : Z).

(** A computation that prints and may raise: the messages printed, in
    order, and the outcome. *)
Definition io (A : Type) : Type := list message * result A.

Definition ret {A} (a : A) : io A := ([], Ok a).
Definition raise {A} (e : exn) : io A := ([], Raise e).
Definition print (m : message) : io unit := ([m], Ok tt).

Definition io_bind {A B} (m : io A) (k : A -> io B) : io B :=
  match snd m with
  | Ok a => (fst m ++ fst (k a), snd (k a))
  | Raise e => (fst m, Raise e)
  end.

Notation "x <- m ;; k" := (io_bind m (fun x => k))
  (at level 61, m at next level, right associativity).
Notation "m ;;; k" := (io_bind m (fun _ => k))
  (at level 61, right associativity).

Definition printed {A} (m : io A) : list message := fst m.
Definition outcome {A} (m : io A) : result A := snd m.

(** *** [process_raw_ssp_data] *)

(** The SSP table as [pivot] shapes it: one row per scenario version,
    country and year, the two variables as columns. *)
Record country_row : Type := mk_country_row {
  cr_scenario_version : string;
  cr_country_alpha_3 : string;
  cr_year : Z;
  cr_gdp_ppp : option Qc;
  cr_population : option Qc
}.

(** Rows of the aggregated table, before the ratios. *)
Record agg_row : Type := mk_agg_row {
  ag_scenario_version : string;
  ag_scenario : string;
  ag_region : string;
  ag_year : Z;
  ag_total_gdp : Qc;
  ag_total_population : Qc;
  ag_gdp_ppp_per_capita : option Qc
}.

(** Rows of the table [process_raw_ssp_data] returns. *)
Record gdp_row : Type := mk_gdp_row {
  scenario_version : string;
  scenario : string;
  region : string;
  year : Z;
  gdp_ppp_per_capita : option Qc;
  gdp_ratio_reg_to_reference : option Qc
}.

(** The "Set default reference region" block. *)
Definition default_ref_region (input_node : string)
    (input_ref_region : option string) : option string :=
  match input_ref_region with
  | Some r => Some r
  | None =>
      if eqb (upper input_node) "R11" then Some "R11_NAM"
      else if eqb (upper input_node) "R12" then Some "R12_NAM"
      else if eqb (upper input_node) "R20" then Some "R20_NAM"
      else None
  end.

(** [sum] of a group's column, missing values skipped. *)
Definition sum (col : list (option Qc)) : Qc :=
  fold_right Qcplus 0%Qc (dropna col).

(** The region/country pairs of a node file, "World" removed. *)
Definition regions_countries_of (nodes_data : list (string * list string))
    : list (string * string) :=
  flat_map (fun '(reg, children) => map (fun c => (reg, c)) children)
           (filter (fun e => negb (eqb (fst e) "World")) nodes_data).

(** The merge with [regions_countries], the [groupby] and the [agg]. *)
Definition aggregate (regions_countries : list (string * string))
    (ssp : list country_row) : list agg_row :=
  let merged : list (country_row * option string) :=
    merge_left (fun c rc => eqb (cr_country_alpha_3 c) (snd rc))
               (fun c rc => (c, option_map fst rc))
               ssp regions_countries in
  let by_group : list ((string * (string * (string * Z))) * country_row) :=
    flat_map
      (fun '(c, reg) =>
         match reg with
         | Some r =>
             [((cr_scenario_version c,
                (substring 0 4 (cr_scenario_version c), (r, cr_year c))), c)]
         | None => []
         end)
      merged in
  map (fun '((sv, (sc, (reg, yr))), rows) =>
         let total_gdp := sum (map (fun r => cr_gdp_ppp (snd r)) rows) in
         let total_population :=
           sum (map (fun r => cr_population (snd r)) rows) in
         mk_agg_row sv sc reg yr total_gdp total_population
                    (fdiv (Some total_gdp) (Some total_population)))
      (groupby fst by_group).

(** The [else] branch: ratios to the reference region, the LED copy of
    SSP2, and the final sort. *)
Definition gdp_ratios (reference_region : string) (df : list agg_row)
    : list gdp_row :=
  let with_ratio :=
    merge
      (fun l r => eqb (ag_scenario_version l) (ag_scenario_version r) &&
                  eqb (ag_scenario l) (ag_scenario r) &&
                  eqb (ag_year l) (ag_year r))
      (fun l r =>
         mk_gdp_row (ag_scenario_version l) (ag_scenario l) (ag_region l)
                    (ag_year l) (ag_gdp_ppp_per_capita l)
                    (fdiv (ag_gdp_ppp_per_capita l) (ag_gdp_ppp_per_capita r)))
      df
      (filter (fun r => eqb (ag_region r) reference_region) df) in
  let df_led :=
    map (fun r => mk_gdp_row (scenario_version r) "LED" (region r) (year r)
                             (gdp_ppp_per_capita r)
                             (gdp_ratio_reg_to_reference r))
        (filter (fun r => eqb (scenario r) "SSP2") with_ratio) in
  sort_by
    (fun a b =>
       leb (scenario a, (scenario_version a, (region a, year a)))
           (scenario b, (scenario_version b, (region b, year b))))
    (with_ratio ++ df_led).

Section ProcessRawSspData.

(** [data/node/<name>]: the regions of a node codelist file with their
    child countries, or nothing when the file does not exist. *)
Variable node_files : string -> option (list (string * list string)).

(** The content of [SSP-Review-Phase-1.csv.gz] after [pivot].  The steps
    from [read_csv] to [pivot] are taken to have returned it: their
    exceptions (a missing file, a country name [pycountry] does not know, a
    duplicate entry in [pivot]) are not modelled. *)
Variable ssp_data : list country_row.

Definition open_node_file (name : string)
    : io (list (string * list string)) :=
  match node_files name with
  | Some d => ret d
  | None => raise FileNotFoundError
  end.

(** The function returns a table, or Python's [None] when it runs off
    its end. *)
Definition process_raw_ssp_data (input_node : string)
    (input_ref_region : option string) : io (option (list gdp_row)) :=
  let node_up := upper input_node in
  (if negb (mem node_up ["R11"; "R12"; "R20"])
   then print PleaseSelectValidRegion
   else ret tt) ;;;
  let input_ref_region := default_ref_region input_node input_ref_region in
  nodes_data <- open_node_file (node_up ++ ".yaml")%string ;;
  let df := aggregate (regions_countries_of nodes_data) ssp_data in
  reference_region <-
    match input_ref_region with
    | Some r => ret (upper r)
    | None => raise AttributeError
    end ;;
  if negb (mem reference_region (unique (map ag_region df)))
  then
    print (PleaseSelectValidReferenceRegion (unique (map ag_region df))) ;;;
    ret None
  else ret (Some (gdp_ratios reference_region df)).

End ProcessRawSspData.

(** *** [scipy.stats.linregress] *)

Definition mean (l : list Qc) : Qc :=
  (fold_right Qcplus 0%Qc l / Q2Qc (Z.of_nat (List.length l) # 1))%Qc.

Definition all_equal (l : list Qc) : bool :=
  match l with
  | [] => true
  | x :: t => forallb (eqb x) t
  end.

(** The least-squares line of scipy, in exact arithmetic:
    [slope = cov(x, y) / var(x)] and [intercept = mean(y) - slope * mean(x)].
    The checks come first, in scipy's order: empty input is refused; so are
    identical [x] values, more than one of them, whatever [y] holds (with a
    missing value in [x] the test [amax(x) == amin(x)] is false).  A missing
    value among the points makes both coefficients missing.  The three other
    results ([rvalue], [pvalue], [stderr]) are dropped by the caller and not
    modelled.  The code evaluates the same formulas in binary64, where every
    operation rounds: [Float64.linregress] below. *)
Definition linregress (x y : list (option Qc))
    : result (option Qc * option Qc) :=
  match x, y with
  | [], _ | _, [] => Raise ValueError
  | _, _ =>
      if forallb (fun v => negb (isnull v)) x &&
         all_equal (dropna x) && (1 <? List.length x)%nat
      then Raise ValueError
      else if forallb (fun v => negb (isnull v)) x &&
              forallb (fun v => negb (isnull v)) y
      then
        let xs := dropna x in
        let ys := dropna y in
        let xmean := mean xs in
        let ymean := mean ys in
        let ssxm := mean (map (fun a => (a - xmean) * (a - xmean))%Qc xs) in
        let ssxym :=
          mean (map (fun p => (fst p - xmean) * (snd p - ymean))%Qc
                    (combine xs ys)) in
        let slope := fdiv (Some ssxym) (Some ssxm) in
        Ok (slope, fadd (Some ymean) (option_map Qcopp (fmul slope (Some xmean))))
      else Ok (None, None)
  end.

(** *** [scipy.stats.linregress] in binary64

    The same function on the numbers the code computes with: IEEE 754
    binary64, every operation rounded to the nearest.  A missing value is a
    NaN.  [np.mean] is the sum divided by the count; [np.cov(x, y, bias=1)]
    subtracts the means, takes the dot products and multiplies them by
    [1 / n]. *)
Module Float64.

Import PrimFloat.
Local Open Scope float_scope.

Definition sum (l : list float) : float := fold_left add l 0.

(** [len(x)] as a float *)
Definition count (l : list float) : float :=
  fold_left (fun n _ => n + 1) l 0.

Definition mean (l : list float) : float := sum l / count l.

Definition dot (a b : list float) : float :=
  sum (map (fun p => fst p * snd p) (combine a b)).

(** [np.maximum] and [np.minimum]: a NaN wins *)
Definition maximum (a b : float) : float :=
  if is_nan a then a else if is_nan b then b else if a <? b then b else a.

Definition minimum (a b : float) : float :=
  if is_nan a then a else if is_nan b then b else if b <? a then b else a.

Definition linregress (x y : list float) : result (float * float) :=
  match x, y with
  | [], _ | _, [] => Raise ValueError
  | x0 :: t, _ =>
      if (fold_left maximum t x0 =? fold_left minimum t x0)
         && (1 <? List.length x)%nat
      then Raise ValueError
      else
        let xmean := mean x in
        let ymean := mean y in
        let dx := map (fun a => a - xmean) x in
        let dy := map (fun a => a - ymean) y in
        let ssxm := dot dx dx * (1 / count x) in
        let ssxym := dot dx dy * (1 / count x) in
        let slope := ssxym / ssxm in
        Ok (slope, ymean - slope * xmean)
  end.

End Float64.

(** *** [calculate_indiv_adjusted_region_cost_ratios] *)

(** Rows of [df_gdp_cost]. *)
Record gdp_cost_row : Type := mk_gdp_cost_row {
  gc_scenario_version : string;
  gc_scenario : string;
  gc_region : string;
  gc_gdp_ratio_reg_to_reference : option Qc;
  gc_message_technology : string;
  gc_reg_cost_ratio : option Qc
}.

(** Rows of [df_reg], without the three dropped columns. *)
Record reg_row : Type := mk_reg_row {
  rg_scenario_version : string;
  rg_scenario : string;
  rg_message_technology : string;
  rg_region : string;
  slope : option Qc;
  intercept : option Qc
}.

(** Rows of [df_adj_ratios]. *)
Record adj_row : Type := mk_adj_row {
  aj_scenario_version : string;
  aj_scenario : string;
  aj_message_technology : option string;
  aj_region : string;
  aj_year : Z;
  aj_gdp_ratio_reg_to_reference : option Qc;
  reg_cost_ratio_adj : option Qc
}.

Definition group_of (r : gdp_cost_row)
    : string * (string * (string * string)) :=
  (gc_scenario_version r,
   (gc_scenario r, (gc_message_technology r, gc_region r))).

(** The rows the regression of one group is run on:
    [df.copy().assign(gdp_ratio_reg_to_reference=1, reg_cost_ratio=1)
    ._append(df)]. *)
Definition regression_rows (df : list gdp_cost_row) : list gdp_cost_row :=
  map (fun r =>
         mk_gdp_cost_row (gc_scenario_version r) (gc_scenario r) (gc_region r)
                         (Some 1%Qc) (gc_message_technology r) (Some 1%Qc))
      df ++ df.

(** The inner function.  [reference_region] is the variable of the
    enclosing scope, [None] while it is unbound. *)
Definition indiv_regress_tech_cost_ratio_vs_gdp_ratio
    (reference_region : option string) (df : list gdp_cost_row)
    : result (list reg_row) :=
  match df with
  | [] => Raise IndexError
  | r0 :: _ =>
      match reference_region with
      | None => Raise UnboundLocalError
      | Some ref =>
          if eqb (gc_region r0) ref
          then
            Ok (map (fun r =>
                       mk_reg_row (gc_scenario_version r) (gc_scenario r)
                                  (gc_message_technology r) (gc_region r)
                                  None None)
                    df)
          else
            sequence
              (map (fun '((sv, (sc, (tech, reg))), rows) =>
                      bind (linregress
                              (map gc_gdp_ratio_reg_to_reference rows)
                              (map gc_reg_cost_ratio rows))
                           (fun fit =>
                              Ok (mk_reg_row sv sc tech reg (fst fit) (snd fit))))
                   (groupby group_of (regression_rows df)))
      end
  end.

(** [str.contains(pat)] for a pattern without special characters *)
Definition contains (pat s : string) : bool :=
  match index 0 pat s with
  | Some _ => true
  | None => false
  end.

(** The base-year block: the configured year if the GDP table has it,
    else the earliest year of the table, with a message. *)
Definition resolve_base_year (input_base_year : Z) (df_gdp : list gdp_row)
    : io Z :=
  let years := unique (map year df_gdp) in
  if negb (mem input_base_year years)
  then
    match years with
    | [] => raise ValueError (* min of an empty sequence *)
    | y :: t =>
        let base_year := fold_right Z.min y t in
        print (BaseYearNotFound input_base_year base_year) ;;;
        ret base_year
    end
  else ret input_base_year.

Definition lift {A} (m : result A) : io A := ([], m).

Section CalculateAdjustedRatios.

Variable node_files : string -> option (list (string * list string)).
Variable ssp_data : list country_row.

Definition calculate_indiv_adjusted_region_cost_ratios
    (region_diff_df : list all_tech_row) (input_node : string)
    (input_ref_region : option string) (input_base_year : Z)
    : io (list adj_row) :=
  processed <- process_raw_ssp_data node_files ssp_data
                 input_node input_ref_region ;;
  df_gdp <-
    match processed with
    | Some df => ret (filter (fun r => 2020 <=? year r)%Z df)
    | None => raise AttributeError
    end ;;
  base_year <- resolve_base_year input_base_year df_gdp ;;
  let reference_region := default_ref_region input_node input_ref_region in
  let gdp_base_year := filter (fun r => eqb (year r) base_year) df_gdp in
  let df_gdp_cost :=
    merge (fun g c => eqb (Some (region g)) (f_region (at_row c)))
          (fun g c =>
             mk_gdp_cost_row
               (scenario_version g) (scenario g) (region g)
               (gdp_ratio_reg_to_reference g)
               (f_message_technology (at_row c))
               (f_reg_cost_ratio (at_row c)))
          gdp_base_year region_diff_df in
  let dfs := map snd (groupby group_of df_gdp_cost) in
  l_reg <- lift (sequence
                   (map (indiv_regress_tech_cost_ratio_vs_gdp_ratio
                           reference_region) dfs)) ;;
  df_reg <-
    match l_reg with
    | [] => raise ValueError (* pd.concat of no objects *)
    | _ => ret (List.concat l_reg)
    end ;;
  ref <-
    match reference_region with
    | Some r => ret r
    | None => raise UnboundLocalError
    end ;;
  ret
    (map (fun '(g, fit) =>
            mk_adj_row
              (where_ (contains "2013" (scenario_version g))
                      "Previous (2013)" "Review (2023)")
              (scenario g)
              (option_map rg_message_technology fit)
              (region g) (year g) (gdp_ratio_reg_to_reference g)
              (where_ (eqb (region g) ref)
                      (Some 1%Qc)
                      (fadd (fmul (match fit with
                                   | Some f => slope f
                                   | None => None
                                   end)
                                  (gdp_ratio_reg_to_reference g))
                            (match fit with
                             | Some f => intercept f
                             | None => None
                             end))))
         (filter (fun p => (base_year <=? year (fst p))%Z)
                 (merge_left
                    (fun g f =>
                       eqb (scenario_version g) (rg_scenario_version f) &&
                       eqb (scenario g) (rg_scenario f) &&
                       eqb (region g) (rg_region f))
                    (fun g f => (g, f))
                    df_gdp df_reg))).

End CalculateAdjustedRatios.

End Gdp.

(** ** splines.py *)

Module Splines.

Definition FIRST_MODEL_YEAR : Z := 2020.
Definition LAST_MODEL_YEAR : Z := 2100.

(** Rows of [nam_learning_df]: the learning-curve cost of a technology in
    the reference region. *)
Record nam_learning_row : Type := mk_nam_learning_row {
  nl_scenario : string;
  nl_message_technology : string;
  nl_weo_technology : string;
  nl_year : Z;
  nl_inv_cost_learning_NAM : option Qc
}.

(** Rows of [adj_cost_ratios_df]. *)
Record adj_cost_ratio_row : Type := mk_adj_cost_ratio_row {
  ac_scenario_version : string;
  ac_scenario : string;
  ac_weo_technology : string;
  ac_region : string;
  ac_year : Z;
  ac_cost_ratio_adj : option Qc
}.

(** Rows of [reg_diff_df]. *)
Record reg_diff_row : Type := mk_reg_diff_row {
  rd_cost_type : string;
  rd_message_technology : string;
  rd_weo_technology : string;
  rd_weo_region : string;
  rd_region : string;
  rd_cost_region_2021 : option Qc;
  rd_cost_ratio : option Qc;
  rd_cost_NAM_adjusted : option Qc
}.

(** Rows of the table [project_adjusted_inv_costs] returns. *)
Record learning_region_row : Type := mk_learning_region_row {
  scenario_version : string;
  scenario : string;
  message_technology : string;
  weo_technology : string;
  region : string;
  year : Z;
  inv_cost_learning_only : option Qc;
  inv_cost_gdp_adj : option Qc;
  inv_cost_converge : option Qc
}.

Definition project_adjusted_inv_costs
    (nam_learning_df : list nam_learning_row)
    (adj_cost_ratios_df : list adj_cost_ratio_row)
    (reg_diff_df : list reg_diff_row)
    (convergence_year_flag : Z) : list learning_region_row :=
  merge
    (fun (l : nam_learning_row * adj_cost_ratio_row) d =>
       eqb (nl_message_technology (fst l)) (rd_message_technology d) &&
       eqb (nl_weo_technology (fst l)) (rd_weo_technology d) &&
       eqb (ac_region (snd l)) (rd_region d))
    (fun l d =>
       let n := fst l in
       let a := snd l in
       mk_learning_region_row
         (ac_scenario_version a) (nl_scenario n) (nl_message_technology n)
         (nl_weo_technology n) (ac_region a) (nl_year n)
         (where_ (nl_year n <=? FIRST_MODEL_YEAR)%Z
                 (rd_cost_region_2021 d)
                 (fmul (nl_inv_cost_learning_NAM n) (rd_cost_ratio d)))
         (where_ (nl_year n <=? FIRST_MODEL_YEAR)%Z
                 (rd_cost_region_2021 d)
                 (fmul (nl_inv_cost_learning_NAM n) (ac_cost_ratio_adj a)))
         (where_ (nl_year n <=? FIRST_MODEL_YEAR)%Z
                 (rd_cost_region_2021 d)
                 (where_ (nl_year n <? convergence_year_flag)%Z
                         (fmul (nl_inv_cost_learning_NAM n) (rd_cost_ratio d))
                         (nl_inv_cost_learning_NAM n))))
    (merge
       (fun n a => eqb (nl_scenario n) (ac_scenario a) &&
                   eqb (nl_weo_technology n) (ac_weo_technology a) &&
                   eqb (nl_year n) (ac_year a))
       (fun n a => (n, a))
       nam_learning_df adj_cost_ratios_df)
    (filter (fun d => eqb (rd_cost_type d) "inv_cost") reg_diff_df).

End Splines.

(** ** util/click.py *)

Module Click.

(** [ScenarioInfo]: the fields a URL carries. *)
Record ScenarioInfo : Type := mk_ScenarioInfo {
  model : string;
  scenario : string;
  version : option N
}.

Definition newline : ascii := ascii_of_nat 10.
Definition carriage_return : ascii := ascii_of_nat 13.
Definition slash : ascii := "/"%char.
Definition hash : ascii := "#"%char.

(** The text before and after the first [c] of [s]. *)
Fixpoint split_at (c : ascii) (s : string) : option (string * string) :=
  match s with
  | EmptyString => None
  | String a t =>
      if Ascii.eqb a c then Some (EmptyString, t)
      else
        match split_at c t with
        | Some (x, y) => Some (String a x, y)
        | None => None
        end
  end.

(** The line without its terminator. *)
Fixpoint chomp (s : string) : string :=
  match s with
  | EmptyString => EmptyString
  | String a t =>
      match t with
      | EmptyString => if Ascii.eqb a newline then EmptyString else s
      | _ => String a (chomp t)
      end
  end.

(** Modelled from the spec: [ScenarioInfo.from_url] is defined in
    [util/scenarioinfo.py], which is not among the sources.  Following the
    syntax [<model>/<scenario>#<version>] with an optional version: the
    line terminator is dropped, the text after the first "#" is the version,
    a decimal number, and the text before it is split at the first "/" into
    model and scenario name.  Anything else is refused. *)
Definition from_url (url : string) : result ScenarioInfo :=
  let body := chomp url in
  let '(path, fragment) :=
    match split_at hash body with
    | Some (p, f) => (p, Some f)
    | None => (body, None)
    end in
  match split_at slash path with
  | None => Raise ValueError
  | Some (m, s) =>
      match fragment with
      | None => Ok (mk_ScenarioInfo m s None)
      | Some EmptyString => Raise ValueError
      | Some f =>
          match NilEmpty.uint_of_string f with
          | Some d => Ok (mk_ScenarioInfo m s (Some (N.of_uint d)))
          | None => Raise ValueError
          end
      end
  end.

(** Modelled from the spec: the [url] property of [ScenarioInfo], from the
    same file; the inverse notation, the version in decimal. *)
Definition url (si : ScenarioInfo) : string :=
  (model si ++ String slash (scenario si) ++
   match version si with
   | Some v => String hash (NilEmpty.string_of_uint (N.to_uint v))
   | None => EmptyString
   end)%string.

(** Reading in text mode: a carriage return, alone or before a line feed,
    is read as a line feed. *)
Fixpoint universal_newlines (s : string) : string :=
  match s with
  | EmptyString => EmptyString
  | String c t =>
      if Ascii.eqb c carriage_return
      then
        match t with
        | String c' t' =>
            if Ascii.eqb c' newline
            then String newline (universal_newlines t')
            else String newline (universal_newlines t)
        | EmptyString => String newline EmptyString
        end
      else String c (universal_newlines t)
  end.

(** The lines of a text, each with its terminator, the last one possibly
    without. *)
Fixpoint split_lines (s : string) : list string :=
  match s with
  | EmptyString => []
  | String c t =>
      if Ascii.eqb c newline then String c EmptyString :: split_lines t
      else
        match split_lines t with
        | [] => [String c EmptyString]
        | l :: ls => String c l :: ls
        end
  end.

(** Iterating over a file opened in text mode. *)
Definition readlines (content : string) : list string :=
  split_lines (universal_newlines content).

(** The part of the shared [Context] the callback writes:
    [context.core.scenarios]. *)
Record Context : Type := mk_Context {
  core_scenarios : list ScenarioInfo
}.

Section UrlsFromFile.

(** [click.open_file]: the text of the file at a path, if it can be
    opened. *)
Variable open_file : string -> option string.

(** The callback returns the list and leaves it on the context; without a
    value it returns the empty list and leaves the context alone. *)
Definition urls_from_file (context : Context) (value : option string)
    : result (Context * list ScenarioInfo) :=
  match value with
  | None => Ok (context, [])
  | Some path =>
      match open_file path with
      | None => Raise FileNotFoundError
      | Some text =>
          bind (sequence (map from_url (readlines text)))
               (fun si => Ok (mk_Context si, si))
      end
  end.

End UrlsFromFile.

(** The text of a list of lines. *)
Definition join_lines (ls : list string) : string :=
  fold_right String.append EmptyString ls.

(** Writing the records back, one URL line each. *)
Definition to_lines (si : list ScenarioInfo) : string :=
  join_lines (map (fun s => (url s ++ String newline EmptyString)%string) si).

(** All characters of a text pass a test. *)
Fixpoint all_chars (p : ascii -> bool) (s : string) : bool :=
  match s with
  | EmptyString => true
  | String c t => p c && all_chars p t
  end.

(** A name: text without "/", "#" and line breaks. *)
Definition is_name (s : string) : bool :=
  all_chars (fun c => negb (Ascii.eqb c slash || Ascii.eqb c hash ||
                            Ascii.eqb c newline ||
                            Ascii.eqb c carriage_return))
            s.

Definition is_digit (c : ascii) : bool :=
  ((48 <=? nat_of_ascii c) && (nat_of_ascii c <=? 57))%nat.

(** A version number: decimal digits, no leading zero. *)
Definition is_version (s : string) : bool :=
  match s with
  | EmptyString => false
  | String c t =>
      all_chars is_digit s &&
      (negb (Ascii.eqb c "0"%char) || String.eqb t EmptyString)
  end.

(** A well-formed line: [<model>/<scenario>#<version>] and the line
    terminator. *)
Inductive well_formed_line : string -> Prop :=
| wf_line (m s v : string) :
    is_name m = true -> is_name s = true -> is_version v = true ->
    well_formed_line
      (m ++ String slash (s ++ String hash (v ++ String newline EmptyString)))%string.

(** A well-formed file: well-formed lines, one after the other. *)
Inductive well_formed_file : string -> Prop :=
| wf_end : well_formed_file EmptyString
| wf_more (line rest : string) :
    well_formed_line line -> well_formed_file rest ->
    well_formed_file (line ++ rest)%string.

(** *** [format_sys_argv] *)

Definition backslash : ascii := ascii_of_nat 92.

(** The end of a line that is continued: a space and a backslash. *)
Definition continued : string := String " "%char (String backslash EmptyString).

(** The lines the loop appends for the items of [sys.argv]; [indent] is
    the indentation of the next item, empty for the first and two spaces
    from then on. *)
Fixpoint argv_lines (indent : string) (argv : list string) : list string :=
  match argv with
  | [] => []
  | item :: rest => (indent ++ item ++ continued)%string :: argv_lines "  " rest
  end.

(** [s[:-2]] *)
Definition drop_last_two (s : string) : string :=
  substring 0 (String.length s - 2) s.

(** [sys.argv] is the argument. *)
Definition format_sys_argv (argv : list string) : string :=
  drop_last_two
    (String.concat (String newline EmptyString)
                   ("Invoked:" :: argv_lines "" argv)).

(** *** [common_params] *)

(** White space, as [str.split()] sees it in ASCII text. *)
Definition is_space (c : ascii) : bool :=
  let n := nat_of_ascii c in
  (((9 <=? n) && (n <=? 13)) || ((28 <=? n) && (n <=? 32)))%nat.

(** [str.split()]: the words between runs of white space. *)
Fixpoint split (s : string) : list string :=
  match s with
  | EmptyString => []
  | String c t =>
      if is_space c then split t
      else
        match t with
        | EmptyString => [String c EmptyString]
        | String c' _ =>
            if is_space c' then String c EmptyString :: split t
            else
              match split t with
              | w :: ws => String c w :: ws
              | [] => [String c EmptyString]
              end
        end
  end.

Section CommonParams.

(** The parameter objects, and the dictionary [PARAMS]. *)
Variable Param : Type.
Variable PARAMS : string -> option Param.

(** What a decorator leaves: the list [__click_params__] of the function,
    complete, or as far as it got when a name was not in [PARAMS]. *)
Inductive decorated : Type :=
| Extended (click_params : list Param)
| KeyError (name : string) (click_params : list Param).

(** [list.extend] with the generator [PARAMS[name] for name in ...]: the
    items are appended one by one. *)
Fixpoint extend (click_params : list Param) (names : list string)
    : decorated :=
  match names with
  | [] => Extended click_params
  | name :: rest =>
      match PARAMS name with
      | Some p => extend (click_params ++ [p]) rest
      | None => KeyError name click_params
      end
  end.

(** The decorator that [common_params param_names] returns, applied to a
    function whose [__click_params__] is [f], [None] for a function without
    the attribute. *)
Definition common_params (param_names : string) (f : option (list Param))
    : decorated :=
  let click_params :=
    match f with
    | Some l => l
    | None => []
    end in
  extend click_params (List.rev (split param_names)).

(** Decorating once more, unless the first decorator raised. *)
Definition and_then (d : decorated)
    (decorator : option (list Param) -> decorated) : decorated :=
  match d with
  | Extended l => decorator (Some l)
  | KeyError name l => KeyError name l
  end.

End CommonParams.

End Click.

(** * Properties *)

(** ** Tables *)

Lemma filter_none {A} (f : A -> bool) (l : list A) :
  (forall x, In x l -> f x = false) -> filter f l = [].
Proof.
  induction l as [|a l IH]; intros Hf; simpl; [reflexivity|].
  rewrite (Hf a (or_introl eq_refl)). apply IH.
  intros x Hx. apply Hf. right. exact Hx.
Qed.

Lemma filter_all {A} (f : A -> bool) (l : list A) :
  (forall x, In x l -> f x = true) -> filter f l = l.
Proof.
  induction l as [|a l IH]; intros Hf; simpl; [reflexivity|].
  rewrite (Hf a (or_introl eq_refl)). f_equal. apply IH.
  intros x Hx. apply Hf. right. exact Hx.
Qed.

Section TableFacts.

Context {A : Type} `{EqB A}.

Lemma unique_In (x : A) (l : list A) : In x (unique l) <-> In x l.
Proof.
  induction l as [|a l IH]; simpl; [tauto|].
  rewrite filter_In, IH, negb_true_iff, eqb_neq.
  destruct (eqb a x) eqn:E.
  - apply eqb_eq in E. tauto.
  - apply eqb_neq in E. tauto.
Qed.

Lemma unique_NoDup (l : list A) : NoDup (unique l).
Proof.
  induction l as [|a l IH]; simpl; constructor.
  - rewrite filter_In, negb_true_iff, eqb_neq. tauto.
  - apply NoDup_filter. exact IH.
Qed.

Lemma mem_unique (x : A) (l : list A) : mem x (unique l) = mem x l.
Proof.
  destruct (mem x l) eqn:E.
  - apply mem_In, unique_In, mem_In. exact E.
  - apply mem_not_In. rewrite unique_In. apply mem_not_In. exact E.
Qed.

Lemma insert_sorted_perm (le : A -> A -> bool) (x : A) (l : list A) :
  Permutation (insert_sorted le x l) (x :: l).
Proof.
  induction l as [|y l IH]; simpl; [reflexivity|].
  destruct (le x y); [reflexivity|].
  rewrite IH. apply perm_swap.
Qed.

Lemma sort_by_perm (le : A -> A -> bool) (l : list A) :
  Permutation (sort_by le l) l.
Proof.
  induction l as [|x l IH]; simpl; [reflexivity|].
  rewrite insert_sorted_perm. constructor. exact IH.
Qed.

(** In a table with one row per key, looking a key up finds its row. *)
Lemma filter_key_singleton {B : Type} (F : A -> B) (k : A) (keys : list A) :
  NoDup keys -> In k keys ->
  filter (fun m => eqb k (fst m)) (map (fun k' => (k', F k')) keys)
  = [(k, F k)].
Proof.
  induction keys as [|a keys IH]; intros ND Hin; [destruct Hin|].
  inversion ND as [|? ? Hna ND']; subst. simpl.
  destruct (eqb k a) eqn:E.
  - apply eqb_eq in E. subst a. f_equal.
    apply filter_none.
    intros m Hm. apply in_map_iff in Hm. destruct Hm as [k' [<- Hk']]. simpl.
    apply eqb_neq. intros ->. contradiction.
  - apply eqb_neq in E. destruct Hin as [->|Hin]; [congruence|].
    apply IH; assumption.
Qed.

End TableFacts.

Lemma groupby_keys {K R} `{EqB K} `{Ord K} (by_ : R -> K) (df : list R) :
  groupby by_ df =
  map (fun k => (k, filter (fun r => eqb (by_ r) k) df))
      (sort_values (unique (map by_ df))).
Proof. reflexivity. Qed.

Lemma groupby_NoDup {K R} `{EqB K} `{Ord K} (by_ : R -> K) (df : list R) :
  NoDup (sort_values (unique (map by_ df))).
Proof.
  eapply Permutation_NoDup; [symmetry; apply sort_by_perm | apply unique_NoDup].
Qed.

Lemma groupby_In {K R} `{EqB K} `{Ord K} (by_ : R -> K) (df : list R) (r : R) :
  In r df -> In (by_ r) (sort_values (unique (map by_ df))).
Proof.
  intros Hr. eapply Permutation_in; [symmetry; apply sort_by_perm|].
  apply unique_In, in_map, Hr.
Qed.

Lemma flat_map_singleton {A B} (f : A -> list B) (g : A -> B) (l : list A) :
  (forall x, In x l -> f x = [g x]) -> flat_map f l = map g l.
Proof.
  induction l as [|a l IH]; intros Hf; simpl; [reflexivity|].
  rewrite (Hf a (or_introl eq_refl)), IH; [reflexivity|].
  intros x Hx. apply Hf. right. exact Hx.
Qed.

(** ** The WEO reader *)

Module WeoDataFacts.

Import RegionalDifferentiation.


(** The table of medians has one row for the group of each row of [df]. *)
Lemma median_lookup (df : list weo_row) (r : weo_row) :
  In r df ->
  filter (fun m => eqb (group_key r) (fst m)) (df_median_of df)
  = [(group_key r,
      median (map value
                  (filter (fun r0 => eqb (group_key r0) (group_key r)) df)))].
Proof.
  intros Hr.
  unfold df_median_of. rewrite groupby_keys, map_map. cbn [fst snd].
  apply (filter_key_singleton
           (fun k => median (map value
                                 (filter (fun r0 => eqb (group_key r0) k) df)))
           (group_key r)
           (groupby_NoDup group_key df) (groupby_In group_key df r Hr)).
Qed.


(** The rows of the imputed table are the rows of the table, with a value
    that depends on the row's own value and group only. *)
Lemma in_impute (df : list weo_row) (r' : weo_row) :
  In r' (impute df) ->
  exists r, In r df
            /\ r' = set_value r
                      (where_ (isnull (value r))
                              (median
                                 (map value
                                      (filter (fun r0 => eqb (group_key r0)
                                                             (group_key r))
                                              df)))
                              (value r)).
Proof.
  unfold impute, merge_left. intros Hin. apply in_flat_map in Hin.
  destruct Hin as [r [Hr Hin]]. exists r. split; [exact Hr|].
  rewrite (median_lookup df r Hr) in Hin.
  destruct Hin as [<-|[]]. reflexivity.
Qed.

End WeoDataFacts.

Lemma in_merge {L R O} (on : L -> R -> bool) (mk : L -> R -> O)
    (left : list L) (right : list R) (o : O) :
  In o (merge on mk left right) <->
  exists a b, In a left /\ In b right /\ on a b = true /\ o = mk a b.
Proof.
  unfold merge. rewrite in_flat_map. split.
  - intros [a [Ha Ho]]. apply in_map_iff in Ho. destruct Ho as [b [<- Hb]].
    apply filter_In in Hb. destruct Hb as [Hb E]. exists a, b. auto.
  - intros [a [b [Ha [Hb [E ->]]]]]. exists a. split; [exact Ha|].
    apply in_map, filter_In. auto.
Qed.

Lemma dict_lookup_unique {K V} (d : list (K * V)) (k : K) (v w : V) :
  NoDup (map fst d) -> In (k, v) d -> In (k, w) d -> v = w.
Proof.
  induction d as [|[k0 v0] d IH]; intros ND Hv Hw; [destruct Hv|].
  inversion ND as [|? ? Hn ND']; subst.
  destruct Hv as [Ev|Hv], Hw as [Ew|Hw].
  - congruence.
  - inversion Ev; subst. exfalso. apply Hn.
    change k with (fst (k, w)). apply in_map. exact Hw.
  - inversion Ew; subst. exfalso. apply Hn.
    change k with (fst (k, v)). apply in_map. exact Hv.
  - apply IH; assumption.
Qed.

Lemma fdiv_self (c : Qc) : c <> 0%Qc -> fdiv (Some c) (Some c) = Some 1%Qc.
Proof.
  intros Hc. unfold fdiv.
  destruct (Qc_eq_bool c 0) eqn:E.
  - apply Qc_eq_bool_eq in E. contradiction.
  - f_equal. apply Qcmult_inv_r. exact Hc.
Qed.

(** ** Regional differentiation *)

Module RegionalDifferentiationFacts.

Import RegionalDifferentiation.

(** The WEO table has one cost per (cost type, technology, region, year). *)
Definition weo_key (r : weo_row) : string * (string * (string * string)) :=
  (cost_type r, (weo_technology r, (weo_region r, year r))).

Definition weo_keyed (df_weo : list weo_row) : Prop :=
  keyed weo_key value df_weo.

(** The mapped Intratec table has one index per region. *)
Definition intratec_keyed (df : list intratec_map_row) : Prop :=
  keyed im_region im_intratec_index df.

(** Every block of the workbook names each region once. *)
Definition workbook_keyed
    (read_excel : string -> nat -> string -> list sheet_row) : Prop :=
  forall sheet skiprows usecols,
    NoDup (map sr_region (read_excel sheet skiprows usecols)).

Lemma in_read_block
    (read_excel : string -> nat -> string -> list sheet_row)
    (conversion_factor : Qc) (tech_key cost_key sheet : string) (skip : nat)
    (cols : string) (r : weo_row) :
  In r (read_block read_excel conversion_factor tech_key cost_key sheet skip
                   cols) ->
  cost_type r = cost_key /\ weo_technology r = tech_key /\
  exists x, In x (read_excel sheet skip cols) /\ weo_region r = sr_region x /\
            ((year r = "2021" /\
              value r = fmul (replace_na (sr_2021 x)) (Some conversion_factor))
             \/ (year r = "2030" /\
                 value r = fmul (replace_na (sr_2030 x)) (Some conversion_factor))
             \/ (year r = "2050" /\
                 value r = fmul (replace_na (sr_2050 x)) (Some conversion_factor))).
Proof.
  unfold read_block. intros Hin. apply in_map_iff in Hin.
  destruct Hin as [[[reg yr] c] [<- Hin]]. cbn.
  split; [reflexivity|]. split; [reflexivity|].
  repeat (apply in_app_or in Hin; destruct Hin as [Hin|Hin]);
    apply in_map_iff in Hin; destruct Hin as [x [E Hx]];
    inversion E; subst; exists x; auto 8.
Qed.

Lemma NoDup_map_inj {A B} (f : A -> B) (l : list A) (x y : A) :
  NoDup (map f l) -> In x l -> In y l -> f x = f y -> x = y.
Proof.
  induction l as [|a l IH]; intros ND Hx Hy E; [destruct Hx|].
  cbn in ND. inversion ND as [|? ? Hn ND']; subst.
  destruct Hx as [->|Hx], Hy as [->|Hy].
  - reflexivity.
  - exfalso. apply Hn. rewrite E. apply in_map. exact Hy.
  - exfalso. apply Hn. rewrite <- E. apply in_map. exact Hx.
  - apply IH; assumption.
Qed.

Lemma unique_fixed_NoDup {A} `{EqB A} (l : list A) : unique l = l -> NoDup l.
Proof. intros <-. apply unique_NoDup. Qed.

Lemma in_all_cost_df
    (read_excel : string -> nat -> string -> list sheet_row)
    (conversion_factor : Qc) (r : weo_row) :
  In r (all_cost_df read_excel conversion_factor) ->
  exists sheet skip cols,
    In (weo_technology r, (sheet, skip)) DICT_TECH_ROWS /\
    In (cost_type r, cols) DICT_COST_COLS /\
    In r (read_block read_excel conversion_factor
                     (weo_technology r) (cost_type r) sheet skip cols).
Proof.
  unfold all_cost_df. intros Hin. apply in_flat_map in Hin.
  destruct Hin as [[tech [sheet skip]] [Ht Hin]]. apply in_flat_map in Hin.
  destruct Hin as [[cost cols] [Hc Hin]].
  destruct (in_read_block _ _ _ _ _ _ _ _ Hin) as [Ec [Et _]].
  exists sheet, skip, cols. rewrite Ec, Et. auto.
Qed.

(** The table read from such a workbook has one value per key. *)
Lemma all_cost_df_keyed
    (read_excel : string -> nat -> string -> list sheet_row)
    (conversion_factor : Qc) :
  workbook_keyed read_excel ->
  weo_keyed (all_cost_df read_excel conversion_factor).
Proof.
  intros W r1 r2 H1 H2 Ek. unfold weo_key in Ek.
  inversion Ek as [[Ec Et Er Ey]].
  destruct (in_all_cost_df _ _ _ H1) as [sh1 [sk1 [co1 [Ht1 [Hc1 Hb1]]]]].
  destruct (in_all_cost_df _ _ _ H2) as [sh2 [sk2 [co2 [Ht2 [Hc2 Hb2]]]]].
  rewrite <- Et in Ht2. rewrite <- Ec in Hc2.
  assert (NDt : NoDup (map fst DICT_TECH_ROWS))
    by (apply unique_fixed_NoDup; vm_compute; reflexivity).
  assert (NDc : NoDup (map fst DICT_COST_COLS))
    by (apply unique_fixed_NoDup; vm_compute; reflexivity).
  pose proof (dict_lookup_unique _ _ _ _ NDt Ht1 Ht2) as Es.
  pose proof (dict_lookup_unique _ _ _ _ NDc Hc1 Hc2) as Eco.
  inversion Es; subst sh2 sk2 co2.
  destruct (in_read_block _ _ _ _ _ _ _ _ Hb1) as [_ [_ [x1 [Hx1 [Er1 Hv1]]]]].
  destruct (in_read_block _ _ _ _ _ _ _ _ Hb2) as [_ [_ [x2 [Hx2 [Er2 Hv2]]]]].
  assert (Ex : x1 = x2).
  { apply (@NoDup_map_inj _ _ sr_region (read_excel sh1 sk1 co1));
      [apply W | exact Hx1 | exact Hx2 | congruence]. }
  subst x2.
  destruct Hv1 as [[Y1 V1]|[[Y1 V1]|[Y1 V1]]],
           Hv2 as [[Y2 V2]|[[Y2 V2]|[Y2 V2]]];
    rewrite V1, V2; try reflexivity; rewrite Y1, Y2 in Ey; discriminate.
Qed.

(** Filling the missing values keeps it so. *)
Lemma get_weo_data_keyed
    (read_excel : string -> nat -> string -> list sheet_row)
    (conversion_factor : Qc) :
  workbook_keyed read_excel ->
  weo_keyed (get_weo_data read_excel conversion_factor).
Proof.
  intros W r1' r2' H1 H2 Ek. unfold get_weo_data in H1, H2.
  destruct (WeoDataFacts.in_impute _ _ H1) as [r1 [Hr1 ->]].
  destruct (WeoDataFacts.in_impute _ _ H2) as [r2 [Hr2 ->]].
  unfold weo_key in Ek. cbn in Ek. inversion Ek as [[Ec Et Er Ey]].
  assert (Ev : value r1 = value r2).
  { apply (all_cost_df_keyed conversion_factor W); [exact Hr1 | exact Hr2 |].
    unfold weo_key. congruence. }
  cbn [value set_value]. unfold group_key. rewrite Ev, Et, Ec. reflexivity.
Qed.

Lemma in_df_sel_weo (region_map : list (string * string))
    (df_weo : list weo_row) (a : sel_weo_row) :
  In a (df_sel_weo_of region_map df_weo) <->
  exists r, In r df_weo /\ In (sw_region a, weo_region r) region_map /\
            year r = sel_year /\
            a = mk_sel_weo_row (cost_type r) (weo_technology r) (weo_region r)
                               (sw_region a) (year r) (value r).
Proof.
  unfold df_sel_weo_of. rewrite in_flat_map. split.
  - intros [[n w] [Hnw Ha]]. apply in_map_iff in Ha.
    destruct Ha as [r [<- Hr]]. apply filter_In in Hr.
    destruct Hr as [Hr E]. apply andb_true_iff in E. destruct E as [Ey Ew].
    apply eqb_eq in Ey, Ew. simpl. exists r. subst w. auto.
  - intros [r [Hr [Hm [Ey ->]]]]. exists (sw_region a, weo_region r).
    split; [exact Hm|]. simpl. apply in_map_iff. exists r.
    split; [reflexivity|]. apply filter_In. split; [exact Hr|].
    apply andb_true_iff. split; apply eqb_eq; auto.
Qed.

Lemma df_sel_weo_keyed (region_map : list (string * string))
    (df_weo : list weo_row) (a b : sel_weo_row) :
  weo_keyed df_weo -> NoDup (map fst region_map) ->
  In a (df_sel_weo_of region_map df_weo) ->
  In b (df_sel_weo_of region_map df_weo) ->
  sw_cost_type a = sw_cost_type b ->
  sw_weo_technology a = sw_weo_technology b ->
  sw_region a = sw_region b ->
  sw_weo_cost a = sw_weo_cost b.
Proof.
  intros K ND Ha Hb Ec Et Er.
  apply in_df_sel_weo in Ha, Hb.
  destruct Ha as [ra [Hra [Hma [Eya Ea]]]], Hb as [rb [Hrb [Hmb [Eyb Eb]]]].
  rewrite Er in Hma.
  pose proof (dict_lookup_unique _ _ _ _ ND Hma Hmb) as Ew.
  rewrite Ea, Eb in Ec, Et. simpl in Ec, Et.
  rewrite Ea, Eb. simpl. apply K; [exact Hra | exact Hrb |].
  unfold weo_key. congruence.
Qed.

(** At the reference region the ratio is the reference cost divided by
    itself. *)
Lemma weo_ratio_self (region_map : list (string * string))
    (df_weo : list weo_row) (ref : string) (a : weo_ratio_row) :
  weo_keyed df_weo -> NoDup (map fst region_map) ->
  In a (weo_reg_ratios ref (df_sel_weo_of region_map df_weo)) ->
  wr_region a = ref ->
  wr_reg_cost_ratio a
  = fdiv (wr_weo_ref_region_cost a) (wr_weo_ref_region_cost a).
Proof.
  intros K ND Ha Er.
  unfold weo_reg_ratios in Ha. apply in_merge in Ha.
  destruct Ha as [l [r [Hl [Hr [Eon ->]]]]]. simpl in *.
  apply filter_In in Hl, Hr. destruct Hl as [Hl El], Hr as [Hr Einv].
  apply andb_true_iff in El, Eon. destruct El as [Elr Elc], Eon as [Et _].
  apply eqb_eq in Elr, Elc, Einv, Et.
  assert (E : sw_weo_cost r = sw_weo_cost l).
  { eapply df_sel_weo_keyed; [exact K | exact ND | exact Hr | exact Hl | ..];
    congruence. }
  rewrite E. reflexivity.
Qed.

Lemma intratec_ratio_self (df : list intratec_map_row)
    (ref : string) (a : intratec_ratio_row) :
  intratec_keyed df ->
  In a (intratec_reg_ratios ref df) ->
  ir_region a = ref ->
  ir_reg_cost_ratio a
  = fdiv (ir_intratec_ref_region_cost a) (ir_intratec_ref_region_cost a).
Proof.
  intros K Ha Er.
  unfold intratec_reg_ratios in Ha. apply in_merge in Ha.
  destruct Ha as [l [r [Hl [Hr [_ ->]]]]]. simpl in *.
  apply filter_In in Hl. destruct Hl as [Hl El]. apply eqb_eq in El.
  assert (E : im_intratec_index r = im_intratec_index l).
  { apply K; [exact Hr | exact Hl | congruence]. }
  rewrite E. reflexivity.
Qed.

(** The rows of the table the WEO branch returns carry the ratios of
    [df_reg_ratios]. *)
Lemma weo_out_ratio_self
    (read_excel : string -> nat -> string -> list sheet_row)
    (conversion_factor : Qc)
    (get_weo_region_map : string -> list (string * string))
    (config : Config) (ref : string)
    (out : list weo_cost_ratio_row) (row : weo_cost_ratio_row) :
  workbook_keyed read_excel ->
  NoDup (map fst (get_weo_region_map (node config))) ->
  ref_region config = Some ref ->
  get_weo_regional_differentiation
    read_excel conversion_factor get_weo_region_map config = Ok out ->
  In row out ->
  wc_region row = upper ref ->
  wc_reg_cost_ratio row
  = fdiv (wc_weo_ref_region_cost row) (wc_weo_ref_region_cost row).
Proof.
  intros K ND Eref Hout Hrow Er.
  unfold get_weo_regional_differentiation in Hout. cbv zeta in Hout.
  destruct (get_weo_region_map (node config)) as [|p region_map] eqn:Erm;
    [discriminate|].
  rewrite Eref in Hout.
  destruct (negb _) in Hout; [discriminate|].
  inversion Hout; subst out; clear Hout.
  apply in_merge in Hrow. destruct Hrow as [a [b [Ha [_ [_ ->]]]]].
  cbn [wc_region wc_weo_ref_region_cost wc_reg_cost_ratio] in *.
  eapply weo_ratio_self;
    [apply (get_weo_data_keyed conversion_factor K) | exact ND | exact Ha
    | exact Er].
Qed.

Lemma intratec_out_ratio_self (df_intratec : list intratec_row)
    (adapt_R11_R12 : list intratec_row -> list intratec_row)
    (node ref : string) (df_intratec_map : list intratec_map_row)
    (out : list intratec_ratio_row) (row : intratec_ratio_row) :
  df_intratec_map_of df_intratec adapt_R11_R12 node
    = Ok (Some df_intratec_map) ->
  intratec_keyed df_intratec_map ->
  get_intratec_regional_differentiation df_intratec adapt_R11_R12 node ref
    = Ok out ->
  In row out ->
  ir_region row = upper ref ->
  ir_reg_cost_ratio row
  = fdiv (ir_intratec_ref_region_cost row) (ir_intratec_ref_region_cost row).
Proof.
  intros Em K Hout Hrow Er.
  unfold get_intratec_regional_differentiation in Hout.
  rewrite Em in Hout. simpl in Hout.
  destruct (negb _) in Hout; [discriminate|].
  inversion Hout; subst out; clear Hout.
  eapply intratec_ratio_self; eauto.
Qed.

(** C1: in the table [get_weo_regional_differentiation] returns, and in the
    table [get_intratec_regional_differentiation] returns, every row of the
    reference region whose reference-region cost is a nonzero number has
    [reg_cost_ratio] equal to 1.  The source tables hold one cost per key
    (every block of the WEO workbook names each region once; the mapped
    Intratec table has one index per region), and a dict has each key
    once. *)
Theorem reg_cost_ratio_one_at_reference_region :
  (forall (read_excel : string -> nat -> string -> list sheet_row)
          (conversion_factor : Qc)
          (get_weo_region_map : string -> list (string * string))
          (config : Config) (ref : string)
          (out : list weo_cost_ratio_row) (row : weo_cost_ratio_row) (c : Qc),
      workbook_keyed read_excel ->
      NoDup (map fst (get_weo_region_map (node config))) ->
      ref_region config = Some ref ->
      get_weo_regional_differentiation
        read_excel conversion_factor get_weo_region_map config
        = Ok out ->
      In row out ->
      wc_region row = upper ref ->
      wc_weo_ref_region_cost row = Some c -> c <> 0%Qc ->
      wc_reg_cost_ratio row = Some 1%Qc)
  /\
  (forall (df_intratec : list intratec_row)
          (adapt_R11_R12 : list intratec_row -> list intratec_row)
          (node ref : string) (df_intratec_map : list intratec_map_row)
          (out : list intratec_ratio_row) (row : intratec_ratio_row) (c : Qc),
      df_intratec_map_of df_intratec adapt_R11_R12 node
        = Ok (Some df_intratec_map) ->
      intratec_keyed df_intratec_map ->
      get_intratec_regional_differentiation df_intratec adapt_R11_R12 node ref
        = Ok out ->
      In row out ->
      ir_region row = upper ref ->
      ir_intratec_ref_region_cost row = Some c -> c <> 0%Qc ->
      ir_reg_cost_ratio row = Some 1%Qc).
Proof.
  split.
  - intros read_excel cf rm config ref out row c K ND Eref Hout Hrow Er Ec Hc.
    rewrite (@weo_out_ratio_self _ _ _ _ _ _ _ K ND Eref Hout Hrow Er), Ec.
    apply fdiv_self. exact Hc.
  - intros df_intratec adapt node ref m out row c Em K Hout Hrow Er Ec Hc.
    rewrite (@intratec_out_ratio_self _ _ _ _ _ _ _ Em K Hout Hrow Er), Ec.
    apply fdiv_self. exact Hc.
Qed.

End RegionalDifferentiationFacts.

(** ** Sample inputs *)

Module Samples.

Import RegionalDifferentiation.

Definition q (n : Z) : Qc := Q2Qc (n # 1).

(** A workbook with one technology block, "ccgt" on sheet "Gas" below row 5,
    for two regions; one cell is marked "n.a.". *)
Definition read_excel (sheet : string) (skiprows : nat) (usecols : string)
    : list sheet_row :=
  if eqb sheet "Gas" && Nat.eqb skiprows 5
  then
    if eqb usecols "A,B:D"
    then [ mk_sheet_row "United States"
                        (Number (q 2000)) (Number (q 1900)) NotApplicable;
           mk_sheet_row "China"
                        (Number (q 1200)) (Number (q 1100)) (Number (q 1000)) ]
    else [ mk_sheet_row "United States"
                        (Number (q 50)) (Number (q 50)) (Number (q 50));
           mk_sheet_row "China"
                        (Number (q 42)) (Number (q 42)) (Number (q 42)) ]
  else [].

Definition conversion_factor : Qc := Q2Qc (1 # 2).

(** A workbook number in the currency of the result. *)
Definition usd (n : Z) : Qc := (q n * conversion_factor)%Qc.

Definition weo_region_map (regions : string) : list (string * string) :=
  [ ("R12_NAM", "United States"); ("R12_CHN", "China") ].

Definition config : Config :=
  mk_Config 2021 2050 "energy" "R12" (Some "r12_nam").

Definition df_intratec : list intratec_row :=
  [ mk_intratec_row "R11_NAM" (Some (q 100));
    mk_intratec_row "R11_CPA" (Some (q 80)) ].

Definition adapt_R11_R12 (df : list intratec_row) : list intratec_row :=
  flat_map
    (fun r =>
       if eqb (it_node r) "R11_NAM" then [mk_intratec_row "R12_NAM" (it_value r)]
       else if eqb (it_node r) "R11_CPA"
       then [mk_intratec_row "R12_CHN" (it_value r);
             mk_intratec_row "R12_RCPA" (it_value r)]
       else [r])
    df.

(** A mapping with one technology per kind of source. *)
Definition tech_map (module : string) : list tech_map_row :=
  [ mk_tech_map_row "gas_cc" (Some "weo") (Some "ccgt") None None;
    mk_tech_map_row "h2_smr" (Some "intratec") (Some "all") (Some (q 700)) None;
    mk_tech_map_row "tech_a" None None (Some (q 500)) None ].

(** A mapping whose only technology has no differentiation source. *)
Definition tech_map_no_source (module : string) : list tech_map_row :=
  [ mk_tech_map_row "tech_a" None None (Some (q 500)) None ].

Definition inputs : Inputs :=
  mk_Inputs read_excel conversion_factor weo_region_map df_intratec
            adapt_R11_R12 tech_map.

Definition inputs_no_source : Inputs :=
  mk_Inputs read_excel conversion_factor weo_region_map df_intratec
            adapt_R11_R12 tech_map_no_source.

End Samples.

Ltac qc_const_neq :=
  let E := fresh in
  intros E; apply (f_equal Qcanon.this) in E; vm_compute in E; discriminate.

Ltac qc_side := repeat split; try assumption; try qc_const_neq.

Lemma Qc_of_Z_neq (a b : Z) : a <> b -> Samples.q a <> Samples.q b.
Proof.
  intros N E. apply Q2Qc_eq_iff in E. unfold Qeq in E. simpl in E. lia.
Qed.

Lemma keyedb_sound {R K V} `{EqB K} `{EqB V} (key : R -> K) (val : R -> V)
    (df : list R) :
  keyedb key val df = true -> keyed key val df.
Proof.
  unfold keyedb, keyed. rewrite forallb_forall. intros Hb r1 r2 H1 H2 Ek.
  specialize (Hb r1 H1). rewrite forallb_forall in Hb. specialize (Hb r2 H2).
  rewrite Ek, eqb_refl in Hb. apply eqb_eq. exact Hb.
Qed.

Module WeoDataSamples.

Import RegionalDifferentiation Samples.

(** In the sample workbook the 2050 investment cost of the United States is
    marked "n.a."; it becomes 600, the median of the five numbers of the
    group (1000, 950, 600, 550, 500), which span both regions and all
    years.  The other values are the workbook's, converted. *)
Example get_weo_data_sample :
  map (fun r => (weo_region r, year r, option_map Qcanon.this (value r)))
      (filter (fun r => eqb (cost_type r) "inv_cost")
              (get_weo_data read_excel conversion_factor))
  = [ ("United States", "2021", Some (1000 # 1));
      ("China", "2021", Some (600 # 1));
      ("United States", "2030", Some (950 # 1));
      ("China", "2030", Some (550 # 1));
      ("United States", "2050", Some (600 # 1));
      ("China", "2050", Some (500 # 1)) ].
Proof. vm_compute. reflexivity. Qed.

End WeoDataSamples.

Module RegionalDifferentiationWitness.

Import RegionalDifferentiation RegionalDifferentiationFacts Samples.

Lemma samples_workbook_keyed : workbook_keyed read_excel.
Proof.
  intros sheet skiprows usecols. unfold read_excel.
  destruct (eqb sheet "Gas" && Nat.eqb skiprows 5);
    [destruct (eqb usecols "A,B:D")|];
    cbn [map sr_region]; repeat constructor; cbn; intuition discriminate.
Qed.

Lemma samples_intratec_keyed :
  intratec_keyed (to_intratec_map (adapt_R11_R12 df_intratec)).
Proof. apply keyedb_sound. vm_compute. reflexivity. Qed.

Lemma reg_cost_ratio_one_at_reference_region_witness :
  wc_reg_cost_ratio
    (mk_weo_cost_ratio_row "ccgt" "R12_NAM" (Some (usd 2000))
       (fdiv (Some (usd 2000)) (Some (usd 2000)))
       (fdiv (Some (usd 50)) (Some (usd 2000)))) = Some 1%Qc
  /\
  ir_reg_cost_ratio
    (mk_intratec_ratio_row "all" "R12_NAM" (Some (q 100))
       (fdiv (Some (q 100)) (Some (q 100)))) = Some 1%Qc.
Proof.
  split.
  - eapply (proj1 reg_cost_ratio_one_at_reference_region
              read_excel conversion_factor weo_region_map config "r12_nam"
              (match get_weo_regional_differentiation
                       read_excel conversion_factor weo_region_map config with
               | Ok out => out
               | Raise _ => []
               end)).
    + exact samples_workbook_keyed.
    + simpl. repeat constructor; simpl; intuition discriminate.
    + reflexivity.
    + vm_compute. reflexivity.
    + vm_compute. left. reflexivity.
    + reflexivity.
    + reflexivity.
    + qc_const_neq.
  - eapply (proj2 reg_cost_ratio_one_at_reference_region
              df_intratec adapt_R11_R12 "R12" "r12_nam").
    + reflexivity.
    + exact samples_intratec_keyed.
    + reflexivity.
    + left. reflexivity.
    + reflexivity.
    + reflexivity.
    + apply (@Qc_of_Z_neq 100 0). lia.
Defined.

End RegionalDifferentiationWitness.

Module ReferenceRegionFacts.

Import RegionalDifferentiation.

(** The regions of the WEO table selected for a node codelist. *)
Definition weo_regions
    (read_excel : string -> nat -> string -> list sheet_row)
    (conversion_factor : Qc)
    (get_weo_region_map : string -> list (string * string))
    (config : Config) : list string :=
  map sw_region
      (df_sel_weo_of (get_weo_region_map (node config))
                     (get_weo_data read_excel conversion_factor)).

(** The regions of the WEO table and of the mapped Intratec table for the
    inputs of [apply_regional_differentiation]. *)
Definition weo_regions_of (inputs : Inputs) (config : Config) : list string :=
  weo_regions (read_excel inputs) (conversion_factor inputs)
              (get_weo_region_map inputs) config.

Definition intratec_map_of (inputs : Inputs) (config : Config)
    : result (option (list intratec_map_row)) :=
  df_intratec_map_of (get_intratec_data inputs) (adapt_R11_R12 inputs)
                     (node config).

Lemma weo_absent_raises
    (read_excel : string -> nat -> string -> list sheet_row)
    (conversion_factor : Qc)
    (get_weo_region_map : string -> list (string * string))
    (config : Config) (ref : string) :
  ref_region config = Some ref ->
  ~ In (upper ref)
       (weo_regions read_excel conversion_factor get_weo_region_map config) ->
  get_weo_regional_differentiation
    read_excel conversion_factor get_weo_region_map config
  = Raise ValueError.
Proof.
  intros Eref Habs. unfold get_weo_regional_differentiation, weo_regions in *.
  cbv zeta.
  destruct (get_weo_region_map (node config)) as [|p region_map];
    [reflexivity|].
  rewrite Eref, mem_unique.
  apply mem_not_In in Habs. rewrite Habs. reflexivity.
Qed.

Lemma intratec_absent_raises (df_intratec : list intratec_row)
    (adapt_R11_R12 : list intratec_row -> list intratec_row)
    (node ref : string) (df_intratec_map : list intratec_map_row) :
  df_intratec_map_of df_intratec adapt_R11_R12 node
    = Ok (Some df_intratec_map) ->
  ~ In (upper ref) (map im_region df_intratec_map) ->
  get_intratec_regional_differentiation df_intratec adapt_R11_R12 node ref
  = Raise ValueError.
Proof.
  intros Em Habs. unfold get_intratec_regional_differentiation.
  rewrite Em. cbn [bind]. rewrite mem_unique.
  apply mem_not_In in Habs. rewrite Habs. reflexivity.
Qed.

(** The WEO branch raises ValueError or AssertionError, nothing else. *)
Lemma weo_raises_only
    (read_excel : string -> nat -> string -> list sheet_row)
    (conversion_factor : Qc)
    (get_weo_region_map : string -> list (string * string))
    (config : Config) (ref : string) (e : exn) :
  ref_region config = Some ref ->
  get_weo_regional_differentiation
    read_excel conversion_factor get_weo_region_map config = Raise e ->
  e = ValueError.
Proof.
  intros Eref. unfold get_weo_regional_differentiation. cbv zeta.
  destruct (get_weo_region_map (node config)); [congruence|].
  rewrite Eref. destruct (negb _); congruence.
Qed.

(** C7: when the reference region of the configuration is not among the
    regions of the WEO table selected for the node codelist,
    [get_weo_regional_differentiation] raises ValueError; when it is not among
    the regions of the mapped Intratec table,
    [get_intratec_regional_differentiation] raises ValueError; and in either
    case [apply_regional_differentiation] raises ValueError and returns no
    table. *)
Theorem reference_region_absent_raises :
  (forall (read_excel : string -> nat -> string -> list sheet_row)
          (conversion_factor : Qc)
          (get_weo_region_map : string -> list (string * string))
          (config : Config) (ref : string),
      ref_region config = Some ref ->
      ~ In (upper ref)
           (weo_regions read_excel conversion_factor get_weo_region_map
                        config) ->
      get_weo_regional_differentiation
        read_excel conversion_factor get_weo_region_map config
      = Raise ValueError)
  /\
  (forall (df_intratec : list intratec_row)
          (adapt_R11_R12 : list intratec_row -> list intratec_row)
          (node ref : string) (df_intratec_map : list intratec_map_row),
      df_intratec_map_of df_intratec adapt_R11_R12 node
        = Ok (Some df_intratec_map) ->
      ~ In (upper ref) (map im_region df_intratec_map) ->
      get_intratec_regional_differentiation df_intratec adapt_R11_R12 node ref
      = Raise ValueError)
  /\
  (forall (inputs : Inputs) (config : Config) (ref : string)
          (df_intratec_map : list intratec_map_row),
      ref_region config = Some ref ->
      intratec_map_of inputs config = Ok (Some df_intratec_map) ->
      ~ In (upper ref) (weo_regions_of inputs config) \/
      ~ In (upper ref) (map im_region df_intratec_map) ->
      apply_regional_differentiation inputs config = Raise ValueError).
Proof.
  split; [|split].
  - exact weo_absent_raises.
  - exact intratec_absent_raises.
  - intros inputs config ref m Eref Em Habs.
    unfold apply_regional_differentiation, weo_regions_of, intratec_map_of in *.
    rewrite Eref.
    destruct (in_dec string_dec (upper ref)
                (weo_regions (read_excel inputs) (conversion_factor inputs)
                             (get_weo_region_map inputs) config))
      as [Hin|Hout].
    + destruct Habs as [Habs|Habs]; [contradiction|].
      rewrite (@intratec_absent_raises _ _ _ _ _ Em Habs).
      destruct (get_weo_regional_differentiation _ _ _ config) as [w|e] eqn:Ew;
        cbn [bind]; [reflexivity|].
      rewrite (@weo_raises_only _ _ _ _ _ _ Eref Ew). reflexivity.
    + rewrite (@weo_absent_raises _ _ _ _ _ Eref Hout). reflexivity.
Qed.

End ReferenceRegionFacts.

Module ReferenceRegionWitness.

Import RegionalDifferentiation ReferenceRegionFacts Samples.

Definition config_absent : Config :=
  mk_Config 2021 2050 "energy" "R12" (Some "R12_XYZ").

Lemma reference_region_absent_raises_witness :
  get_weo_regional_differentiation
    read_excel conversion_factor weo_region_map config_absent
    = Raise ValueError
  /\ get_intratec_regional_differentiation df_intratec adapt_R11_R12
       "R12" "R12_XYZ" = Raise ValueError
  /\ apply_regional_differentiation inputs config_absent = Raise ValueError.
Proof.
  split; [|split].
  - apply (proj1 reference_region_absent_raises
             read_excel conversion_factor weo_region_map config_absent
             "R12_XYZ").
    + reflexivity.
    + vm_compute. intuition discriminate.
  - eapply (proj1 (proj2 reference_region_absent_raises)
              df_intratec adapt_R11_R12 "R12" "R12_XYZ").
    + reflexivity.
    + simpl. intuition discriminate.
  - eapply (proj2 (proj2 reference_region_absent_raises)
              inputs config_absent "R12_XYZ").
    + reflexivity.
    + reflexivity.
    + left. vm_compute. intuition discriminate.
Defined.

End ReferenceRegionWitness.

Module NoSourceFacts.

Import RegionalDifferentiation Samples.

(** The row of [filt_none] for a mapping row [m] and a row [u] of [un_reg]
    ([None]: no such row). *)
Definition none_row (m : tech_map_row) (u : option un_reg_row) : filt_row :=
  mk_filt_row
    (message_technology m) (reg_diff_source m) (reg_diff_technology m)
    (match u with Some u' => ur_region u' | None => None end)
    (base_year_reference_region_cost m)
    (match u with Some u' => ur_reg_cost_ratio u' | None => None end)
    (where_ (isnull (fix_ratio m)) (Some 0%Qc) (fix_ratio m)).

(** With regions to spread over, a technology without a source gets one row
    per region of [un_reg], each with ratio 1. *)
Lemma filt_none_rows (df_map : list tech_map_row)
    (regions : list (option string)) :
  regions <> [] ->
  filt_none_of df_map (map (fun r => mk_un_reg_row r (Some 1%Qc) "z") regions)
  = flat_map
      (fun m => map (fun r => none_row m (Some (mk_un_reg_row r (Some 1%Qc) "z")))
                    regions)
      (filter (fun m => isnull (reg_diff_source m)) df_map).
Proof.
  intros Hne. unfold filt_none_of, merge_left.
  rewrite flat_map_concat_map, map_map, <- flat_map_concat_map.
  apply flat_map_ext. intros m. cbn [fst snd].
  rewrite filter_all.
  - destruct regions as [|r regions]; [congruence|].
    cbn [map]. rewrite map_map. reflexivity.
  - intros u Hu. apply in_map_iff in Hu. destruct Hu as [r [<- _]].
    reflexivity.
Qed.

(** Without a region in [filt_intratec], it gets a single row, with no
    region and no ratio. *)
Lemma filt_none_no_regions (df_map : list tech_map_row) :
  filt_none_of df_map (un_reg_of [])
  = map (fun m => none_row m None)
        (filter (fun m => isnull (reg_diff_source m)) df_map).
Proof.
  unfold filt_none_of, merge_left, un_reg_of. cbn [map unique filter].
  rewrite flat_map_concat_map, map_map, <- flat_map_concat_map.
  apply flat_map_singleton. intros m _. reflexivity.
Qed.

Lemma in_merge_left_source {R} (on : tech_map_row -> R -> bool)
    (mk : tech_map_row -> option R -> filt_row)
    (left : list tech_map_row) (right : list R) (row : filt_row) :
  (forall m r, f_reg_diff_source (mk m r) = reg_diff_source m) ->
  In row (merge_left on mk left right) ->
  exists m, In m left /\ f_reg_diff_source row = reg_diff_source m.
Proof.
  intros Hmk Hin. unfold merge_left in Hin. apply in_flat_map in Hin.
  destruct Hin as [m [Hm Hrow]]. exists m. split; [exact Hm|].
  destruct (filter (on m) right) as [|r rs].
  - destruct Hrow as [<-|[]]. apply Hmk.
  - apply in_map_iff in Hrow. destruct Hrow as [r' [<- _]]. apply Hmk.
Qed.

(** C8, where it fails: when no technology of the mapping uses Intratec,
    every row that [apply_regional_differentiation] returns for a technology
    without a differentiation source has no region and no ratio: [un_reg] is
    built from the regions of [filt_intratec], which is empty then, whatever
    the regions of the node list. *)
Theorem no_source_without_intratec_technology
    (inputs : Inputs) (config : Config)
    (df_map : list tech_map_row) (out : list all_tech_row)
    (row : all_tech_row) :
  adjust_technology_mapping (get_raw_technology_mapping inputs)
                            (module_ config) = Some df_map ->
  (forall m, In m df_map -> source_is "intratec" m = false) ->
  apply_regional_differentiation inputs config = Ok out ->
  In row out ->
  f_reg_diff_source (at_row row) = None ->
  f_region (at_row row) = None /\ f_reg_cost_ratio (at_row row) = None.
Proof.
  intros Emap Hno Hout Hrow Hsrc.
  unfold apply_regional_differentiation in Hout. rewrite Emap in Hout.
  destruct (ref_region config) as [ref|]; [|discriminate].
  destruct (get_weo_regional_differentiation _ _ _ config) as [df_weo|];
    [|discriminate].
  destruct (get_intratec_regional_differentiation _ _ _ ref) as [df_intratec|];
    [|discriminate].
  cbn [bind] in Hout. inversion Hout; subst out; clear Hout.
  unfold all_tech_of in Hrow. apply in_map_iff in Hrow.
  destruct Hrow as [r [<- Hr]]. cbn [at_row] in *.
  assert (Eint : filt_intratec_of df_map df_intratec = []).
  { unfold filt_intratec_of. rewrite (filter_none _ _ Hno). reflexivity. }
  rewrite Eint in Hr. cbn [List.app] in Hr.
  apply in_app_or in Hr. destruct Hr as [Hr|Hr].
  - exfalso. unfold filt_weo_of in Hr.
    apply in_merge_left_source in Hr; [|reflexivity].
    destruct Hr as [m [Hm Em]]. apply filter_In in Hm. destruct Hm as [_ Hm].
    rewrite Hsrc in Em. unfold source_is in Hm. rewrite <- Em in Hm.
    discriminate.
  - rewrite filt_none_no_regions in Hr. apply in_map_iff in Hr.
    destruct Hr as [m [<- _]]. split; reflexivity.
Qed.

Lemma no_source_without_intratec_technology_witness :
  f_region
    (mk_filt_row "tech_a" None None None (Some (q 500)) None (Some 0%Qc))
    = None
  /\ f_reg_cost_ratio
       (mk_filt_row "tech_a" None None None (Some (q 500)) None (Some 0%Qc))
     = None.
Proof.
  apply (@no_source_without_intratec_technology
           inputs_no_source config (tech_map_no_source "energy")
           [ mk_all_tech_row
               (mk_filt_row "tech_a" None None None (Some (q 500)) None
                            (Some 0%Qc))
               None ]
           (mk_all_tech_row
              (mk_filt_row "tech_a" None None None (Some (q 500)) None
                           (Some 0%Qc))
              None)).
  - reflexivity.
  - intros m [<-|[]]. reflexivity.
  - vm_compute. reflexivity.
  - left. reflexivity.
  - reflexivity.
Defined.

(** With a technology that uses Intratec in the mapping, the technology
    without a source gets ratio 1 in each of the Intratec regions. *)
Example no_source_with_intratec_technology :
  option_map
    (fun out =>
       map (fun r => (f_region (at_row r),
                      option_map Qcanon.this (f_reg_cost_ratio (at_row r))))
           (filter (fun r => isnull (f_reg_diff_source (at_row r))) out))
    (match apply_regional_differentiation inputs config with
     | Ok out => Some out
     | Raise _ => None
     end)
  = Some [ (Some "R12_NAM", Some (1 # 1)); (Some "R12_CHN", Some (1 # 1));
           (Some "R12_RCPA", Some (1 # 1)) ].
Proof. vm_compute. reflexivity. Qed.

End NoSourceFacts.

Lemma in_merge_left {L R O} (on : L -> R -> bool) (mk : L -> option R -> O)
    (left : list L) (right : list R) (o : O) :
  In o (merge_left on mk left right) ->
  exists a, In a left /\
            (o = mk a None \/
             exists b, In b right /\ on a b = true /\ o = mk a (Some b)).
Proof.
  unfold merge_left. intros Hin. apply in_flat_map in Hin.
  destruct Hin as [a [Ha Ho]]. exists a. split; [exact Ha|].
  destruct (filter (on a) right) as [|r rs] eqn:E.
  - destruct Ho as [<-|[]]. left. reflexivity.
  - right. apply in_map_iff in Ho. destruct Ho as [b [<- Hb]].
    rewrite <- E in Hb. apply filter_In in Hb. destruct Hb as [Hb Eon].
    exists b. auto.
Qed.

Lemma fdiv_same (x : option Qc) :
  fdiv x x = Some 1%Qc \/ fdiv x x = None.
Proof.
  destruct x as [c|]; [|right; reflexivity].
  destruct (Qc_eq_dec c 0%Qc) as [->|Hc].
  - right. reflexivity.
  - left. apply fdiv_self. exact Hc.
Qed.

Module EngineFacts.

Import RegionalDifferentiation RegionalDifferentiationFacts.
Import ReferenceRegionFacts.

(** In the table of [apply_regional_differentiation], a row of the
    reference region for a technology with a differentiation source has
    ratio 1, unless the ratio is missing (the source's reference cost is
    missing or zero). *)
Lemma engine_ratio_at_reference_region
    (inputs : Inputs) (config : Config) (ref : string)
    (out : list all_tech_row) (row : all_tech_row) :
  workbook_keyed (read_excel inputs) ->
  NoDup (map fst (get_weo_region_map inputs (node config))) ->
  (forall m, intratec_map_of inputs config = Ok (Some m) -> intratec_keyed m) ->
  ref_region config = Some ref ->
  apply_regional_differentiation inputs config = Ok out ->
  In row out ->
  f_reg_diff_source (at_row row) <> None ->
  f_region (at_row row) = Some (upper ref) ->
  f_reg_cost_ratio (at_row row) = Some 1%Qc \/
  f_reg_cost_ratio (at_row row) = None.
Proof.
  intros KW ND KI Eref Hout Hrow Hsrc Hreg.
  unfold apply_regional_differentiation in Hout. rewrite Eref in Hout.
  destruct (get_weo_regional_differentiation _ _ _ config)
    as [df_weo|] eqn:Eweo; [|discriminate].
  destruct (get_intratec_regional_differentiation _ _ _ ref)
    as [df_intratec|] eqn:Eint; [|discriminate].
  cbn [bind] in Hout.
  destruct (adjust_technology_mapping _ _) as [df_map|]; [|discriminate].
  inversion Hout; subst out; clear Hout.
  unfold all_tech_of in Hrow. apply in_map_iff in Hrow.
  destruct Hrow as [r [<- Hr]]. cbn [at_row] in *.
  apply in_app_or in Hr. destruct Hr as [Hr|Hr];
    [|apply in_app_or in Hr; destruct Hr as [Hr|Hr]].
  - unfold filt_weo_of in Hr. apply in_merge_left in Hr.
    destruct Hr as [m [_ [->|[w [Hw [_ ->]]]]]]; [discriminate Hreg|].
    cbn in Hreg |- *. inversion Hreg as [Ew].
    rewrite (@weo_out_ratio_self _ _ _ _ _ _ _ KW ND Eref Eweo Hw Ew).
    apply fdiv_same.
  - unfold filt_intratec_of in Hr. apply in_merge_left in Hr.
    destruct Hr as [m [_ [->|[i [Hi [_ ->]]]]]]; [discriminate Hreg|].
    cbn in Hreg |- *. inversion Hreg as [Ei].
    assert (Em : exists dm, intratec_map_of inputs config = Ok (Some dm)).
    { unfold intratec_map_of.
      unfold get_intratec_regional_differentiation in Eint.
      destruct (df_intratec_map_of _ _ (node config)) as [[dm|]|];
        try discriminate Eint.
      exists dm. reflexivity. }
    destruct Em as [dm Em].
    rewrite (@intratec_out_ratio_self _ _ _ _ _ _ _ Em (KI dm Em) Eint Hi Ei).
    apply fdiv_same.
  - exfalso. apply Hsrc. unfold filt_none_of in Hr. apply in_merge_left in Hr.
    destruct Hr as [[m z] [Hm Hcase]]. apply in_map_iff in Hm.
    destruct Hm as [m' [E Hm']]. inversion E; subst m' z.
    apply filter_In in Hm'. destruct Hm' as [_ Hnull].
    assert (Es : reg_diff_source m = None)
      by (destruct (reg_diff_source m); [discriminate Hnull | reflexivity]).
    destruct Hcase as [->|[u [_ [_ ->]]]]; exact Es.
Qed.

(** In the sample, the rows of the reference region R12_NAM. *)
Example engine_sample_reference_rows :
  option_map
    (fun out =>
       map (fun r => (f_message_technology (at_row r),
                      option_map Qcanon.this (f_reg_cost_ratio (at_row r))))
           (filter (fun r => eqb (f_region (at_row r)) (Some "R12_NAM")) out))
    (match apply_regional_differentiation Samples.inputs Samples.config with
     | Ok out => Some out
     | Raise _ => None
     end)
  = Some [ ("gas_cc", Some (1 # 1)); ("h2_smr", Some (1 # 1));
           ("tech_a", Some (1 # 1)) ].
Proof. vm_compute. reflexivity. Qed.

End EngineFacts.

(** ** GDP ratios and the cost-ratio regression *)

Lemma unique_const {A} `{EqB A} (k : A) (l : list A) :
  (forall x, In x l -> x = k) -> l <> [] -> unique l = [k].
Proof.
  induction l as [|a l IH]; intros Hk Hne; [congruence|].
  cbn [unique]. rewrite (Hk a (or_introl eq_refl)). f_equal.
  apply filter_none. intros x Hx. apply (proj1 (unique_In _ _)) in Hx.
  rewrite (Hk x (or_intror Hx)), eqb_refl. reflexivity.
Qed.

(** A table whose rows share one key is a single group. *)
Lemma groupby_single_key {K R} `{EqB K} `{Ord K} (by_ : R -> K) (k : K)
    (df : list R) :
  (forall r, In r df -> by_ r = k) -> df <> [] -> groupby by_ df = [(k, df)].
Proof.
  intros Hk Hne. unfold groupby.
  rewrite (@unique_const _ _ k).
  - cbn. f_equal. f_equal. apply filter_all.
    intros r Hr. apply eqb_eq, Hk, Hr.
  - intros x Hx. apply in_map_iff in Hx. destruct Hx as [r [<- Hr]].
    apply Hk, Hr.
  - destruct df; [congruence | discriminate].
Qed.

Module RegressionFacts.

Import RegionalDifferentiation Gdp.
Local Open Scope Qc_scope.

Lemma two_eq : Q2Qc (Z.of_nat 2 # 1) = 1 + 1.
Proof. apply Qc_is_canon. reflexivity. Qed.

(** In exact arithmetic, the least-squares line through (1, 1) and (g, c)
    passes through both points. *)
Lemma linregress_two_points (g c : Qc) :
  g <> 1 ->
  exists s i,
    linregress [Some 1; Some g] [Some 1; Some c] = Ok (Some s, Some i)
    /\ i + s * 1 = 1 /\ i + s * g = c.
Proof.
  intros Hg.
  unfold linregress.
  cbn [forallb isnull negb andb dropna all_equal List.length Nat.ltb Nat.leb].
  assert (E1 : eqb 1 g = false) by (apply eqb_neq; congruence).
  rewrite E1. cbn [andb].
  unfold mean. cbn [map combine fold_right List.length fst snd].
  rewrite two_eq.
  set (xm := (1 + (g + 0)) / (1 + 1)).
  set (ym := (1 + (c + 0)) / (1 + 1)).
  set (ssxm := ((1 - xm) * (1 - xm) + ((g - xm) * (g - xm) + 0)) / (1 + 1)).
  set (ssxym := ((1 - xm) * (1 - ym) + ((g - xm) * (c - ym) + 0)) / (1 + 1)).
  assert (Hd : g - 1 <> 0).
  { intros E. apply Hg. rewrite <- (Qcplus_0_l 1), <- E. ring. }
  assert (Hss : ssxm = (g - 1) * (g - 1) / ((1 + 1) * (1 + 1))).
  { unfold ssxm, xm. field. qc_side. }
  assert (Hnz : ssxm <> 0).
  { rewrite Hss. intros E.
    assert (E' : (g - 1) * (g - 1) = 0).
    { transitivity
        ((g - 1) * (g - 1) / ((1 + 1) * (1 + 1)) * ((1 + 1) * (1 + 1))).
      - field. qc_side.
      - rewrite E. ring. }
    apply Qcmult_integral in E'. tauto. }
  unfold fdiv.
  assert (Eb : Qc_eq_bool ssxm 0 = false).
  { destruct (Qc_eq_bool ssxm 0) eqn:E;
      [apply Qc_eq_bool_eq in E; contradiction | reflexivity]. }
  rewrite Eb. cbn [fmul option_map fadd].
  eexists. eexists. split; [reflexivity|].
  assert (Hs : ssxym / ssxm = (c - 1) / (g - 1)).
  { rewrite Hss. unfold ssxym, xm, ym. field. qc_side. }
  rewrite Hs. unfold ym, xm. split; field; qc_side.
Qed.

(** C2, amended: for a group that is one row of a region other than the
    reference region, the regression runs on exactly two points, the
    identity point (1, 1) and the row's pair of GDP ratio and cost ratio, in
    this order; the slope and intercept of the group are the ones
    [linregress] returns for these two points; and it does return them when
    the GDP ratio is a number other than 1.  Nothing is said of the
    residual: the code computes the coefficients in binary64. *)
Theorem two_point_regression (ref : string) (r : gdp_cost_row) :
  gc_region r <> ref ->
  map (fun p => (gc_gdp_ratio_reg_to_reference p, gc_reg_cost_ratio p))
      (regression_rows [r])
    = [(Some 1, Some 1);
       (gc_gdp_ratio_reg_to_reference r, gc_reg_cost_ratio r)]
  /\ indiv_regress_tech_cost_ratio_vs_gdp_ratio (Some ref) [r]
     = bind (linregress [Some 1; gc_gdp_ratio_reg_to_reference r]
                        [Some 1; gc_reg_cost_ratio r])
            (fun fit =>
               Ok [mk_reg_row (gc_scenario_version r) (gc_scenario r)
                              (gc_message_technology r) (gc_region r)
                              (fst fit) (snd fit)])
  /\ (forall g, gc_gdp_ratio_reg_to_reference r = Some g -> g <> 1 ->
      exists fit,
        linregress [Some 1; gc_gdp_ratio_reg_to_reference r]
                   [Some 1; gc_reg_cost_ratio r] = Ok fit).
Proof.
  intros Hreg. split; [reflexivity|]. split.
  - unfold indiv_regress_tech_cost_ratio_vs_gdp_ratio.
    apply eqb_neq in Hreg. rewrite Hreg.
    rewrite (@groupby_single_key _ _ _ _ group_of (group_of r)).
    + unfold group_of at 1. cbn [map sequence regression_rows List.app
        gc_gdp_ratio_reg_to_reference gc_reg_cost_ratio].
      destruct (linregress _ _) as [fit|e]; reflexivity.
    + intros x [<-|[<-|[]]]; reflexivity.
    + discriminate.
  - intros g Eg Hg. rewrite Eg. unfold linregress.
    cbn [forallb isnull negb andb dropna all_equal].
    assert (E1 : eqb 1 g = false) by (apply eqb_neq; congruence).
    rewrite E1. cbn [andb].
    destruct (gc_reg_cost_ratio r); eexists; reflexivity.
Qed.

End RegressionFacts.

Module RegressionWitness.

Import Gdp RegressionFacts Samples.
Import PrimFloat.

Definition row_chn : gdp_cost_row :=
  mk_gdp_cost_row "SSP2 v9" "SSP2" "R12_CHN" (Some (Q2Qc (2 # 3)))
                  "coal_ppl" (Some (Q2Qc (3 # 5))).

(** A second row of the same technology and region, with another cost
    ratio. *)
Definition row_chn_again : gdp_cost_row :=
  mk_gdp_cost_row "SSP2 v9" "SSP2" "R12_CHN" (Some (Q2Qc (2 # 3)))
                  "coal_ppl" (Some (Q2Qc (4 # 5))).

Lemma two_point_regression_witness :
  map (fun p => (gc_gdp_ratio_reg_to_reference p, gc_reg_cost_ratio p))
      (regression_rows [row_chn])
    = [(Some 1%Qc, Some 1%Qc);
       (gc_gdp_ratio_reg_to_reference row_chn, gc_reg_cost_ratio row_chn)]
  /\ indiv_regress_tech_cost_ratio_vs_gdp_ratio (Some "R12_NAM") [row_chn]
     = bind (linregress [Some 1%Qc; gc_gdp_ratio_reg_to_reference row_chn]
                        [Some 1%Qc; gc_reg_cost_ratio row_chn])
            (fun fit =>
               Ok [mk_reg_row (gc_scenario_version row_chn)
                              (gc_scenario row_chn)
                              (gc_message_technology row_chn)
                              (gc_region row_chn)
                              (fst fit) (snd fit)])
  /\ exists fit,
       linregress [Some 1%Qc; gc_gdp_ratio_reg_to_reference row_chn]
                  [Some 1%Qc; gc_reg_cost_ratio row_chn] = Ok fit.
Proof.
  destruct (@two_point_regression "R12_NAM" row_chn) as [H1 [H2 H3]].
  - discriminate.
  - split; [exact H1|]. split; [exact H2|].
    apply (H3 (Q2Qc (2 # 3))); [reflexivity | qc_const_neq].
Defined.

(** C2 as stated fails twice.  In binary64 the fit of two points is not
    exact: for the GDP ratio 2/3 and the cost ratio 0.6 the regression
    returns slope 1.2 and intercept -0.19999999999999984, and
    [intercept + slope * g] is 0.6000000000000001, not 0.6.  And a group
    need not be one row: for two rows of the same technology and region,
    with cost ratios 3/5 and 4/5, the regression runs on four points and
    the line goes through neither observed pair, in exact arithmetic too. *)
Lemma two_point_regression_is_not_exact :
  (exists s i : float,
      Float64.linregress
        [1; 2 / 3]%float [1; 3 / 5]%float = Ok (s, i) /\
      (i + s * (2 / 3))%float = 0x1.3333333333334p-1%float /\
      (3 / 5)%float = 0x1.3333333333333p-1%float /\
      (i + s * (2 / 3) =? 3 / 5)%float = false)
  /\
  (exists s i : Qc,
      indiv_regress_tech_cost_ratio_vs_gdp_ratio
        (Some "R12_NAM") [row_chn; row_chn_again]
      = Ok [mk_reg_row "SSP2 v9" "SSP2" "coal_ppl" "R12_CHN"
                       (Some s) (Some i)] /\
      (i + s * Q2Qc (2 # 3))%Qc <> Q2Qc (3 # 5) /\
      (i + s * Q2Qc (2 # 3))%Qc <> Q2Qc (4 # 5)).
Proof.
  split.
  - eexists. eexists. split; [vm_compute; reflexivity|].
    split; [vm_compute; reflexivity|].
    split; vm_compute; reflexivity.
  - eexists. eexists. split; [vm_compute; reflexivity|].
    split; intros E; apply (f_equal Qcanon.this) in E; vm_compute in E;
      discriminate E.
Qed.

End RegressionWitness.

Module GdpFacts.

Import Gdp.

Lemma fold_min_spec (y : Z) (t : list Z) :
  In (fold_right Z.min y t) (y :: t) /\
  forall x, In x (y :: t) -> (fold_right Z.min y t <= x)%Z.
Proof.
  induction t as [|a t [IHin IHle]]; cbn [fold_right].
  - split; [left; reflexivity|]. intros x [<-|[]]. lia.
  - split.
    + destruct (Z.min_spec a (fold_right Z.min y t)) as [[_ E]|[_ E]];
        rewrite E.
      * right. left. reflexivity.
      * destruct IHin as [<-|Hin]; [left; reflexivity | right; right; exact Hin].
    + intros x [<-|[<-|Hx]].
      * specialize (IHle y (or_introl eq_refl)). lia.
      * lia.
      * specialize (IHle x (or_intror Hx)). lia.
Qed.

(** The base-year block on a GDP table [df_gdp]: the configured year and
    no message if the table has it; else, if the table has a year, the
    earliest year of the table and one message naming both years. *)
Lemma resolve_base_year_cases (input_base_year : Z) (df_gdp : list gdp_row) :
  (In input_base_year (map year df_gdp) ->
   resolve_base_year input_base_year df_gdp = ([], Ok input_base_year))
  /\
  (~ In input_base_year (map year df_gdp) -> df_gdp <> [] ->
   exists base_year,
     resolve_base_year input_base_year df_gdp
       = ([BaseYearNotFound input_base_year base_year], Ok base_year)
     /\ In base_year (map year df_gdp)
     /\ forall y, In y (map year df_gdp) -> (base_year <= y)%Z).
Proof.
  unfold resolve_base_year. rewrite mem_unique. split.
  - intros Hin. apply mem_In in Hin. rewrite Hin. reflexivity.
  - intros Hout Hne. apply mem_not_In in Hout. rewrite Hout. cbn [negb].
    destruct (unique (map year df_gdp)) as [|y t] eqn:Eu.
    + destruct df_gdp as [|r df]; [congruence|]. discriminate.
    + exists (fold_right Z.min y t).
      destruct (fold_min_spec y t) as [Hin Hle]. rewrite <- Eu in Hin, Hle.
      split; [reflexivity|]. split.
      * apply unique_In. exact Hin.
      * intros x Hx. apply Hle, unique_In. exact Hx.
Qed.

(** What the validity check of the node prints. *)
Definition node_check (input_node : string) : list message :=
  if mem (upper input_node) ["R11"; "R12"; "R20"] then []
  else [PleaseSelectValidRegion].

(** The aggregated table [process_raw_ssp_data] builds from a node file. *)
Definition aggregated (nodes_data : list (string * list string))
    (ssp_data : list country_row) : list agg_row :=
  aggregate (regions_countries_of nodes_data) ssp_data.

(** C10: when the node file exists and the upper-cased reference region is
    not a region of the aggregated GDP table, [process_raw_ssp_data] prints
    the request for a valid reference region and returns [None]: it raises
    nothing and returns no table. *)
Theorem process_raw_ssp_data_returns_None
    (node_files : string -> option (list (string * list string)))
    (ssp_data : list country_row)
    (input_node : string) (input_ref_region : option string)
    (nodes_data : list (string * list string)) (ref : string) :
  node_files (upper input_node ++ ".yaml")%string = Some nodes_data ->
  default_ref_region input_node input_ref_region = Some ref ->
  ~ In (upper ref) (map ag_region (aggregated nodes_data ssp_data)) ->
  process_raw_ssp_data node_files ssp_data input_node input_ref_region
  = (node_check input_node ++
     [PleaseSelectValidReferenceRegion
        (unique (map ag_region (aggregated nodes_data ssp_data)))],
     Ok None).
Proof.
  intros Hfile Href Habs.
  unfold process_raw_ssp_data, open_node_file, node_check, aggregated in *.
  rewrite Hfile, Href.
  apply mem_not_In in Habs.
  destruct (mem (upper input_node) ["R11"; "R12"; "R20"]);
    cbn [negb io_bind ret print fst snd List.app];
    rewrite mem_unique, Habs; reflexivity.
Qed.

(** [process_raw_ssp_data] raises no ConfigurationError, whatever the node. *)
Lemma process_raw_ssp_data_no_ConfigurationError
    (node_files : string -> option (list (string * list string)))
    (ssp_data : list country_row)
    (input_node : string) (input_ref_region : option string) :
  outcome (process_raw_ssp_data node_files ssp_data input_node input_ref_region)
  <> Raise ConfigurationError.
Proof.
  unfold process_raw_ssp_data, open_node_file, outcome.
  destruct (mem (upper input_node) ["R11"; "R12"; "R20"]);
    destruct (node_files _); cbn;
    destruct (default_ref_region input_node input_ref_region); cbn;
    try discriminate;
    destruct (mem _ _); cbn; discriminate.
Qed.

End GdpFacts.

Module GdpSamples.

Import Gdp Samples.

(** Two node files: a codelist the function documents, and one it does
    not. *)
Definition node_files (name : string) : option (list (string * list string)) :=
  if eqb name "R12.yaml"
  then Some [ ("World", ["R12_NAM"; "R12_CHN"]);
              ("R12_NAM", ["USA"; "CAN"]);
              ("R12_CHN", ["CHN"]) ]
  else if eqb name "R14.yaml"
  then Some [ ("World", ["R14_NAM"; "R14_CHN"]);
              ("R14_NAM", ["USA"; "CAN"]);
              ("R14_CHN", ["CHN"]) ]
  else None.

Definition ssp_data : list country_row :=
  flat_map
    (fun yr =>
       [ mk_country_row "SSP2 v9" "USA" yr (Some (q 100)) (Some (q 30));
         mk_country_row "SSP2 v9" "CAN" yr (Some (q 50)) (Some (q 20));
         mk_country_row "SSP2 v9" "CHN" yr (Some (q 200)) (Some (q 100)) ])
    [2020%Z; 2030%Z].

(** A row with its numbers as fractions in lowest terms. *)
Definition view (r : gdp_row)
    : string * string * string * Z * option Q * option Q :=
  (scenario r, scenario_version r, region r, year r,
   option_map Qcanon.this (gdp_ppp_per_capita r),
   option_map Qcanon.this (gdp_ratio_reg_to_reference r)).

End GdpSamples.

Module GdpWitness.

Import Gdp GdpFacts GdpSamples.

Lemma process_raw_ssp_data_returns_None_witness :
  process_raw_ssp_data node_files ssp_data "r12" (Some "R12_XYZ")
  = ([PleaseSelectValidReferenceRegion ["R12_CHN"; "R12_NAM"]], Ok None).
Proof.
  apply (@process_raw_ssp_data_returns_None
           node_files ssp_data "r12" (Some "R12_XYZ")
           [ ("World", ["R12_NAM"; "R12_CHN"]);
             ("R12_NAM", ["USA"; "CAN"]);
             ("R12_CHN", ["CHN"]) ]
           "R12_XYZ").
  - reflexivity.
  - reflexivity.
  - simpl. intuition discriminate.
Defined.

(** C6, at an input where it fails: for the node "R14", which is not one of
    R11, R12 and R20, [process_raw_ssp_data] prints the request for a valid
    region and goes on: it reads the node file, aggregates, and returns the
    table of GDP ratios.  It raises nothing. *)
Theorem invalid_node_is_processed :
  printed (process_raw_ssp_data node_files ssp_data "R14" (Some "R14_NAM"))
    = [PleaseSelectValidRegion]
  /\ exists df,
       outcome (process_raw_ssp_data node_files ssp_data "R14" (Some "R14_NAM"))
         = Ok (Some df)
       /\ map view df
          = [ ("LED", "SSP2 v9", "R14_CHN", 2020%Z, Some (2 # 1), Some (2 # 3));
              ("LED", "SSP2 v9", "R14_CHN", 2030%Z, Some (2 # 1), Some (2 # 3));
              ("LED", "SSP2 v9", "R14_NAM", 2020%Z, Some (3 # 1), Some (1 # 1));
              ("LED", "SSP2 v9", "R14_NAM", 2030%Z, Some (3 # 1), Some (1 # 1));
              ("SSP2", "SSP2 v9", "R14_CHN", 2020%Z, Some (2 # 1), Some (2 # 3));
              ("SSP2", "SSP2 v9", "R14_CHN", 2030%Z, Some (2 # 1), Some (2 # 3));
              ("SSP2", "SSP2 v9", "R14_NAM", 2020%Z, Some (3 # 1), Some (1 # 1));
              ("SSP2", "SSP2 v9", "R14_NAM", 2030%Z, Some (3 # 1), Some (1 # 1)) ].
Proof.
  split; [reflexivity|].
  eexists. split; [reflexivity|]. vm_compute. reflexivity.
Qed.

End GdpWitness.

(** ** Converging investment costs *)

Module SplinesFacts.

Import Splines.

(** The learning-curve table has one cost per (scenario, technology, year). *)
Definition nam_keyed (nam_learning_df : list nam_learning_row) : Prop :=
  forall n1 n2, In n1 nam_learning_df -> In n2 nam_learning_df ->
    nl_scenario n1 = nl_scenario n2 ->
    nl_message_technology n1 = nl_message_technology n2 ->
    nl_year n1 = nl_year n2 ->
    nl_inv_cost_learning_NAM n1 = nl_inv_cost_learning_NAM n2.

(** From [from_year] on, the converging cost of a (scenario, technology,
    year) is the same in all rows, whatever their region. *)
Definition identical_across_regions (from_year : Z)
    (df : list learning_region_row) : Prop :=
  forall a b, In a df -> In b df ->
    scenario a = scenario b ->
    message_technology a = message_technology b ->
    year a = year b ->
    (from_year <= year a)%Z ->
    inv_cost_converge a = inv_cost_converge b.

(** After the first model year and from the convergence year on, the
    converging cost of a row is the learning-curve cost it was built from. *)
Lemma converged_cost_is_learning_cost
    (nam_learning_df : list nam_learning_row)
    (adj_cost_ratios_df : list adj_cost_ratio_row)
    (reg_diff_df : list reg_diff_row) (convergence_year_flag : Z)
    (a : learning_region_row) :
  In a (project_adjusted_inv_costs nam_learning_df adj_cost_ratios_df
          reg_diff_df convergence_year_flag) ->
  (FIRST_MODEL_YEAR < year a)%Z ->
  (convergence_year_flag <= year a)%Z ->
  exists n, In n nam_learning_df
            /\ nl_scenario n = scenario a
            /\ nl_message_technology n = message_technology a
            /\ nl_year n = year a
            /\ inv_cost_converge a = nl_inv_cost_learning_NAM n.
Proof.
  intros Ha Hfirst Hconv.
  unfold project_adjusted_inv_costs in Ha.
  apply in_merge in Ha. destruct Ha as [[n c] [d [Hl [_ [_ ->]]]]].
  apply in_merge in Hl. destruct Hl as [n' [c' [Hn [_ [_ E]]]]].
  inversion E; subst n' c'; clear E.
  cbn [fst snd year inv_cost_converge scenario message_technology] in *.
  exists n. repeat split; try assumption.
  unfold where_.
  destruct (nl_year n <=? FIRST_MODEL_YEAR)%Z eqn:E1; [apply Z.leb_le in E1; lia|].
  destruct (nl_year n <? convergence_year_flag)%Z eqn:E2;
    [apply Z.ltb_lt in E2; lia | reflexivity].
Qed.

(** C3, amended: in the table [project_adjusted_inv_costs] returns, for a
    (scenario, technology, year) with the year later than the first model
    year (2020) and not before the convergence year, [inv_cost_converge] is
    the same for all regions.  The learning-curve table holds one cost per
    (scenario, technology, year). *)
Theorem converged_cost_identical_across_regions
    (nam_learning_df : list nam_learning_row)
    (adj_cost_ratios_df : list adj_cost_ratio_row)
    (reg_diff_df : list reg_diff_row) (convergence_year_flag : Z) :
  nam_keyed nam_learning_df ->
  identical_across_regions
    (Z.max convergence_year_flag (FIRST_MODEL_YEAR + 1))
    (project_adjusted_inv_costs nam_learning_df adj_cost_ratios_df
       reg_diff_df convergence_year_flag).
Proof.
  intros K a b Ha Hb Es Et Ey Hy.
  assert (Hya : (FIRST_MODEL_YEAR < year a)%Z) by lia.
  assert (Hca : (convergence_year_flag <= year a)%Z) by lia.
  destruct (@converged_cost_is_learning_cost _ _ _ _ _ Ha Hya Hca)
    as [na [Hna [Esa [Eta [Eya ->]]]]].
  rewrite Ey in Hya, Hca.
  destruct (@converged_cost_is_learning_cost _ _ _ _ _ Hb Hya Hca)
    as [nb [Hnb [Esb [Etb [Eyb ->]]]]].
  apply K; congruence.
Qed.

End SplinesFacts.

Module SplinesSamples.

Import Splines Samples.

Definition nam_learning_df : list nam_learning_row :=
  [ mk_nam_learning_row "SSP2" "coal_ppl" "steam_coal_subcritical" 2020
                        (Some (q 1000));
    mk_nam_learning_row "SSP2" "coal_ppl" "steam_coal_subcritical" 2050
                        (Some (q 900)) ].

Definition adj_cost_ratios_df : list adj_cost_ratio_row :=
  flat_map
    (fun yr =>
       [ mk_adj_cost_ratio_row "Review (2023)" "SSP2" "steam_coal_subcritical"
                               "R12_NAM" yr (Some (q 1));
         mk_adj_cost_ratio_row "Review (2023)" "SSP2" "steam_coal_subcritical"
                               "R12_CHN" yr (Some (Q2Qc (9 # 10))) ])
    [2020%Z; 2050%Z].

Definition reg_diff_df : list reg_diff_row :=
  [ mk_reg_diff_row "inv_cost" "coal_ppl" "steam_coal_subcritical"
                    "United States" "R12_NAM"
                    (Some (q 1000)) (Some (q 1)) (Some (q 1000));
    mk_reg_diff_row "inv_cost" "coal_ppl" "steam_coal_subcritical"
                    "China" "R12_CHN"
                    (Some (q 800)) (Some (Q2Qc (4 # 5))) (Some (q 1000)) ].

End SplinesSamples.

Module SplinesWitness.

Import Splines SplinesFacts SplinesSamples Samples.

Lemma samples_nam_keyed : nam_keyed nam_learning_df.
Proof.
  intros n1 n2 H1 H2.
  simpl in H1, H2.
  repeat (destruct H1 as [<-|H1]; [|]); try contradiction;
    repeat (destruct H2 as [<-|H2]; [|]); try contradiction;
    simpl; intros; try reflexivity; discriminate.
Qed.

Lemma converged_cost_identical_across_regions_witness :
  identical_across_regions
    (Z.max 2050 (FIRST_MODEL_YEAR + 1))
    (project_adjusted_inv_costs nam_learning_df adj_cost_ratios_df
       reg_diff_df 2050).
Proof.
  apply (@converged_cost_identical_across_regions
           nam_learning_df adj_cost_ratios_df reg_diff_df 2050).
  exact samples_nam_keyed.
Defined.

(** C3 as stated fails when the convergence year is not after the first
    model year: with convergence year 2020, the rows of 2020 keep the
    regional cost of the reference year, 1000 in one region and 800 in the
    other. *)
Lemma converge_claim_fails_at_first_model_year :
  nam_keyed nam_learning_df /\
  ~ identical_across_regions 2020
      (project_adjusted_inv_costs nam_learning_df adj_cost_ratios_df
         reg_diff_df 2020).
Proof.
  split; [exact samples_nam_keyed|].
  intros Hclaim.
  specialize
    (Hclaim
       (mk_learning_region_row "Review (2023)" "SSP2" "coal_ppl"
          "steam_coal_subcritical" "R12_NAM" 2020
          (Some (q 1000)) (Some (q 1000)) (Some (q 1000)))
       (mk_learning_region_row "Review (2023)" "SSP2" "coal_ppl"
          "steam_coal_subcritical" "R12_CHN" 2020
          (Some (q 800)) (Some (q 800)) (Some (q 800)))).
  cbn [inv_cost_converge scenario message_technology year] in Hclaim.
  assert (E : Some (q 1000) = Some (q 800)).
  { apply Hclaim; try reflexivity.
    - left. reflexivity.
    - right. left. reflexivity. }
  apply (f_equal (option_map Qcanon.this)) in E.
  vm_compute in E. discriminate.
Qed.

End SplinesWitness.

(** ** Scenario URL files *)

Module ClickFacts.

Import Click.
Local Open Scope string_scope.

(** The line terminator as a text. *)
Definition nl : string := String newline EmptyString.

(** The character [c] does not occur in [s]. *)
Definition lacks (c : ascii) (s : string) : Prop :=
  all_chars (fun a => negb (Ascii.eqb a c)) s = true.

Lemma append_assoc (a b c : string) : (a ++ b) ++ c = a ++ (b ++ c).
Proof.
  induction a as [|x a IH]; simpl; [reflexivity | rewrite IH; reflexivity].
Qed.

Lemma append_empty_r (s : string) : s ++ "" = s.
Proof. induction s; simpl; congruence. Qed.

Lemma all_chars_append (p : ascii -> bool) (a b : string) :
  all_chars p (a ++ b) = all_chars p a && all_chars p b.
Proof.
  induction a as [|x a IH]; cbn [append all_chars]; [reflexivity|].
  rewrite IH, andb_assoc. reflexivity.
Qed.

Lemma all_chars_impl (p p' : ascii -> bool) (s : string) :
  (forall c, p c = true -> p' c = true) ->
  all_chars p s = true -> all_chars p' s = true.
Proof.
  intros Hp. induction s as [|c t IH]; cbn [all_chars]; [reflexivity|].
  intros H. apply andb_true_iff in H. destruct H as [Hc Ht].
  rewrite (Hp c Hc), (IH Ht). reflexivity.
Qed.

Lemma lacks_append (c : ascii) (a b : string) :
  lacks c a -> lacks c b -> lacks c (a ++ b).
Proof.
  unfold lacks. intros Ha Hb. rewrite all_chars_append, Ha, Hb. reflexivity.
Qed.

Lemma lacks_cons (c a : ascii) (s : string) :
  Ascii.eqb a c = false -> lacks c s -> lacks c (String a s).
Proof.
  unfold lacks. intros Ha Hs. cbn [all_chars]. rewrite Ha, Hs. reflexivity.
Qed.

Lemma is_name_lacks (s : string) :
  is_name s = true ->
  lacks slash s /\ lacks hash s /\ lacks newline s /\ lacks carriage_return s.
Proof.
  unfold is_name, lacks. intros H.
  repeat split; revert H; apply all_chars_impl; intros c Hc;
    apply negb_true_iff in Hc;
    repeat (apply orb_false_iff in Hc; destruct Hc as [Hc ?]);
    apply negb_true_iff; assumption.
Qed.

Lemma digit_char (c : ascii) (d : option uint) :
  is_digit c = true ->
  exists k, uint_of_char c d = option_map k d /\
            (forall u, NilEmpty.string_of_uint (k u)
                       = String c (NilEmpty.string_of_uint u)) /\
            (c <> "0"%char -> forall u, unorm (k u) = k u) /\
            (c = "0"%char -> unorm (k Nil) = k Nil).
Proof.
  intros H.
  destruct c as [b0 b1 b2 b3 b4 b5 b6 b7].
  destruct b0, b1, b2, b3, b4, b5, b6, b7; try discriminate H.
  all: eexists; split; [destruct d; reflexivity|]; split; [reflexivity|].
  all: split; [try (intros _ u; reflexivity) | try (intros _; reflexivity)].
  all: try (intros N; exfalso; apply N; reflexivity).
  all: intros E; discriminate E.
Qed.

Lemma is_digit_lacks (s : string) :
  all_chars is_digit s = true -> lacks newline s /\ lacks carriage_return s.
Proof.
  unfold lacks. intros H.
  split; revert H; apply all_chars_impl; intros c Hc;
    destruct c as [b0 b1 b2 b3 b4 b5 b6 b7];
    destruct b0, b1, b2, b3, b4, b5, b6, b7; try discriminate Hc; reflexivity.
Qed.

Lemma digits_parse (s : string) :
  all_chars is_digit s = true ->
  exists d, NilEmpty.uint_of_string s = Some d.
Proof.
  induction s as [|c t IH]; cbn [all_chars]; intros H.
  - exists Nil. reflexivity.
  - apply andb_true_iff in H. destruct H as [Hc Ht].
    destruct (IH Ht) as [d' Hd'].
    destruct (@digit_char c (Some d') Hc) as [k [Hk _]].
    exists (k d'). cbn [NilEmpty.uint_of_string]. rewrite Hd'. exact Hk.
Qed.

(** A version number is read as a number that is written the same way. *)
Lemma version_parse (v : string) :
  is_version v = true ->
  exists d, NilEmpty.uint_of_string v = Some d
            /\ NilEmpty.string_of_uint (N.to_uint (N.of_uint d)) = v
            /\ v <> EmptyString.
Proof.
  destruct v as [|c t]; [discriminate|].
  unfold is_version. intros H. apply andb_true_iff in H. destruct H as [Hd Hz].
  cbn [all_chars] in Hd.
  apply andb_true_iff in Hd. destruct Hd as [Hc Ht].
  destruct (@digits_parse t Ht) as [d' Hd'].
  destruct (@digit_char c (Some d') Hc) as [k [Hk [Hstr [Hnorm Hzero]]]].
  exists (k d'). split; [|split; [|discriminate]].
  - cbn [NilEmpty.uint_of_string]. rewrite Hd'. exact Hk.
  - rewrite DecimalN.Unsigned.to_of.
    assert (Hu : unorm (k d') = k d').
    { destruct (ascii_dec c "0"%char) as [E|Hc0].
      - rewrite E in Hz. cbn in Hz. apply String.eqb_eq in Hz. subst t.
        cbn in Hd'. inversion Hd'; subst d'. apply Hzero. exact E.
      - apply Hnorm. exact Hc0. }
    rewrite Hu, Hstr. f_equal. apply NilEmpty.sus. exact Hd'.
Qed.

Lemma chomp_cons (a : ascii) (t : string) :
  t <> EmptyString -> chomp (String a t) = String a (chomp t).
Proof. destruct t; [congruence | reflexivity]. Qed.

Lemma chomp_newline (x : string) : chomp (x ++ nl) = x.
Proof.
  induction x as [|a t IH].
  - reflexivity.
  - cbn [append]. rewrite chomp_cons, IH; [reflexivity|].
    destruct t; discriminate.
Qed.

Lemma split_at_lacks (c : ascii) (x y : string) :
  lacks c x ->
  split_at c (x ++ y) =
  match split_at c y with
  | Some (p, q) => Some (x ++ p, q)
  | None => None
  end.
Proof.
  unfold lacks. induction x as [|a t IH]; intros Hx.
  - simpl. destruct (split_at c y) as [[p q]|]; reflexivity.
  - cbn [all_chars] in Hx. apply andb_true_iff in Hx. destruct Hx as [Ha Ht].
    apply negb_true_iff in Ha. cbn [append split_at].
    rewrite Ha, IH by exact Ht.
    destruct (split_at c y) as [[p q]|]; reflexivity.
Qed.

Lemma split_at_first (c : ascii) (x y : string) :
  lacks c x -> split_at c (x ++ String c y) = Some (x, y).
Proof.
  intros Hx. rewrite split_at_lacks by exact Hx.
  cbn [split_at]. rewrite Ascii.eqb_refl, append_empty_r. reflexivity.
Qed.

(** A well-formed line is its body and the terminator; the body has no
    line break in it. *)
Lemma well_formed_line_body (l : string) :
  well_formed_line l ->
  exists body, l = body ++ nl /\ lacks newline body
               /\ lacks carriage_return body.
Proof.
  intros [m s v Hm Hs Hv].
  destruct (@is_name_lacks m Hm) as [_ [_ [Hm3 Hm4]]].
  destruct (@is_name_lacks s Hs) as [_ [_ [Hs3 Hs4]]].
  assert (Hd : all_chars is_digit v = true).
  { destruct v as [|c t]; [discriminate|]. unfold is_version in Hv.
    apply andb_true_iff in Hv. tauto. }
  destruct (@is_digit_lacks v Hd) as [Hv3 Hv4].
  exists (m ++ String slash (s ++ String hash v)). split; [|split].
  - unfold nl. repeat (rewrite append_assoc || cbn [append]). reflexivity.
  - repeat (apply lacks_append || apply lacks_cons); auto.
  - repeat (apply lacks_append || apply lacks_cons); auto.
Qed.

Lemma from_url_line (l : string) :
  well_formed_line l ->
  exists si, from_url l = Ok si /\ url si ++ nl = l.
Proof.
  intros [m s v Hm Hs Hv].
  destruct (@is_name_lacks m Hm) as [Hm1 [Hm2 _]].
  destruct (@is_name_lacks s Hs) as [_ [Hs2 _]].
  destruct (@version_parse v Hv) as [d [Hd [Hprint Hne]]].
  exists (mk_ScenarioInfo m s (Some (N.of_uint d))). split.
  - unfold from_url.
    replace (m ++ String slash (s ++ String hash (v ++ String newline "")))
      with ((m ++ String slash (s ++ String hash v)) ++ nl).
    2:{ unfold nl. repeat (rewrite append_assoc || cbn [append]).
        reflexivity. }
    rewrite chomp_newline.
    rewrite split_at_lacks by exact Hm2.
    cbn [split_at]. replace (Ascii.eqb slash hash) with false by reflexivity.
    rewrite split_at_first by exact Hs2.
    rewrite split_at_first by exact Hm1.
    destruct v as [|c t]; [congruence|]. rewrite Hd. reflexivity.
  - unfold url. cbn [model scenario version]. rewrite Hprint.
    unfold nl. repeat (rewrite append_assoc || cbn [append]). reflexivity.
Qed.

Lemma universal_newlines_lacks (a b : string) :
  lacks carriage_return a ->
  universal_newlines (a ++ b) = a ++ universal_newlines b.
Proof.
  unfold lacks. induction a as [|c t IH]; intros Ha; [reflexivity|].
  cbn [all_chars] in Ha. apply andb_true_iff in Ha. destruct Ha as [Hc Ht].
  apply negb_true_iff in Hc. cbn [append universal_newlines].
  rewrite Hc, (IH Ht). reflexivity.
Qed.

Lemma split_lines_first (body rest : string) :
  lacks newline body ->
  split_lines ((body ++ nl) ++ rest) = (body ++ nl) :: split_lines rest.
Proof.
  unfold lacks. induction body as [|c t IH]; intros Hb.
  - cbn. reflexivity.
  - cbn [all_chars] in Hb. apply andb_true_iff in Hb. destruct Hb as [Hc Ht].
    apply negb_true_iff in Hc. cbn [append split_lines].
    rewrite Hc, (IH Ht). reflexivity.
Qed.

(** The lines read from a well-formed file are well formed, and are the
    file. *)
Lemma readlines_well_formed (content : string) :
  well_formed_file content ->
  Forall well_formed_line (readlines content)
  /\ join_lines (readlines content) = content.
Proof.
  unfold readlines. induction 1 as [|l rest Hl _ [IHwf IHjoin]].
  - split; [constructor | reflexivity].
  - destruct (@well_formed_line_body l Hl) as [body [El [Hlf Hcr]]].
    assert (Hcr' : lacks carriage_return l).
    { rewrite El. apply lacks_append; [exact Hcr | reflexivity]. }
    rewrite universal_newlines_lacks by exact Hcr'.
    rewrite El, split_lines_first by exact Hlf. rewrite <- El.
    split; [constructor; assumption|].
    change (join_lines (l :: split_lines (universal_newlines rest)))
      with (l ++ join_lines (split_lines (universal_newlines rest))).
    rewrite IHjoin. reflexivity.
Qed.

Lemma parse_lines (ls : list string) :
  Forall well_formed_line ls ->
  exists si, sequence (map from_url ls) = Ok si
             /\ to_lines si = join_lines ls.
Proof.
  induction 1 as [|l ls Hl _ [si [Hsi Hto]]].
  - exists []. split; reflexivity.
  - destruct (@from_url_line l Hl) as [s [Hs Hurl]].
    exists (s :: si). split.
    + cbn [map sequence]. rewrite Hs. cbn [bind]. rewrite Hsi. reflexivity.
    + change (to_lines (s :: si)) with ((url s ++ nl) ++ to_lines si).
      change (join_lines (l :: ls)) with (l ++ join_lines ls).
      rewrite Hurl, Hto. reflexivity.
Qed.

(** C5: for a well-formed file, lines [<model>/<scenario>#<version>] each
    with its line terminator, the callback [urls_from_file] returns the list
    of records (and leaves it on the context), and writing each record back
    as its URL line gives the content of the file again, character for
    character. *)
Theorem urls_from_file_round_trip
    (open_file : string -> option string) (context : Context)
    (path content : string) :
  open_file path = Some content ->
  well_formed_file content ->
  exists si,
    urls_from_file open_file context (Some path) = Ok (mk_Context si, si)
    /\ to_lines si = content.
Proof.
  intros Hopen Hwf. unfold urls_from_file. rewrite Hopen.
  destruct (@readlines_well_formed content Hwf) as [Hlines Hjoin].
  destruct (@parse_lines (readlines content) Hlines) as [si [Hsi Hto]].
  exists si. rewrite Hsi. split; [reflexivity|].
  rewrite Hto. exact Hjoin.
Qed.

(** What the test prints, the URLs joined by line breaks and a final line
    break, is the same text when there is at least one record. *)
Lemma print_joined_urls (s : ScenarioInfo) (si : list ScenarioInfo) :
  String.concat nl (map url (s :: si)) ++ nl = to_lines (s :: si).
Proof.
  revert s. induction si as [|s' si IH]; intros s.
  - cbn. rewrite append_assoc. reflexivity.
  - change (to_lines (s :: s' :: si))
      with ((url s ++ nl) ++ to_lines (s' :: si)).
    rewrite <- IH. cbn [map String.concat].
    repeat (rewrite append_assoc || cbn [append]). reflexivity.
Qed.

End ClickFacts.

Module ClickWitness.

Import Click ClickFacts.
Local Open Scope string_scope.

(** The file of the test: three URLs. *)
Definition content : string :=
  "m/s#3" ++ nl ++ "foo/bar#5" ++ nl ++ "baz/qux#123" ++ nl.

Definition open_file (path : string) : option string :=
  if eqb path "scenarios.txt" then Some content else None.

Lemma content_well_formed : well_formed_file content.
Proof.
  apply (wf_more (wf_line "m" "s" "3" eq_refl eq_refl eq_refl)).
  apply (wf_more (wf_line "foo" "bar" "5" eq_refl eq_refl eq_refl)).
  apply (wf_more (wf_line "baz" "qux" "123" eq_refl eq_refl eq_refl)).
  apply wf_end.
Qed.

Lemma urls_from_file_round_trip_witness :
  exists si,
    urls_from_file open_file (mk_Context []) (Some "scenarios.txt")
      = Ok (mk_Context si, si)
    /\ to_lines si = content.
Proof.
  apply (@urls_from_file_round_trip open_file (mk_Context [])
           "scenarios.txt" content).
  - reflexivity.
  - exact content_well_formed.
Defined.

(** The records of the test file. *)
Example urls_from_file_test :
  urls_from_file open_file (mk_Context []) (Some "scenarios.txt")
  = Ok (mk_Context [ mk_ScenarioInfo "m" "s" (Some 3%N);
                     mk_ScenarioInfo "foo" "bar" (Some 5%N);
                     mk_ScenarioInfo "baz" "qux" (Some 123%N) ],
        [ mk_ScenarioInfo "m" "s" (Some 3%N);
          mk_ScenarioInfo "foo" "bar" (Some 5%N);
          mk_ScenarioInfo "baz" "qux" (Some 123%N) ]).
Proof. reflexivity. Qed.

(** A version written with a leading zero is not well formed, and does not
    come back as it was. *)
Example leading_zero_not_round_tripped :
  option_map url
    (match from_url ("m/s#03" ++ nl) with Ok si => Some si | Raise _ => None end)
  = Some "m/s#3".
Proof. reflexivity. Qed.

End ClickWitness.

(** * Further properties of the code *)

(** ** The WEO reader: what imputation leaves behind *)

Module WeoImputationFacts.

Import RegionalDifferentiation.
Local Open Scope Qc_scope.

Lemma sort_by_length {A} (le : A -> A -> bool) (l : list A) :
  List.length (sort_by le l) = List.length l.
Proof. apply Permutation_length, sort_by_perm. Qed.

Lemma In_dropna {A} (a : A) (col : list (option A)) :
  In a (dropna col) <-> In (Some a) col.
Proof.
  induction col as [|[x|] col IH]; cbn [dropna In].
  - tauto.
  - rewrite IH. split; intros [E|H]; auto; left; congruence.
  - rewrite IH. split; [auto | intros [E|H]; [discriminate | exact H]].
Qed.

(** Only the empty list has no median. *)
Lemma median_of_None (l : list Qc) : median_of l = None -> l = [].
Proof.
  unfold median_of. unfold sort_values. rewrite sort_by_length.
  destruct l as [|a l]; [reflexivity|].
  cbn [List.length]. destruct (Nat.even (S (List.length l))); discriminate.
Qed.

Lemma mean_between (x y : Qc) :
  x <= y -> x <= (x + y) / two /\ (x + y) / two <= y.
Proof.
  intros Hxy.
  assert (Hh : 0 <= / two).
  { unfold Qcle. vm_compute. discriminate. }
  assert (Hd : 0 <= y + - x) by (apply (proj1 (Qcle_minus_iff x y)); exact Hxy).
  pose proof (Qcmult_le_compat_r _ _ _ Hd Hh) as Hm.
  rewrite Qcmult_0_l in Hm.
  assert (E2 : two = 1 + 1) by (apply Qc_is_canon; reflexivity).
  split; apply (proj2 (Qcle_minus_iff _ _)).
  - replace ((x + y) / two + - x) with ((y + - x) * / two); [exact Hm|].
    rewrite E2. field. qc_side.
  - replace (y + - ((x + y) / two)) with ((y + - x) * / two); [exact Hm|].
    rewrite E2. field. qc_side.
Qed.

(** A median lies between two of the values. *)
Lemma median_of_bounds (l : list Qc) (m : Qc) :
  median_of l = Some m ->
  exists a b, In a l /\ In b l /\ a <= m /\ m <= b.
Proof.
  unfold median_of, sort_values.
  set (s := sort_by leb l). set (n := List.length s).
  assert (Hin : forall i, (i < n)%nat -> In (nth i s 0) l).
  { intros i Hi. apply (Permutation_in _ (sort_by_perm leb l)).
    apply nth_In. exact Hi. }
  set (x := nth (n / 2 - 1) s 0). set (y := nth (n / 2) s 0).
  assert (Hxy : (0 < n)%nat -> In x l /\ In y l).
  { intros Hn. split; apply Hin; [|apply Nat.div_lt; lia].
    assert ((n / 2 < n)%nat) by (apply Nat.div_lt; lia). lia. }
  clearbody x y n.
  destruct n as [|k]; [discriminate|].
  destruct (Hxy (Nat.lt_0_succ k)) as [Hx Hy].
  destruct (Nat.even (S k)); intros E; injection E as <-.
  - destruct (Qclt_le_dec y x) as [Hlt|Hle].
    + apply Qclt_le_weak in Hlt.
      destruct (mean_between Hlt) as [Ha Hb].
      rewrite (Qcplus_comm x y).
      exists y, x. repeat split; assumption.
    + destruct (mean_between Hle) as [Ha Hb].
      exists x, y. repeat split; assumption.
  - exists y, y. repeat split; try apply Qcle_refl; assumption.
Qed.

(** The rows of the group of [r] in [df]. *)
Definition same_group (r r' : weo_row) : Prop :=
  weo_technology r' = weo_technology r /\ cost_type r' = cost_type r.

Lemma group_filter (df : list weo_row) (r r' : weo_row) :
  In r' (filter (fun r0 => eqb (group_key r0) (group_key r)) df) <->
  In r' df /\ same_group r r'.
Proof.
  rewrite filter_In, eqb_eq. unfold group_key, same_group.
  split; intros [H E]; split; auto; [inversion E; auto | destruct E; congruence].
Qed.

(** X1: in the table [get_weo_data] returns, a value is a number whenever
    some row of the same (technology, cost type) group had a number in the
    workbook: a value stays missing only if its whole group is missing. *)
Theorem get_weo_data_fills_known_groups
    (read_excel : string -> nat -> string -> list sheet_row)
    (conversion_factor : Qc) (r' r : weo_row) (v : Qc) :
  In r' (get_weo_data read_excel conversion_factor) ->
  In r (all_cost_df read_excel conversion_factor) ->
  same_group r' r ->
  value r = Some v ->
  exists v', value r' = Some v'.
Proof.
  intros Hout Hr Hg Hv. unfold get_weo_data in Hout.
  destruct (WeoDataFacts.in_impute _ _ Hout) as [r0 [Hr0 ->]].
  cbn [value set_value]. unfold where_.
  destruct (value r0) as [v0|] eqn:E0; cbn [isnull]; [exists v0; reflexivity|].
  destruct (median _) as [m|] eqn:Em; [exists m; reflexivity|].
  exfalso. unfold median in Em. apply median_of_None in Em.
  assert (Hin : In v (dropna
                        (map value
                             (filter (fun x => eqb (group_key x) (group_key r0))
                                     (all_cost_df read_excel conversion_factor))))).
  { apply In_dropna. rewrite <- Hv. apply in_map. apply group_filter.
    split; [exact Hr|]. exact Hg. }
  rewrite Em in Hin. destruct Hin.
Qed.

(** X2: every number in the table [get_weo_data] returns lies between two
    numbers that rows of the same (technology, cost type) group had in the
    table read from the workbook: imputation invents no value outside the
    range of its group. *)
Theorem get_weo_data_within_group_range
    (read_excel : string -> nat -> string -> list sheet_row)
    (conversion_factor : Qc) (r' : weo_row) (m : Qc) :
  In r' (get_weo_data read_excel conversion_factor) ->
  value r' = Some m ->
  exists a b va vb,
    In a (all_cost_df read_excel conversion_factor) /\ same_group r' a /\
    In b (all_cost_df read_excel conversion_factor) /\ same_group r' b /\
    value a = Some va /\ value b = Some vb /\ va <= m /\ m <= vb.
Proof.
  intros Hout Hm. unfold get_weo_data in Hout.
  destruct (WeoDataFacts.in_impute _ _ Hout) as [r0 [Hr0 ->]].
  cbn [value set_value] in Hm. unfold where_ in Hm.
  destruct (value r0) as [v0|] eqn:E0; cbn [isnull] in Hm.
  - inversion Hm; subst v0.
    exists r0, r0, m, m.
    repeat split; try assumption; apply Qcle_refl.
  - unfold median in Hm. apply median_of_bounds in Hm.
    destruct Hm as [va [vb [Ha [Hb [Hle Hge]]]]].
    apply In_dropna, in_map_iff in Ha. destruct Ha as [a [Eva Ha]].
    apply In_dropna, in_map_iff in Hb. destruct Hb as [b [Evb Hb]].
    apply group_filter in Ha, Hb.
    destruct Ha as [Ha Ga], Hb as [Hb Gb].
    exists a, b, va, vb. unfold same_group in *. cbn.
    repeat split; tauto.
Qed.

End WeoImputationFacts.

Module WeoImputationWitness.

Import RegionalDifferentiation WeoImputationFacts Samples.

Definition no_row : weo_row := mk_weo_row "" "" "" "" "" None.

(** The row of the United States for 2050, whose cell is "n.a.", after and
    before [get_weo_data] fills it; and the row for 2021. *)
Definition filled_row : weo_row :=
  nth 4 (get_weo_data read_excel conversion_factor) no_row.

Definition known_row : weo_row :=
  nth 0 (all_cost_df read_excel conversion_factor) no_row.

Lemma filled_row_in : In filled_row (get_weo_data read_excel conversion_factor).
Proof. apply nth_In. vm_compute. lia. Qed.

Lemma get_weo_data_fills_known_groups_witness :
  exists v', value filled_row = Some v'.
Proof.
  apply (@get_weo_data_fills_known_groups
           read_excel conversion_factor filled_row known_row (usd 2000)).
  - exact filled_row_in.
  - apply nth_In. vm_compute. lia.
  - split; reflexivity.
  - reflexivity.
Defined.

Lemma get_weo_data_within_group_range_witness :
  exists m,
    value filled_row = Some m /\
    exists a b va vb,
      In a (all_cost_df read_excel conversion_factor) /\ same_group filled_row a /\
      In b (all_cost_df read_excel conversion_factor) /\ same_group filled_row b /\
      value a = Some va /\ value b = Some vb /\ (va <= m)%Qc /\ (m <= vb)%Qc.
Proof.
  destruct (value filled_row) as [m|] eqn:E;
    [|vm_compute in E; discriminate E].
  exists m. split; [reflexivity|].
  apply (@get_weo_data_within_group_range
           read_excel conversion_factor filled_row m).
  - exact filled_row_in.
  - exact E.
Defined.

End WeoImputationWitness.

(** ** The regional differentiation engine: when it succeeds, what it returns *)

Module EngineOutcomeFacts.

Import RegionalDifferentiation RegionalDifferentiationFacts.
Import ReferenceRegionFacts.

(** The regions the Intratec branch knows for a node codelist: those of the
    data for R11, of the adapted data for R12, none otherwise. *)
Definition intratec_regions (inputs : Inputs) (config : Config)
    : option (list string) :=
  if eqb (upper (node config)) "R11"
  then Some (map it_node (get_intratec_data inputs))
  else if eqb (upper (node config)) "R12"
  then Some (map it_node (adapt_R11_R12 inputs (get_intratec_data inputs)))
  else None.

Definition known_module (config : Config) : Prop :=
  module_ config = "energy" \/ module_ config = "materials".

Lemma adjust_known (get_raw : string -> list tech_map_row) (module : string) :
  (exists df_map, adjust_technology_mapping get_raw module = Some df_map)
  <-> (module = "energy" \/ module = "materials").
Proof.
  unfold adjust_technology_mapping.
  destruct (eqb module "energy") eqn:E1; [apply eqb_eq in E1|apply eqb_neq in E1].
  - split; [auto | eauto].
  - destruct (eqb module "materials") eqn:E2;
      [apply eqb_eq in E2|apply eqb_neq in E2].
    + split; [auto | eauto].
    + split; [intros [m Hm]; discriminate | tauto].
Qed.

Lemma intratec_map_regions (inputs : Inputs) (config : Config) :
  match intratec_map_of inputs config with
  | Ok (Some m) => intratec_regions inputs config = Some (map im_region m)
  | Ok None =>
      intratec_regions inputs config = None /\
      upper (node config) <> "R20"
  | Raise e =>
      intratec_regions inputs config = None /\
      e = NotImplementedError /\ upper (node config) = "R20"
  end.
Proof.
  unfold intratec_map_of, df_intratec_map_of, intratec_regions, to_intratec_map.
  destruct (eqb (upper (node config)) "R11") eqn:E1.
  - rewrite map_map. reflexivity.
  - destruct (eqb (upper (node config)) "R12") eqn:E2.
    + rewrite map_map. reflexivity.
    + destruct (eqb (upper (node config)) "R20") eqn:E3.
      * apply eqb_eq in E3. auto.
      * apply eqb_neq in E3. auto.
Qed.

Lemma weo_ok_region (inputs : Inputs) (config : Config) (ref : string)
    (df : list weo_cost_ratio_row) :
  ref_region config = Some ref ->
  get_weo_regional_differentiation
    (read_excel inputs) (conversion_factor inputs)
    (get_weo_region_map inputs) config = Ok df ->
  In (upper ref) (weo_regions_of inputs config).
Proof.
  intros Eref.
  unfold get_weo_regional_differentiation, weo_regions_of, weo_regions.
  cbv zeta.
  destruct (get_weo_region_map inputs (node config)) as [|p rm];
    [intros H; discriminate|].
  rewrite Eref, mem_unique.
  destruct (mem (upper ref) _) eqn:Em; cbn [negb].
  - apply mem_In in Em. auto.
  - intros H; discriminate.
Qed.

Lemma intratec_ok_region (inputs : Inputs) (config : Config) (ref : string)
    (df : list intratec_ratio_row) :
  get_intratec_regional_differentiation
    (get_intratec_data inputs) (adapt_R11_R12 inputs)
    (node config) ref = Ok df ->
  exists regions, intratec_regions inputs config = Some regions
                  /\ In (upper ref) regions.
Proof.
  pose proof (intratec_map_regions inputs config) as Hm.
  unfold get_intratec_regional_differentiation.
  unfold intratec_map_of in Hm.
  destruct (df_intratec_map_of _ _ (node config)) as [[m|]|e]; cbn [bind].
  - rewrite mem_unique, Hm.
    destruct (mem (upper ref) (map im_region m)) eqn:Em; cbn [negb].
    + apply mem_In in Em. eauto.
    + intros H; discriminate.
  - intros H; discriminate.
  - intros H; discriminate.
Qed.

(** X3: when [apply_regional_differentiation] returns a table, the
    configuration has a reference region whose upper-case form is a region
    of the selected WEO table and of the Intratec table for the node
    codelist (which exists for R11 and R12 only), and the module is "energy"
    or "materials". *)
Theorem apply_regional_differentiation_succeeds_only_if
    (inputs : Inputs) (config : Config) (out : list all_tech_row) :
  apply_regional_differentiation inputs config = Ok out ->
  exists ref regions,
    ref_region config = Some ref /\
    In (upper ref) (weo_regions_of inputs config) /\
    intratec_regions inputs config = Some regions /\
    In (upper ref) regions /\
    known_module config.
Proof.
  unfold apply_regional_differentiation, known_module.
  pose proof (adjust_known (get_raw_technology_mapping inputs)
                           (module_ config)) as Hadj.
  destruct (ref_region config) as [ref|] eqn:Eref;
    [|intros H; discriminate].
  pose proof (@weo_ok_region inputs config ref) as Hweo.
  pose proof (@intratec_ok_region inputs config ref) as Hint.
  destruct (get_weo_regional_differentiation _ _ _ config) as [df_weo|e1];
    cbn [bind]; [|intros H; discriminate].
  destruct (get_intratec_regional_differentiation _ _ _ ref)
    as [df_intratec|e2]; cbn [bind]; [|intros H; discriminate].
  destruct (adjust_technology_mapping _ _) as [df_map|];
    [|intros H; discriminate].
  intros _.
  destruct (Hint _ eq_refl) as [regions [Er Hin]].
  exists ref, regions. repeat split; auto.
  - apply (Hweo df_weo); auto.
  - apply Hadj. eauto.
Qed.

End EngineOutcomeFacts.

Module EngineRowsFacts.

Import RegionalDifferentiation.

(** A row of the result belongs to a row of the mapping. *)
Definition from_mapping (m : tech_map_row) (r : filt_row) : Prop :=
  f_message_technology r = message_technology m /\
  f_reg_diff_source r = reg_diff_source m /\
  f_reg_diff_technology r = reg_diff_technology m.

(** The sources the engine has a branch for: "energy", "weo", "intratec",
    and none. *)
Definition has_branch (m : tech_map_row) : bool :=
  source_is "energy" m || source_is "weo" m || source_is "intratec" m ||
  isnull (reg_diff_source m).

(** What a successful run is made of. *)
Lemma apply_ok_inv (inputs : Inputs) (config : Config)
    (out : list all_tech_row) :
  apply_regional_differentiation inputs config = Ok out ->
  exists df_map df_weo df_intratec,
    adjust_technology_mapping (get_raw_technology_mapping inputs)
                              (module_ config) = Some df_map /\
    out = all_tech_of
            (filt_weo_of df_map df_weo)
            (filt_intratec_of df_map df_intratec)
            (filt_none_of df_map
                          (un_reg_of (filt_intratec_of df_map df_intratec))).
Proof.
  unfold apply_regional_differentiation. intros H.
  destruct (ref_region config) as [ref|]; [|discriminate].
  destruct (get_weo_regional_differentiation _ _ _ config) as [df_weo|];
    [|discriminate].
  destruct (get_intratec_regional_differentiation _ _ _ ref)
    as [df_intratec|]; [|discriminate].
  cbn [bind] in H.
  destruct (adjust_technology_mapping _ _) as [df_map|]; [|discriminate].
  inversion H. exists df_map, df_weo, df_intratec. auto.
Qed.

Lemma merge_left_covers {L R O} (on : L -> R -> bool)
    (mk : L -> option R -> O) (left : list L) (right : list R) (a : L) :
  In a left ->
  exists b, In (mk a b) (merge_left on mk left right).
Proof.
  intros Ha. unfold merge_left.
  destruct (filter (on a) right) as [|r rs] eqn:E.
  - exists None. apply in_flat_map. exists a. split; [exact Ha|].
    rewrite E. left. reflexivity.
  - exists (Some r). apply in_flat_map. exists a. split; [exact Ha|].
    rewrite E. left. reflexivity.
Qed.

(** Where the rows of the three tables come from. *)
Lemma filt_weo_origin (df_map : list tech_map_row)
    (df_weo : list weo_cost_ratio_row) (r : filt_row) :
  In r (filt_weo_of df_map df_weo) ->
  exists m, In m df_map /\ from_mapping m r /\
            (source_is "energy" m || source_is "weo" m) = true /\
            (forall b, base_year_reference_region_cost m = Some b ->
                       f_base_year_reference_region_cost r = Some b).
Proof.
  unfold filt_weo_of. intros Hr. apply in_merge_left in Hr.
  destruct Hr as [m [Hm Hcase]]. apply filter_In in Hm.
  destruct Hm as [Hm Hs]. exists m. split; [exact Hm|].
  destruct Hcase as [->|[w [_ [_ ->]]]]; cbn;
    (split; [repeat split|]; split; [exact Hs|]);
    intros b Hb; rewrite Hb; reflexivity.
Qed.

Lemma filt_intratec_origin (df_map : list tech_map_row)
    (df_intratec : list intratec_ratio_row) (r : filt_row) :
  In r (filt_intratec_of df_map df_intratec) ->
  exists m, In m df_map /\ from_mapping m r /\
            source_is "intratec" m = true /\
            (forall b, base_year_reference_region_cost m = Some b ->
                       f_base_year_reference_region_cost r = Some b) /\
            f_fix_ratio r <> None.
Proof.
  unfold filt_intratec_of. intros Hr. apply in_merge_left in Hr.
  destruct Hr as [m [Hm Hcase]]. apply filter_In in Hm.
  destruct Hm as [Hm Hs]. exists m. split; [exact Hm|].
  destruct Hcase as [->|[w [_ [_ ->]]]]; cbn;
    (split; [repeat split|]; split; [exact Hs|]; split;
     [intros b Hb; rewrite Hb; reflexivity|]);
    destruct (fix_ratio m); cbn; discriminate.
Qed.

Lemma filt_none_origin (df_map : list tech_map_row)
    (un_reg : list un_reg_row) (r : filt_row) :
  In r (filt_none_of df_map un_reg) ->
  exists m, In m df_map /\ from_mapping m r /\
            reg_diff_source m = None /\
            f_base_year_reference_region_cost r
              = base_year_reference_region_cost m /\
            f_fix_ratio r <> None /\
            (f_region r = None /\ f_reg_cost_ratio r = None \/
             exists u, In u un_reg /\ f_region r = ur_region u /\
                       f_reg_cost_ratio r = ur_reg_cost_ratio u).
Proof.
  unfold filt_none_of. intros Hr. apply in_merge_left in Hr.
  destruct Hr as [[m z] [Hm Hcase]]. apply in_map_iff in Hm.
  destruct Hm as [m' [E Hm]]. inversion E; subst m' z. clear E.
  apply filter_In in Hm. destruct Hm as [Hm Hs].
  assert (Es : reg_diff_source m = None)
    by (destruct (reg_diff_source m); [discriminate Hs | reflexivity]).
  exists m. split; [exact Hm|].
  destruct Hcase as [->|[u [Hu [_ ->]]]]; cbn;
    (split; [repeat split|]; split; [exact Es|]; split; [reflexivity|]; split;
     [destruct (fix_ratio m); cbn; discriminate|]).
  - left. split; reflexivity.
  - right. exists u. repeat split. exact Hu.
Qed.

Lemma has_branch_cases (m : tech_map_row) :
  has_branch m = true <->
  (source_is "energy" m || source_is "weo" m) = true \/
  source_is "intratec" m = true \/
  reg_diff_source m = None.
Proof.
  unfold has_branch. rewrite !orb_true_iff.
  assert (Hn : isnull (reg_diff_source m) = true <-> reg_diff_source m = None)
    by (destruct (reg_diff_source m); cbn; split; congruence).
  rewrite Hn. tauto.
Qed.

(** X5: in a successful run of [apply_regional_differentiation], the
    technologies of the result are those of the mapping whose source is
    "energy", "weo", "intratec" or missing: each such row of the mapping has
    at least one row in the result, every row of the result belongs to such a
    row of the mapping, and a technology with any other source is left out
    without a message. *)
Theorem apply_regional_differentiation_technologies
    (inputs : Inputs) (config : Config) (out : list all_tech_row) :
  apply_regional_differentiation inputs config = Ok out ->
  exists df_map,
    adjust_technology_mapping (get_raw_technology_mapping inputs)
                              (module_ config) = Some df_map /\
    (forall m, In m df_map -> has_branch m = true ->
               exists row, In row out /\ from_mapping m (at_row row)) /\
    (forall row, In row out ->
                 exists m, In m df_map /\ has_branch m = true /\
                           from_mapping m (at_row row)).
Proof.
  intros Hout. destruct (apply_ok_inv _ _ Hout)
    as [df_map [df_weo [df_intratec [Emap ->]]]].
  exists df_map. split; [exact Emap|]. split.
  - intros m Hm Hb. apply has_branch_cases in Hb.
    assert (Hex : exists r,
               In r (filt_weo_of df_map df_weo ++
                     filt_intratec_of df_map df_intratec ++
                     filt_none_of df_map
                       (un_reg_of (filt_intratec_of df_map df_intratec)))
               /\ from_mapping m r).
    { destruct Hb as [Hb|[Hb|Hb]].
      - destruct (merge_left_covers
                    (fun m w => eqb (reg_diff_technology m)
                                    (Some (wc_weo_technology w)))
                    (fun m w =>
                       mk_filt_row
                         (message_technology m) (reg_diff_source m)
                         (reg_diff_technology m) (option_map wc_region w)
                         (where_ (isnull (base_year_reference_region_cost m))
                                 (match w with
                                  | Some w' => wc_weo_ref_region_cost w'
                                  | None => None
                                  end)
                                 (base_year_reference_region_cost m))
                         (match w with
                          | Some w' => wc_reg_cost_ratio w'
                          | None => None
                          end)
                         (where_ (isnull (fix_ratio m))
                                 (match w with
                                  | Some w' => wc_weo_fix_ratio w'
                                  | None => None
                                  end)
                                 (fix_ratio m)))
                    (filter (fun m => source_is "energy" m || source_is "weo" m)
                            df_map)
                    df_weo m) as [b Hin].
        { apply filter_In. auto. }
        eexists. split; [apply in_or_app; left; exact Hin|].
        repeat split.
      - destruct (merge_left_covers
                    (fun m i => eqb (reg_diff_technology m)
                                    (Some (ir_intratec_tech i)))
                    (fun m i =>
                       mk_filt_row
                         (message_technology m) (reg_diff_source m)
                         (reg_diff_technology m) (option_map ir_region i)
                         (where_ (isnull (base_year_reference_region_cost m))
                                 (match i with
                                  | Some i' => ir_intratec_ref_region_cost i'
                                  | None => None
                                  end)
                                 (base_year_reference_region_cost m))
                         (match i with
                          | Some i' => ir_reg_cost_ratio i'
                          | None => None
                          end)
                         (where_ (isnull (fix_ratio m)) (Some 0%Qc)
                                 (fix_ratio m)))
                    (filter (source_is "intratec") df_map)
                    df_intratec m) as [b Hin].
        { apply filter_In. auto. }
        eexists. split;
          [apply in_or_app; right; apply in_or_app; left; exact Hin|].
        repeat split.
      - destruct (merge_left_covers
                    (fun (m : tech_map_row * string) u => eqb (snd m) (ur_key u))
                    (fun m u =>
                       mk_filt_row
                         (message_technology (fst m)) (reg_diff_source (fst m))
                         (reg_diff_technology (fst m))
                         (match u with
                          | Some u' => ur_region u'
                          | None => None
                          end)
                         (base_year_reference_region_cost (fst m))
                         (match u with
                          | Some u' => ur_reg_cost_ratio u'
                          | None => None
                          end)
                         (where_ (isnull (fix_ratio (fst m))) (Some 0%Qc)
                                 (fix_ratio (fst m))))
                    (map (fun m => (m, "z"))
                         (filter (fun m => isnull (reg_diff_source m)) df_map))
                    (un_reg_of (filt_intratec_of df_map df_intratec))
                    (m, "z")) as [b Hin].
        { apply in_map_iff. exists m. split; [reflexivity|].
          apply filter_In. split; [exact Hm|].
          rewrite Hb. reflexivity. }
        eexists. split;
          [apply in_or_app; right; apply in_or_app; right; exact Hin|].
        repeat split. }
    destruct Hex as [r [Hr Hfrom]].
    exists (mk_all_tech_row
              r (fmul (f_base_year_reference_region_cost r)
                      (f_reg_cost_ratio r))).
    split; [|exact Hfrom].
    unfold all_tech_of. apply in_map_iff. exists r. auto.
  - intros row Hrow. unfold all_tech_of in Hrow. apply in_map_iff in Hrow.
    destruct Hrow as [r [<- Hr]]. cbn [at_row].
    apply in_app_or in Hr. destruct Hr as [Hr|Hr];
      [|apply in_app_or in Hr; destruct Hr as [Hr|Hr]].
    + destruct (filt_weo_origin _ _ _ Hr) as [m [Hm [Hf [Hs _]]]].
      exists m. split; [exact Hm|]. split; [|exact Hf].
      apply has_branch_cases. auto.
    + destruct (filt_intratec_origin _ _ _ Hr) as [m [Hm [Hf [Hs _]]]].
      exists m. split; [exact Hm|]. split; [|exact Hf].
      apply has_branch_cases. auto.
    + destruct (filt_none_origin _ _ _ Hr) as [m [Hm [Hf [Hs _]]]].
      exists m. split; [exact Hm|]. split; [|exact Hf].
      apply has_branch_cases. auto.
Qed.

(** X6: in the result of [apply_regional_differentiation], a row of a
    technology that uses Intratec or has no source always has a number as
    [fix_ratio]: the mapping's, or 0 where the mapping has none. *)
Theorem fix_ratio_never_missing_without_weo
    (inputs : Inputs) (config : Config) (out : list all_tech_row)
    (row : all_tech_row) :
  apply_regional_differentiation inputs config = Ok out ->
  In row out ->
  f_reg_diff_source (at_row row) = Some "intratec" \/
  f_reg_diff_source (at_row row) = None ->
  exists x, f_fix_ratio (at_row row) = Some x.
Proof.
  intros Hout Hrow Hsrc. destruct (apply_ok_inv _ _ Hout)
    as [df_map [df_weo [df_intratec [_ ->]]]].
  unfold all_tech_of in Hrow. apply in_map_iff in Hrow.
  destruct Hrow as [r [<- Hr]]. cbn [at_row] in *.
  assert (Hfix : f_fix_ratio r <> None).
  { apply in_app_or in Hr. destruct Hr as [Hr|Hr];
      [|apply in_app_or in Hr; destruct Hr as [Hr|Hr]].
    - exfalso. destruct (filt_weo_origin _ _ _ Hr) as [m [_ [Hf [Hs _]]]].
      destruct Hf as [_ [Es _]]. rewrite Es in Hsrc.
      unfold source_is in Hs. apply orb_true_iff in Hs.
      destruct Hs as [Hs|Hs]; apply eqb_eq in Hs; rewrite Hs in Hsrc;
        destruct Hsrc as [E|E]; discriminate E.
    - destruct (filt_intratec_origin _ _ _ Hr) as [m [_ [_ [_ [_ Hx]]]]].
      exact Hx.
    - destruct (filt_none_origin _ _ _ Hr) as [m [_ [_ [_ [_ [Hx _]]]]]].
      exact Hx. }
  destruct (f_fix_ratio r) as [x|]; [exists x; reflexivity | congruence].
Qed.

(** X7: a base-year cost that the mapping gives for a technology is the
    base-year cost of the rows of that technology in the result of
    [apply_regional_differentiation], whatever the source tables say, and
    the regional cost of each row is that cost times the row's ratio. *)
Theorem mapping_base_year_cost_is_kept
    (inputs : Inputs) (config : Config) (out : list all_tech_row)
    (row : all_tech_row) :
  apply_regional_differentiation inputs config = Ok out ->
  In row out ->
  exists df_map m,
    adjust_technology_mapping (get_raw_technology_mapping inputs)
                              (module_ config) = Some df_map /\
    In m df_map /\ from_mapping m (at_row row) /\
    forall b, base_year_reference_region_cost m = Some b ->
              f_base_year_reference_region_cost (at_row row) = Some b /\
              at_reg_cost_base_year row
                = fmul (Some b) (f_reg_cost_ratio (at_row row)).
Proof.
  intros Hout Hrow. destruct (apply_ok_inv _ _ Hout)
    as [df_map [df_weo [df_intratec [Emap ->]]]].
  unfold all_tech_of in Hrow. apply in_map_iff in Hrow.
  destruct Hrow as [r [<- Hr]]. cbn [at_row at_reg_cost_base_year].
  assert (Hm : exists m, In m df_map /\ from_mapping m r /\
                 forall b, base_year_reference_region_cost m = Some b ->
                           f_base_year_reference_region_cost r = Some b).
  { apply in_app_or in Hr. destruct Hr as [Hr|Hr];
      [|apply in_app_or in Hr; destruct Hr as [Hr|Hr]].
    - destruct (filt_weo_origin _ _ _ Hr) as [m [Hm [Hf [_ Hb]]]]. eauto.
    - destruct (filt_intratec_origin _ _ _ Hr) as [m [Hm [Hf [_ [Hb _]]]]].
      eauto.
    - destruct (filt_none_origin _ _ _ Hr) as [m [Hm [Hf [_ [Hb _]]]]].
      exists m. split; [exact Hm|]. split; [exact Hf|].
      intros b E. rewrite Hb. exact E. }
  destruct Hm as [m [Hm [Hf Hb]]].
  exists df_map, m. repeat split; try assumption; try apply Hf.
  - apply Hb. assumption.
  - rewrite (Hb b H). reflexivity.
Qed.

(** X8: in the result of [apply_regional_differentiation], a row of a
    technology without differentiation source that has a region has ratio 1,
    and its regional base-year cost is the reference cost of the mapping,
    unchanged. *)
Theorem no_source_rows_with_region_are_flat
    (inputs : Inputs) (config : Config) (out : list all_tech_row)
    (row : all_tech_row) (region : string) :
  apply_regional_differentiation inputs config = Ok out ->
  In row out ->
  f_reg_diff_source (at_row row) = None ->
  f_region (at_row row) = Some region ->
  f_reg_cost_ratio (at_row row) = Some 1%Qc /\
  at_reg_cost_base_year row = f_base_year_reference_region_cost (at_row row).
Proof.
  intros Hout Hrow Hsrc Hreg. destruct (apply_ok_inv _ _ Hout)
    as [df_map [df_weo [df_intratec [_ ->]]]].
  unfold all_tech_of in Hrow. apply in_map_iff in Hrow.
  destruct Hrow as [r [<- Hr]]. cbn [at_row at_reg_cost_base_year] in *.
  assert (Hratio : f_reg_cost_ratio r = Some 1%Qc).
  { apply in_app_or in Hr. destruct Hr as [Hr|Hr];
      [|apply in_app_or in Hr; destruct Hr as [Hr|Hr]].
    - exfalso. destruct (filt_weo_origin _ _ _ Hr) as [m [_ [Hf [Hs _]]]].
      destruct Hf as [_ [Es _]]. rewrite Es in Hsrc.
      unfold source_is in Hs. apply orb_true_iff in Hs.
      destruct Hs as [Hs|Hs]; apply eqb_eq in Hs; rewrite Hs in Hsrc;
        discriminate Hsrc.
    - exfalso.
      destruct (filt_intratec_origin _ _ _ Hr) as [m [_ [Hf [Hs _]]]].
      destruct Hf as [_ [Es _]]. rewrite Es in Hsrc.
      unfold source_is in Hs. apply eqb_eq in Hs. rewrite Hs in Hsrc.
      discriminate Hsrc.
    - destruct (filt_none_origin _ _ _ Hr)
        as [m [_ [_ [_ [_ [_ [[En _]|[u [Hu [_ Eu]]]]]]]]]].
      + rewrite En in Hreg. discriminate Hreg.
      + rewrite Eu. unfold un_reg_of in Hu. apply in_map_iff in Hu.
        destruct Hu as [x [<- _]]. reflexivity. }
  split; [exact Hratio|]. rewrite Hratio.
  destruct (f_base_year_reference_region_cost r) as [b|]; cbn [fmul];
    [|reflexivity].
  rewrite Qcmult_1_r. reflexivity.
Qed.

End EngineRowsFacts.

Module EngineWitness.

Import RegionalDifferentiation Samples.
Import ReferenceRegionFacts EngineOutcomeFacts EngineRowsFacts.

(** The result for the sample inputs: two rows of "gas_cc", three of
    "h2_smr", three of "tech_a". *)
Definition sample_out : list all_tech_row :=
  match apply_regional_differentiation inputs config with
  | Ok out => out
  | Raise _ => []
  end.

Definition no_all_tech_row : all_tech_row :=
  mk_all_tech_row (mk_filt_row "" None None None None None None) None.

Lemma sample_out_ok :
  apply_regional_differentiation inputs config = Ok sample_out.
Proof. vm_compute. reflexivity. Qed.

Lemma sample_row_in (i : nat) :
  (i < 8)%nat -> In (nth i sample_out no_all_tech_row) sample_out.
Proof.
  intros Hi. apply nth_In.
  replace (List.length sample_out) with 8%nat by (vm_compute; reflexivity).
  exact Hi.
Qed.

Lemma apply_regional_differentiation_succeeds_only_if_witness :
  exists ref regions,
    ref_region config = Some ref /\
    In (upper ref) (weo_regions_of inputs config) /\
    intratec_regions inputs config = Some regions /\
    In (upper ref) regions /\
    known_module config.
Proof.
  apply (@apply_regional_differentiation_succeeds_only_if
           inputs config sample_out).
  exact sample_out_ok.
Defined.

Lemma apply_regional_differentiation_technologies_witness :
  exists df_map,
    adjust_technology_mapping (get_raw_technology_mapping inputs)
                              (module_ config) = Some df_map /\
    (forall m, In m df_map -> has_branch m = true ->
               exists row, In row sample_out /\ from_mapping m (at_row row)) /\
    (forall row, In row sample_out ->
                 exists m, In m df_map /\ has_branch m = true /\
                           from_mapping m (at_row row)).
Proof.
  apply (@apply_regional_differentiation_technologies inputs config sample_out).
  exact sample_out_ok.
Defined.

Lemma fix_ratio_never_missing_without_weo_witness :
  exists x, f_fix_ratio (at_row (nth 2 sample_out no_all_tech_row)) = Some x.
Proof.
  apply (@fix_ratio_never_missing_without_weo
           inputs config sample_out (nth 2 sample_out no_all_tech_row)).
  - exact sample_out_ok.
  - apply sample_row_in. lia.
  - left. vm_compute. reflexivity.
Defined.

Lemma mapping_base_year_cost_is_kept_witness :
  exists df_map m,
    adjust_technology_mapping (get_raw_technology_mapping inputs)
                              (module_ config) = Some df_map /\
    In m df_map /\
    from_mapping m (at_row (nth 2 sample_out no_all_tech_row)) /\
    forall b, base_year_reference_region_cost m = Some b ->
              f_base_year_reference_region_cost
                (at_row (nth 2 sample_out no_all_tech_row)) = Some b /\
              at_reg_cost_base_year (nth 2 sample_out no_all_tech_row)
                = fmul (Some b)
                       (f_reg_cost_ratio
                          (at_row (nth 2 sample_out no_all_tech_row))).
Proof.
  apply (@mapping_base_year_cost_is_kept
           inputs config sample_out (nth 2 sample_out no_all_tech_row)).
  - exact sample_out_ok.
  - apply sample_row_in. lia.
Defined.

Lemma no_source_rows_with_region_are_flat_witness :
  f_reg_cost_ratio (at_row (nth 6 sample_out no_all_tech_row)) = Some 1%Qc /\
  at_reg_cost_base_year (nth 6 sample_out no_all_tech_row)
    = f_base_year_reference_region_cost
        (at_row (nth 6 sample_out no_all_tech_row)).
Proof.
  apply (@no_source_rows_with_region_are_flat
           inputs config sample_out (nth 6 sample_out no_all_tech_row)
           "R12_CHN").
  - exact sample_out_ok.
  - apply sample_row_in. lia.
  - vm_compute. reflexivity.
  - vm_compute. reflexivity.
Defined.

End EngineWitness.

(** ** The GDP table and the adjusted ratios: outcomes and rows *)

Module GdpTableFacts.

Import RegionalDifferentiation Gdp GdpFacts.

Lemma io_bind_ok {A B} (m : io A) (k : A -> io B) (b : B) :
  outcome (io_bind m k) = Ok b ->
  exists a, outcome m = Ok a /\ outcome (k a) = Ok b /\
            printed (io_bind m k) = printed m ++ printed (k a).
Proof.
  unfold outcome, printed, io_bind. destruct (snd m) as [a|e]; cbn.
  - intros E. exists a. auto.
  - discriminate.
Qed.

(** The rows that are grouped: the SSP rows of the countries that belong to
    a region, each under its (scenario version, scenario, region, year). *)
Definition by_group (regions_countries : list (string * string))
    (ssp : list country_row)
    : list ((string * (string * (string * Z))) * country_row) :=
  flat_map
    (fun '(c, reg) =>
       match reg with
       | Some r =>
           [((cr_scenario_version c,
              (substring 0 4 (cr_scenario_version c), (r, cr_year c))), c)]
       | None => []
       end)
    (merge_left (fun c rc => eqb (cr_country_alpha_3 c) (snd rc))
                (fun c rc => (c, option_map fst rc))
                ssp regions_countries).

(** The aggregated row of a group. *)
Definition agg_of (rows : list ((string * (string * (string * Z))) * country_row))
    (k : string * (string * (string * Z))) : agg_row :=
  let total_gdp :=
    sum (map (fun r => cr_gdp_ppp (snd r))
             (filter (fun r => eqb (fst r) k) rows)) in
  let total_population :=
    sum (map (fun r => cr_population (snd r))
             (filter (fun r => eqb (fst r) k) rows)) in
  mk_agg_row (fst k) (fst (snd k)) (fst (snd (snd k))) (snd (snd (snd k)))
             total_gdp total_population
             (fdiv (Some total_gdp) (Some total_population)).

Lemma aggregate_groups (regions_countries : list (string * string))
    (ssp : list country_row) :
  aggregate regions_countries ssp
  = map (agg_of (by_group regions_countries ssp))
        (sort_values (unique (map fst (by_group regions_countries ssp)))).
Proof.
  unfold aggregate, groupby. cbv zeta. rewrite map_map.
  apply map_ext. intros [sv [sc [reg yr]]]. reflexivity.
Qed.

Lemma in_by_group (regions_countries : list (string * string))
    (ssp : list country_row) (k : string * (string * (string * Z)))
    (c : country_row) :
  In (k, c) (by_group regions_countries ssp) ->
  In c ssp /\
  In (fst (snd (snd k)), cr_country_alpha_3 c) regions_countries /\
  k = (cr_scenario_version c,
       (substring 0 4 (cr_scenario_version c),
        (fst (snd (snd k)), cr_year c))).
Proof.
  unfold by_group. intros H. apply in_flat_map in H.
  destruct H as [[c0 reg] [Hm Hc]].
  destruct reg as [r|]; [|destruct Hc].
  destruct Hc as [E|[]]. inversion E; subst. clear E.
  apply in_merge_left in Hm.
  destruct Hm as [c1 [Hc1 [E1|[b [Hb [Eon E1]]]]]]; inversion E1; subst.
  apply eqb_eq in Eon. rewrite Eon. destruct b as [reg country].
  cbn [fst snd]. auto.
Qed.

(** A row of the aggregated table is the row of its own key, and is backed
    by a country of the SSP data. *)
Lemma in_aggregate (regions_countries : list (string * string))
    (ssp : list country_row) (a : agg_row) :
  In a (aggregate regions_countries ssp) ->
  a = agg_of (by_group regions_countries ssp)
             (ag_scenario_version a,
              (substring 0 4 (ag_scenario_version a),
               (ag_region a, ag_year a))) /\
  ag_scenario a = substring 0 4 (ag_scenario_version a) /\
  exists c, In c ssp /\
            In (ag_region a, cr_country_alpha_3 c) regions_countries /\
            cr_scenario_version c = ag_scenario_version a /\
            cr_year c = ag_year a.
Proof.
  rewrite aggregate_groups. intros Ha. apply in_map_iff in Ha.
  destruct Ha as [k [<- Hk]].
  apply (Permutation_in (l' := unique (map fst (by_group regions_countries ssp))))
    in Hk; [|apply sort_by_perm].
  apply (proj1 (unique_In _ _)) in Hk. apply in_map_iff in Hk.
  destruct Hk as [[k' c] [Ek Hc]]. cbn [fst] in Ek. subst k'.
  destruct (@in_by_group _ _ _ _ Hc) as [Hin [Hrc Ek]].
  cbn [ag_scenario_version ag_scenario ag_region ag_year agg_of].
  rewrite Ek at 1 2 3 4 5 6 7. cbn [fst snd].
  split; [rewrite <- Ek; reflexivity|]. split; [reflexivity|].
  exists c. rewrite Ek. cbn [fst snd]. rewrite Ek in Hrc. cbn [fst snd] in Hrc.
  auto.
Qed.

(** The aggregated table has one row per scenario version, region and year. *)
Lemma aggregate_keyed (regions_countries : list (string * string))
    (ssp : list country_row) (a b : agg_row) :
  In a (aggregate regions_countries ssp) ->
  In b (aggregate regions_countries ssp) ->
  ag_scenario_version a = ag_scenario_version b ->
  ag_region a = ag_region b ->
  ag_year a = ag_year b ->
  a = b.
Proof.
  intros Ha Hb Es Er Ey.
  destruct (@in_aggregate _ _ _ Ha) as [Ea _].
  destruct (@in_aggregate _ _ _ Hb) as [Eb _].
  rewrite Ea, Eb, Es, Er, Ey. reflexivity.
Qed.

(** A row with the scenario replaced. *)
Definition with_scenario (s : string) (g : gdp_row) : gdp_row :=
  mk_gdp_row (scenario_version g) s (region g) (year g)
             (gdp_ppp_per_capita g) (gdp_ratio_reg_to_reference g).

(** The row of a region and the row of the reference region it is compared
    with. *)
Definition ratio_row (l r : agg_row) : gdp_row :=
  mk_gdp_row (ag_scenario_version l) (ag_scenario l) (ag_region l) (ag_year l)
             (ag_gdp_ppp_per_capita l)
             (fdiv (ag_gdp_ppp_per_capita l) (ag_gdp_ppp_per_capita r)).

Lemma in_gdp_ratios (reference_region : string) (df : list agg_row)
    (g : gdp_row) :
  In g (gdp_ratios reference_region df) <->
  exists l r, In l df /\ In r df /\ ag_region r = reference_region /\
              ag_scenario_version l = ag_scenario_version r /\
              ag_scenario l = ag_scenario r /\
              ag_year l = ag_year r /\
              (g = ratio_row l r \/
               ag_scenario l = "SSP2" /\ g = with_scenario "LED" (ratio_row l r)).
Proof.
  unfold gdp_ratios. cbv zeta.
  set (with_ratio := merge _ _ df _).
  assert (Hw : forall x, In x with_ratio <->
             exists l r, In l df /\ In r df /\ ag_region r = reference_region /\
                         ag_scenario_version l = ag_scenario_version r /\
                         ag_scenario l = ag_scenario r /\
                         ag_year l = ag_year r /\ x = ratio_row l r).
  { intros x. unfold with_ratio. rewrite in_merge. split.
    - intros [l [r [Hl [Hr [Eon ->]]]]]. apply filter_In in Hr.
      destruct Hr as [Hr Eref]. apply eqb_eq in Eref.
      apply andb_true_iff in Eon. destruct Eon as [Eon Ey].
      apply andb_true_iff in Eon. destruct Eon as [Esv Esc].
      apply eqb_eq in Ey, Esv, Esc.
      exists l, r. repeat split; assumption.
    - intros [l [r [Hl [Hr [Eref [Esv [Esc [Ey ->]]]]]]]].
      exists l, r. split; [exact Hl|]. split.
      + apply filter_In. split; [exact Hr | apply eqb_eq; exact Eref].
      + split; [|reflexivity].
        rewrite Esv, Esc, Ey, !eqb_refl. reflexivity. }
  split.
  - intros Hg. eapply Permutation_in in Hg; [|apply sort_by_perm].
    apply in_app_or in Hg. destruct Hg as [Hg|Hg].
    + apply Hw in Hg. destruct Hg as [l [r [Hl [Hr [Eref [Esv [Esc [Ey ->]]]]]]]].
      exists l, r. repeat split; auto.
    + apply in_map_iff in Hg. destruct Hg as [x [<- Hx]].
      apply filter_In in Hx. destruct Hx as [Hx Es]. apply eqb_eq in Es.
      apply Hw in Hx. destruct Hx as [l [r [Hl [Hr [Eref [Esv [Esc [Ey ->]]]]]]]].
      exists l, r. repeat split; auto.
  - intros [l [r [Hl [Hr [Eref [Esv [Esc [Ey Hg]]]]]]]].
    eapply Permutation_in; [symmetry; apply sort_by_perm|].
    assert (Hin : In (ratio_row l r) with_ratio)
      by (apply Hw; exists l, r; repeat split; auto).
    apply in_or_app. destruct Hg as [->|[Es ->]]; [left; exact Hin|].
    right. apply in_map_iff. exists (ratio_row l r). split; [reflexivity|].
    apply filter_In. split; [exact Hin | apply eqb_eq; exact Es].
Qed.

(** What a returned table is made of. *)
Lemma process_ok_inv
    (node_files : string -> option (list (string * list string)))
    (ssp_data : list country_row)
    (input_node : string) (input_ref_region : option string)
    (df : list gdp_row) :
  outcome (process_raw_ssp_data node_files ssp_data input_node input_ref_region)
    = Ok (Some df) ->
  exists nodes_data ref,
    node_files (upper input_node ++ ".yaml")%string = Some nodes_data /\
    default_ref_region input_node input_ref_region = Some ref /\
    In (upper ref) (map ag_region (aggregated nodes_data ssp_data)) /\
    df = gdp_ratios (upper ref) (aggregated nodes_data ssp_data).
Proof.
  unfold process_raw_ssp_data, open_node_file, aggregated, outcome.
  intros H.
  destruct (node_files (upper input_node ++ ".yaml")%string)
    as [nodes_data|] eqn:Ef.
  2:{ destruct (mem (upper input_node) ["R11"; "R12"; "R20"]);
        cbn in H; discriminate. }
  destruct (default_ref_region input_node input_ref_region) as [ref|] eqn:Er.
  2:{ destruct (mem (upper input_node) ["R11"; "R12"; "R20"]);
        cbn in H; discriminate. }
  exists nodes_data, ref. split; [reflexivity|]. split; [reflexivity|].
  destruct (mem (upper ref)
              (unique (map ag_region
                           (aggregate (regions_countries_of nodes_data)
                                      ssp_data)))) eqn:Em.
  - split; [apply mem_In; rewrite <- mem_unique; exact Em|].
    destruct (mem (upper input_node) ["R11"; "R12"; "R20"]);
      cbn [negb io_bind ret print fst snd List.app] in H;
      rewrite Em in H; cbn [negb io_bind ret print fst snd] in H;
      inversion H; reflexivity.
  - exfalso.
    destruct (mem (upper input_node) ["R11"; "R12"; "R20"]);
      cbn [negb io_bind ret print fst snd List.app] in H;
      rewrite Em in H; cbn [negb io_bind ret print fst snd] in H;
      discriminate.
Qed.

(** X9: two exceptions of [process_raw_ssp_data].  When the node file does
    not exist, it raises FileNotFoundError, after the request for a valid
    region if the node is none of R11, R12 and R20.  When the file exists
    and the SSP data are read, no reference region is given and the node is
    none of R11, R12 and R20, it prints the request for a valid region and
    raises AttributeError. *)
Theorem process_raw_ssp_data_raises
    (node_files : string -> option (list (string * list string)))
    (ssp_data : list country_row)
    (input_node : string) (input_ref_region : option string) :
  (node_files (upper input_node ++ ".yaml")%string = None ->
   process_raw_ssp_data node_files ssp_data input_node input_ref_region
   = (node_check input_node, Raise FileNotFoundError))
  /\
  (node_files (upper input_node ++ ".yaml")%string <> None ->
   input_ref_region = None ->
   ~ In (upper input_node) ["R11"; "R12"; "R20"] ->
   process_raw_ssp_data node_files ssp_data input_node input_ref_region
   = ([PleaseSelectValidRegion], Raise AttributeError)).
Proof.
  unfold process_raw_ssp_data, open_node_file, node_check. split.
  - intros Ef. rewrite Ef.
    destruct (mem (upper input_node) ["R11"; "R12"; "R20"]); reflexivity.
  - intros Ef -> Hn. apply mem_not_In in Hn.
    destruct (node_files (upper input_node ++ ".yaml")%string)
      as [nodes_data|]; [|congruence].
    assert (Er : default_ref_region input_node None = None).
    { unfold default_ref_region. unfold mem in Hn. cbn [existsb] in Hn.
      destruct (eqb (upper input_node) "R11"); [discriminate|].
      destruct (eqb (upper input_node) "R12"); [discriminate|].
      destruct (eqb (upper input_node) "R20"); [discriminate|].
      reflexivity. }
    rewrite Er, Hn. reflexivity.
Qed.

(** X10: in the table [process_raw_ssp_data] returns, a row of the reference
    region whose GDP per capita is a number other than zero has the ratio
    1. *)
Theorem reference_region_gdp_ratio_is_one
    (node_files : string -> option (list (string * list string)))
    (ssp_data : list country_row)
    (input_node : string) (input_ref_region : option string)
    (df : list gdp_row) (ref : string) (g : gdp_row) (p : Qc) :
  outcome (process_raw_ssp_data node_files ssp_data input_node input_ref_region)
    = Ok (Some df) ->
  default_ref_region input_node input_ref_region = Some ref ->
  In g df ->
  region g = upper ref ->
  gdp_ppp_per_capita g = Some p ->
  p <> 0%Qc ->
  gdp_ratio_reg_to_reference g = Some 1%Qc.
Proof.
  intros Hout Href Hg Hreg Hp Hnz.
  destruct (@process_ok_inv _ _ _ _ _ Hout) as [nodes_data [ref' [_ [Er [_ ->]]]]].
  rewrite Href in Er. inversion Er; subst ref'. clear Er.
  apply in_gdp_ratios in Hg.
  destruct Hg as [l [r [Hl [Hr [Eref [Esv [_ [Ey Hg]]]]]]]].
  assert (Elr : l = r).
  { apply (@aggregate_keyed _ _ l r Hl Hr Esv); [|exact Ey].
    rewrite Eref. destruct Hg as [->|[_ ->]]; exact Hreg. }
  subst r.
  assert (Epc : ag_gdp_ppp_per_capita l = Some p)
    by (destruct Hg as [->|[_ ->]]; exact Hp).
  assert (Eratio : gdp_ratio_reg_to_reference g
                   = fdiv (ag_gdp_ppp_per_capita l) (ag_gdp_ppp_per_capita l))
    by (destruct Hg as [->|[_ ->]]; reflexivity).
  rewrite Eratio, Epc. apply fdiv_self. exact Hnz.
Qed.

(** X11: in the table [process_raw_ssp_data] returns, the scenario "LED" is
    a copy of "SSP2": every row of "SSP2" is there once more as "LED", with
    the same version, region, year and numbers, and every row of "LED" whose
    scenario version starts with "SSP2" has its "SSP2" row. *)
Theorem led_rows_copy_ssp2
    (node_files : string -> option (list (string * list string)))
    (ssp_data : list country_row)
    (input_node : string) (input_ref_region : option string)
    (df : list gdp_row) (g : gdp_row) :
  outcome (process_raw_ssp_data node_files ssp_data input_node input_ref_region)
    = Ok (Some df) ->
  In g df ->
  (scenario g = "SSP2" -> In (with_scenario "LED" g) df) /\
  (scenario g = "LED" ->
   substring 0 4 (scenario_version g) = "SSP2" ->
   In (with_scenario "SSP2" g) df).
Proof.
  intros Hout Hg.
  destruct (@process_ok_inv _ _ _ _ _ Hout) as [nodes_data [ref [_ [_ [_ ->]]]]].
  apply in_gdp_ratios in Hg.
  destruct Hg as [l [r [Hl [Hr [Eref [Esv [Esc [Ey Hg]]]]]]]].
  destruct (@in_aggregate _ _ _ Hl) as [_ [Esub _]].
  split.
  - intros Es. apply in_gdp_ratios. exists l, r.
    repeat split; try assumption. right.
    destruct Hg as [->|[_ ->]]; [|discriminate Es].
    split; [exact Es | reflexivity].
  - intros Es Ev. apply in_gdp_ratios. exists l, r.
    repeat split; try assumption. left.
    destruct Hg as [->|[Essp ->]].
    + exfalso. cbn [scenario ratio_row scenario_version] in Es, Ev.
      rewrite Esub, Ev in Es. discriminate Es.
    + unfold with_scenario, ratio_row. cbn. rewrite Essp. reflexivity.
Qed.

(** X12: every row of the table [process_raw_ssp_data] returns is backed by
    the data: its region is a region of the node file with a child country
    that the SSP data have for the row's scenario version and year, and the
    table has a row of the reference region for the same scenario and year.
    "World" is never a region of the table. *)
Theorem gdp_rows_are_backed_by_data
    (node_files : string -> option (list (string * list string)))
    (ssp_data : list country_row)
    (input_node : string) (input_ref_region : option string)
    (df : list gdp_row) (g : gdp_row) :
  outcome (process_raw_ssp_data node_files ssp_data input_node input_ref_region)
    = Ok (Some df) ->
  In g df ->
  region g <> "World" /\
  (exists nodes_data children c,
      node_files (upper input_node ++ ".yaml")%string = Some nodes_data /\
      In (region g, children) nodes_data /\
      In (cr_country_alpha_3 c) children /\
      In c ssp_data /\
      cr_scenario_version c = scenario_version g /\
      cr_year c = year g) /\
  (exists ref g',
      default_ref_region input_node input_ref_region = Some ref /\
      In g' df /\ region g' = upper ref /\
      scenario g' = scenario g /\
      scenario_version g' = scenario_version g /\
      year g' = year g).
Proof.
  intros Hout Hg.
  destruct (@process_ok_inv _ _ _ _ _ Hout) as [nodes_data [ref [Ef [Er [_ ->]]]]].
  pose proof Hg as Hg'. apply in_gdp_ratios in Hg'.
  destruct Hg' as [l [r [Hl [Hr [Eref [Esv [Esc [Ey Hrow]]]]]]]].
  assert (Efields : region g = ag_region l /\
                    scenario_version g = ag_scenario_version l /\
                    year g = ag_year l)
    by (destruct Hrow as [->|[_ ->]]; repeat split).
  destruct Efields as [Ereg [Eversion Eyear]].
  destruct (@in_aggregate _ _ _ Hl) as [_ [_ [c [Hc [Hrc [Ecv Ecy]]]]]].
  unfold regions_countries_of in Hrc. apply in_flat_map in Hrc.
  destruct Hrc as [[reg children] [Hnode Hpair]].
  apply filter_In in Hnode. destruct Hnode as [Hnode Hworld].
  apply in_map_iff in Hpair. destruct Hpair as [c' [E Hchild]].
  inversion E; subst reg c'. clear E.
  cbn [fst] in Hworld. apply negb_true_iff, eqb_neq in Hworld.
  split; [rewrite Ereg; exact Hworld|]. split.
  - exists nodes_data, children, c.
    rewrite Ereg, Eversion, Eyear. repeat split; assumption.
  - destruct Hrow as [->|[Essp ->]].
    + exists ref, (ratio_row r r). split; [exact Er|]. split.
      * apply in_gdp_ratios. exists r, r. repeat split; auto.
      * cbn. repeat split; congruence.
    + exists ref, (with_scenario "LED" (ratio_row r r)).
      split; [exact Er|]. split.
      * apply in_gdp_ratios. exists r, r. repeat split; auto.
        right. split; [congruence | reflexivity].
      * cbn. repeat split; congruence.
Qed.

(** *** The adjusted ratios *)

(** X13: when [process_raw_ssp_data] returns no table,
    [calculate_indiv_adjusted_region_cost_ratios] prints what it printed and
    raises AttributeError. *)
Theorem calculate_without_gdp_table_raises
    (node_files : string -> option (list (string * list string)))
    (ssp_data : list country_row)
    (region_diff_df : list all_tech_row)
    (input_node : string) (input_ref_region : option string)
    (input_base_year : Z) (msgs : list message) :
  process_raw_ssp_data node_files ssp_data input_node input_ref_region
    = (msgs, Ok None) ->
  calculate_indiv_adjusted_region_cost_ratios
    node_files ssp_data region_diff_df input_node input_ref_region
    input_base_year
  = (msgs, Raise AttributeError).
Proof.
  intros H. unfold calculate_indiv_adjusted_region_cost_ratios.
  rewrite H. cbn [io_bind fst snd raise]. rewrite List.app_nil_r. reflexivity.
Qed.

(** What a successful run of the adjustment is made of. *)
Lemma calculate_ok_inv
    (node_files : string -> option (list (string * list string)))
    (ssp_data : list country_row)
    (region_diff_df : list all_tech_row)
    (input_node : string) (input_ref_region : option string)
    (input_base_year : Z) (rows : list adj_row) (r : adj_row) :
  outcome (calculate_indiv_adjusted_region_cost_ratios
             node_files ssp_data region_diff_df input_node input_ref_region
             input_base_year) = Ok rows ->
  In r rows ->
  exists df base_year ref g fit,
    outcome (process_raw_ssp_data node_files ssp_data
                                  input_node input_ref_region) = Ok (Some df) /\
    outcome (resolve_base_year input_base_year
               (filter (fun r => 2020 <=? year r)%Z df)) = Ok base_year /\
    default_ref_region input_node input_ref_region = Some ref /\
    In g df /\ (2020 <= year g)%Z /\ (base_year <= year g)%Z /\
    aj_scenario_version r
      = where_ (contains "2013" (scenario_version g))
               "Previous (2013)" "Review (2023)" /\
    aj_scenario r = scenario g /\
    aj_region r = region g /\
    aj_year r = year g /\
    aj_gdp_ratio_reg_to_reference r = gdp_ratio_reg_to_reference g /\
    aj_message_technology r = option_map rg_message_technology fit /\
    reg_cost_ratio_adj r
      = where_ (eqb (region g) ref) (Some 1%Qc)
               (fadd (fmul (match fit with
                            | Some f => slope f
                            | None => None
                            end)
                           (gdp_ratio_reg_to_reference g))
                     (match fit with
                      | Some f => intercept f
                      | None => None
                      end)).
Proof.
  unfold calculate_indiv_adjusted_region_cost_ratios. intros H Hr.
  apply io_bind_ok in H. destruct H as [processed [Hp [H _]]].
  destruct processed as [df|].
  2:{ apply io_bind_ok in H. destruct H as [x [Hx _]]. discriminate Hx. }
  apply io_bind_ok in H. destruct H as [df_gdp [Hdf [H _]]].
  cbn in Hdf. inversion Hdf; subst df_gdp. clear Hdf.
  apply io_bind_ok in H. destruct H as [base_year [Hb [H _]]].
  cbv zeta in H.
  apply io_bind_ok in H. destruct H as [l_reg [_ [H _]]].
  apply io_bind_ok in H. destruct H as [df_reg [_ [H _]]].
  apply io_bind_ok in H. destruct H as [ref [Href [H _]]].
  destruct (default_ref_region input_node input_ref_region) as [ref'|] eqn:Er;
    [|discriminate Href].
  cbn in Href. inversion Href; subst ref'. clear Href.
  cbn [outcome ret snd] in H. inversion H; subst rows. clear H.
  apply in_map_iff in Hr. destruct Hr as [[g fit] [<- Hin]].
  apply filter_In in Hin. destruct Hin as [Hin Hyear].
  cbn [fst] in Hyear. apply Z.leb_le in Hyear.
  apply in_merge_left in Hin.
  destruct Hin as [g' [Hg' Hcase]].
  apply filter_In in Hg'. destruct Hg' as [Hg' H2020]. apply Z.leb_le in H2020.
  assert (Eg : g = g')
    by (destruct Hcase as [E|[b [_ [_ E]]]]; inversion E; reflexivity).
  subst g'.
  exists df, base_year, ref, g, fit.
  cbn. repeat split; auto.
Qed.

(** X14: in the table [calculate_indiv_adjusted_region_cost_ratios] returns,
    a row whose region is written as the reference region was passed (or as
    the default of the node, when none was passed) has the adjusted cost
    ratio 1.  The comparison is with the reference region as passed, in the
    letter case it was passed in, not with the upper-case form under which
    [process_raw_ssp_data] looks the reference region up. *)
Theorem adjusted_ratio_is_one_where_region_is_reference_as_passed
    (node_files : string -> option (list (string * list string)))
    (ssp_data : list country_row)
    (region_diff_df : list all_tech_row)
    (input_node : string) (input_ref_region : option string)
    (input_base_year : Z) (rows : list adj_row) (r : adj_row)
    (reference_region : string) :
  outcome (calculate_indiv_adjusted_region_cost_ratios
             node_files ssp_data region_diff_df input_node input_ref_region
             input_base_year) = Ok rows ->
  In r rows ->
  default_ref_region input_node input_ref_region = Some reference_region ->
  aj_region r = reference_region ->
  reg_cost_ratio_adj r = Some 1%Qc.
Proof.
  intros H Hr Href Eregion.
  destruct (@calculate_ok_inv _ _ _ _ _ _ _ _ H Hr)
    as [df [base_year [ref [g [fit [_ [_ [Er [_ [_ [_ [_ [_ [Ereg [_ [_ [_ ->]]]]]]]]]]]]]]]]].
  rewrite Href in Er. inversion Er; subst ref.
  rewrite <- Ereg, Eregion, eqb_refl.
  reflexivity.
Qed.

(** X15: the rows of the table
    [calculate_indiv_adjusted_region_cost_ratios] returns are rows of the GDP
    table from 2020 on and from the base year on, where the base year is the
    configured one, or else the one named in the message it printed.  Their
    scenario version is one of the two labels "Previous (2013)" and
    "Review (2023)". *)
Theorem adjusted_rows_years_and_versions
    (node_files : string -> option (list (string * list string)))
    (ssp_data : list country_row)
    (region_diff_df : list all_tech_row)
    (input_node : string) (input_ref_region : option string)
    (input_base_year : Z) (rows : list adj_row) (r : adj_row) :
  outcome (calculate_indiv_adjusted_region_cost_ratios
             node_files ssp_data region_diff_df input_node input_ref_region
             input_base_year) = Ok rows ->
  In r rows ->
  (2020 <= aj_year r)%Z /\
  (aj_scenario_version r = "Previous (2013)" \/
   aj_scenario_version r = "Review (2023)") /\
  exists base_year,
    (base_year <= aj_year r)%Z /\
    (base_year = input_base_year \/
     In (BaseYearNotFound input_base_year base_year)
        (printed (calculate_indiv_adjusted_region_cost_ratios
                    node_files ssp_data region_diff_df input_node
                    input_ref_region input_base_year))).
Proof.
  intros H Hr.
  destruct (@calculate_ok_inv _ _ _ _ _ _ _ _ H Hr)
    as [df [base_year [ref [g [fit [Hp [Hb [_ [_ [H2020 [Hbase [Ev [_ [_ [Ey _]]]]]]]]]]]]]]].
  rewrite Ey. split; [exact H2020|]. split.
  - rewrite Ev. destruct (contains "2013" (scenario_version g)); auto.
  - exists base_year. split; [exact Hbase|].
    unfold calculate_indiv_adjusted_region_cost_ratios.
    unfold calculate_indiv_adjusted_region_cost_ratios in H.
    apply io_bind_ok in H. destruct H as [processed [Hp' [H ->]]].
    rewrite Hp in Hp'. inversion Hp'; subst processed. clear Hp'.
    apply io_bind_ok in H. destruct H as [df_gdp [Hdf [H ->]]].
    cbn in Hdf. inversion Hdf; subst df_gdp. clear Hdf.
    apply io_bind_ok in H. destruct H as [base' [Hb' [_ ->]]].
    rewrite Hb in Hb'. inversion Hb'; subst base'. clear Hb'.
    unfold resolve_base_year in *.
    destruct (negb (mem input_base_year _)).
    + right. apply in_or_app. right. apply in_or_app. right.
      apply in_or_app. left.
      destruct (unique _) as [|y t]; [discriminate Hb|].
      cbn in Hb. inversion Hb. cbn. left. reflexivity.
    + left. cbn in Hb. inversion Hb. reflexivity.
Qed.

End GdpTableFacts.

Module GdpTableWitness.

Import RegionalDifferentiation Gdp GdpFacts GdpSamples GdpTableFacts.

(** The GDP table of the sample data for R12, reference region R12_NAM. *)
Definition sample_table : list gdp_row :=
  match outcome (process_raw_ssp_data node_files ssp_data
                                      "r12" (Some "r12_nam")) with
  | Ok (Some df) => df
  | _ => []
  end.

Definition no_gdp_row : gdp_row := mk_gdp_row "" "" "" 0 None None.

Lemma sample_table_ok :
  outcome (process_raw_ssp_data node_files ssp_data "r12" (Some "r12_nam"))
  = Ok (Some sample_table).
Proof. vm_compute. reflexivity. Qed.

Lemma sample_gdp_row_in (i : nat) :
  (i < 8)%nat -> In (nth i sample_table no_gdp_row) sample_table.
Proof.
  intros Hi. apply nth_In.
  replace (List.length sample_table) with 8%nat by (vm_compute; reflexivity).
  exact Hi.
Qed.

(** The per-capita GDP of a row, 0 where it is missing. *)
Definition per_capita (g : gdp_row) : Qc :=
  match gdp_ppp_per_capita g with
  | Some p => p
  | None => 0%Qc
  end.

Lemma process_raw_ssp_data_raises_witness :
  process_raw_ssp_data node_files ssp_data "R13" None
  = (node_check "R13", Raise FileNotFoundError)
  /\
  process_raw_ssp_data node_files ssp_data "R14" None
  = ([PleaseSelectValidRegion], Raise AttributeError).
Proof.
  split.
  - apply (proj1 (process_raw_ssp_data_raises node_files ssp_data "R13" None)).
    reflexivity.
  - apply (proj2 (process_raw_ssp_data_raises node_files ssp_data "R14" None)).
    + discriminate.
    + reflexivity.
    + cbn. intuition discriminate.
Defined.

Lemma reference_region_gdp_ratio_is_one_witness :
  gdp_ratio_reg_to_reference (nth 6 sample_table no_gdp_row) = Some 1%Qc.
Proof.
  apply (@reference_region_gdp_ratio_is_one
           node_files ssp_data "r12" (Some "r12_nam") sample_table "r12_nam"
           (nth 6 sample_table no_gdp_row)
           (per_capita (nth 6 sample_table no_gdp_row))).
  - exact sample_table_ok.
  - reflexivity.
  - apply sample_gdp_row_in. lia.
  - vm_compute. reflexivity.
  - vm_compute. reflexivity.
  - intros E. apply (f_equal Qcanon.this) in E. vm_compute in E.
    discriminate E.
Defined.

Lemma led_rows_copy_ssp2_witness :
  In (with_scenario "LED" (nth 4 sample_table no_gdp_row)) sample_table.
Proof.
  apply (proj1 (@led_rows_copy_ssp2
                  node_files ssp_data "r12" (Some "r12_nam") sample_table
                  (nth 4 sample_table no_gdp_row)
                  sample_table_ok (sample_gdp_row_in (i := 4) ltac:(lia)))).
  vm_compute. reflexivity.
Defined.

Lemma gdp_rows_are_backed_by_data_witness :
  region (nth 4 sample_table no_gdp_row) <> "World" /\
  (exists nodes_data children c,
      node_files (upper "r12" ++ ".yaml")%string = Some nodes_data /\
      In (region (nth 4 sample_table no_gdp_row), children) nodes_data /\
      In (cr_country_alpha_3 c) children /\
      In c ssp_data /\
      cr_scenario_version c = scenario_version (nth 4 sample_table no_gdp_row) /\
      cr_year c = year (nth 4 sample_table no_gdp_row)) /\
  (exists ref g',
      default_ref_region "r12" (Some "r12_nam") = Some ref /\
      In g' sample_table /\ region g' = upper ref /\
      scenario g' = scenario (nth 4 sample_table no_gdp_row) /\
      scenario_version g' = scenario_version (nth 4 sample_table no_gdp_row) /\
      year g' = year (nth 4 sample_table no_gdp_row)).
Proof.
  apply (@gdp_rows_are_backed_by_data
           node_files ssp_data "r12" (Some "r12_nam") sample_table
           (nth 4 sample_table no_gdp_row)).
  - exact sample_table_ok.
  - apply sample_gdp_row_in. lia.
Defined.

Lemma calculate_without_gdp_table_raises_witness :
  calculate_indiv_adjusted_region_cost_ratios
    node_files ssp_data EngineWitness.sample_out "r12" (Some "R12_XYZ") 2021
  = ([PleaseSelectValidReferenceRegion ["R12_CHN"; "R12_NAM"]],
     Raise AttributeError).
Proof.
  apply (@calculate_without_gdp_table_raises
           node_files ssp_data EngineWitness.sample_out "r12" (Some "R12_XYZ")
           2021 [PleaseSelectValidReferenceRegion ["R12_CHN"; "R12_NAM"]]).
  vm_compute. reflexivity.
Defined.

(** The adjusted ratios for the sample data: the result of the regional
    differentiation of the samples, R12 with reference region R12_NAM, and
    a base year that the GDP table does not have. *)
Definition sample_adjusted : list adj_row :=
  match outcome (calculate_indiv_adjusted_region_cost_ratios
                   node_files ssp_data EngineWitness.sample_out
                   "r12" (Some "R12_NAM") 2021) with
  | Ok rows => rows
  | Raise _ => []
  end.

Definition no_adj_row : adj_row := mk_adj_row "" "" None "" 0 None None.

Lemma sample_adjusted_ok :
  outcome (calculate_indiv_adjusted_region_cost_ratios
             node_files ssp_data EngineWitness.sample_out
             "r12" (Some "R12_NAM") 2021)
  = Ok sample_adjusted.
Proof. vm_compute. reflexivity. Qed.

Lemma sample_adj_row_in (i : nat) :
  (i < 24)%nat -> In (nth i sample_adjusted no_adj_row) sample_adjusted.
Proof.
  intros Hi. apply nth_In.
  replace (List.length sample_adjusted) with 24%nat
    by (vm_compute; reflexivity).
  exact Hi.
Qed.

Lemma adjusted_ratio_is_one_where_region_is_reference_as_passed_witness :
  reg_cost_ratio_adj (nth 18 sample_adjusted no_adj_row) = Some 1%Qc.
Proof.
  apply (@adjusted_ratio_is_one_where_region_is_reference_as_passed
           node_files ssp_data EngineWitness.sample_out
           "r12" (Some "R12_NAM") 2021 sample_adjusted
           (nth 18 sample_adjusted no_adj_row) "R12_NAM").
  - exact sample_adjusted_ok.
  - apply sample_adj_row_in. lia.
  - reflexivity.
  - vm_compute. reflexivity.
Defined.

Lemma adjusted_rows_years_and_versions_witness :
  (2020 <= aj_year (nth 0 sample_adjusted no_adj_row))%Z /\
  (aj_scenario_version (nth 0 sample_adjusted no_adj_row) = "Previous (2013)" \/
   aj_scenario_version (nth 0 sample_adjusted no_adj_row) = "Review (2023)") /\
  exists base_year,
    (base_year <= aj_year (nth 0 sample_adjusted no_adj_row))%Z /\
    (base_year = 2021%Z \/
     In (BaseYearNotFound 2021 base_year)
        (printed (calculate_indiv_adjusted_region_cost_ratios
                    node_files ssp_data EngineWitness.sample_out
                    "r12" (Some "R12_NAM") 2021))).
Proof.
  apply (@adjusted_rows_years_and_versions
           node_files ssp_data EngineWitness.sample_out
           "r12" (Some "R12_NAM") 2021 sample_adjusted
           (nth 0 sample_adjusted no_adj_row)).
  - exact sample_adjusted_ok.
  - apply sample_adj_row_in. lia.
Defined.

End GdpTableWitness.

(** ** The technology mapping of the materials module *)

Module TechnologyMappingFacts.

Import RegionalDifferentiation EngineRowsFacts.

(** The rows of the materials mapping that lead to a projection: those
    mapped to an energy technology, those mapped to Intratec with a base-year
    cost, and those without source but with a base-year cost. *)
Definition projected (m : tech_map_row) : bool :=
  source_is "energy" m ||
  (source_is "intratec" m &&
   negb (isnull (base_year_reference_region_cost m))) ||
  (isnull (reg_diff_source m) &&
   negb (isnull (base_year_reference_region_cost m))).

Lemma in_subset_materials_map (raw_map : list tech_map_row)
    (l : tech_map_row) :
  In l (subset_materials_map raw_map) <->
  exists m, In m raw_map /\
            (negb (isnull (reg_diff_source m)) ||
             negb (isnull (base_year_reference_region_cost m))) = true /\
            l = mk_tech_map_row
                  (message_technology m) (reg_diff_source m)
                  (reg_diff_technology m)
                  (option_map round_half_even
                              (base_year_reference_region_cost m))
                  (fix_ratio m).
Proof.
  unfold subset_materials_map. rewrite in_map_iff. split.
  - intros [m [<- Hm]]. apply filter_In in Hm. destruct Hm as [Hm Hf].
    exists m. auto.
  - intros [m [Hm [Hf ->]]]. exists m. split; [reflexivity|].
    apply filter_In. auto.
Qed.

Lemma isnull_option_map {A B} (f : A -> B) (x : option A) :
  isnull (option_map f x) = isnull x.
Proof. destruct x; reflexivity. Qed.

Lemma source_energy_not_null (m : tech_map_row) (s : string) :
  source_is s m = true -> isnull (reg_diff_source m) = false.
Proof.
  unfold source_is. intros E. apply eqb_eq in E. rewrite E. reflexivity.
Qed.

(** X16: the technologies of the mapping that [adjust_technology_mapping]
    returns for "materials" are the technologies of the energy mapping,
    together with those of the materials mapping that are mapped to an energy
    technology, or have a base-year cost and are mapped to Intratec or to
    nothing.  Every other technology of the materials mapping is left out. *)
Theorem materials_mapping_technologies
    (get_raw : string -> list tech_map_row) (df : list tech_map_row)
    (t : string) :
  adjust_technology_mapping get_raw "materials" = Some df ->
  (In t (map message_technology df) <->
   In t (map message_technology (get_raw "energy")) \/
   exists m, In m (get_raw "materials") /\ message_technology m = t /\
             projected m = true).
Proof.
  unfold adjust_technology_mapping.
  change (eqb "materials" "energy") with false.
  change (eqb "materials" "materials") with true. cbv iota zeta.
  intros E. injection E as <-.
  set (energy := get_raw "energy").
  set (sub := subset_materials_map (get_raw "materials")).
  rewrite in_map_iff. split.
  - intros [row [<- Hrow]]. apply (proj1 (unique_In _ _)) in Hrow.
    apply in_app_or in Hrow. destruct Hrow as [Hrow|Hrow];
      [|apply in_app_or in Hrow; destruct Hrow as [Hrow|Hrow];
        [|apply in_app_or in Hrow; destruct Hrow as [Hrow|Hrow]]].
    + left. unfold materials_replace in Hrow. apply in_merge_left in Hrow.
      destruct Hrow as [e [He Hcase]]. apply in_map_iff. exists e.
      split; [|exact He].
      destruct Hcase as [->|[b [_ [_ ->]]]]; reflexivity.
    + right. unfold materials_map_energy in Hrow. apply in_merge_left in Hrow.
      destruct Hrow as [l [Hl Hcase]]. apply filter_In in Hl.
      destruct Hl as [Hl Hs]. apply in_subset_materials_map in Hl.
      destruct Hl as [m [Hm [_ ->]]]. exists m. split; [exact Hm|]. split.
      * destruct Hcase as [->|[b [_ [_ ->]]]]; reflexivity.
      * unfold projected. unfold source_is in *. cbn in Hs. rewrite Hs.
        reflexivity.
    + right. unfold materials_map_intratec in Hrow. apply in_map_iff in Hrow.
      destruct Hrow as [l [<- Hl]]. apply filter_In in Hl.
      destruct Hl as [Hl Hs]. apply in_subset_materials_map in Hl.
      destruct Hl as [m [Hm [_ ->]]]. exists m. split; [exact Hm|].
      split; [reflexivity|].
      unfold projected. unfold source_is in *. cbn in Hs.
      rewrite isnull_option_map in Hs.
      apply orb_true_iff. left. apply orb_true_iff. right. exact Hs.
    + right. unfold materials_map_noregdiff in Hrow. apply filter_In in Hrow.
      destruct Hrow as [Hl Hs]. apply in_subset_materials_map in Hl.
      destruct Hl as [m [Hm [_ ->]]]. exists m. split; [exact Hm|].
      split; [reflexivity|].
      unfold projected. cbn in Hs.
      rewrite isnull_option_map in Hs. rewrite Hs. apply orb_true_r.
  - intros [Ht|[m [Hm [<- Hp]]]].
    + apply in_map_iff in Ht. destruct Ht as [e [<- He]].
      destruct (merge_left_covers
                  (fun e l => eqb (message_technology l) (message_technology e))
                  (fun e l =>
                     let material_base_cost :=
                       match l with
                       | Some l' => base_year_reference_region_cost l'
                       | None => None
                       end in
                     mk_tech_map_row
                       (message_technology e) (reg_diff_source e)
                       (reg_diff_technology e)
                       (where_ (negb (isnull material_base_cost))
                               material_base_cost
                               (base_year_reference_region_cost e))
                       None)
                  energy
                  (filter (fun l => mem (message_technology l)
                                        (map message_technology energy))
                          sub)
                  e He) as [b Hin].
      eexists. split; [|apply unique_In; apply in_or_app; left; exact Hin].
      reflexivity.
    + set (l := mk_tech_map_row
                  (message_technology m) (reg_diff_source m)
                  (reg_diff_technology m)
                  (option_map round_half_even
                              (base_year_reference_region_cost m))
                  (fix_ratio m)).
      assert (Hsub : (negb (isnull (reg_diff_source m)) ||
                      negb (isnull (base_year_reference_region_cost m)))
                     = true -> In l sub).
      { intros Hf. apply in_subset_materials_map. exists m. auto. }
      unfold projected in Hp. apply orb_true_iff in Hp.
      destruct Hp as [Hp|Hp]; [apply orb_true_iff in Hp; destruct Hp as [Hp|Hp]|].
      * assert (Hl : In l sub).
        { apply Hsub. rewrite (@source_energy_not_null _ _ Hp). reflexivity. }
        destruct (merge_left_covers
                    (fun l e => eqb (reg_diff_technology l)
                                    (Some (message_technology e)))
                    (fun l e =>
                       mk_tech_map_row
                         (message_technology l)
                         (match e with
                          | Some e' => reg_diff_source e'
                          | None => None
                          end)
                         (match e with
                          | Some e' => reg_diff_technology e'
                          | None => None
                          end)
                         (where_ (isnull (base_year_reference_region_cost l))
                                 (match e with
                                  | Some e' => base_year_reference_region_cost e'
                                  | None => None
                                  end)
                                 (base_year_reference_region_cost l))
                         None)
                    (filter (source_is "energy") sub)
                    energy l) as [b Hin].
        { apply filter_In. split; [exact Hl | exact Hp]. }
        eexists. split;
          [|apply unique_In; apply in_or_app; right;
            apply in_or_app; left; exact Hin].
        reflexivity.
      * apply andb_true_iff in Hp. destruct Hp as [Hs Hb].
        assert (Hl : In l sub).
        { apply Hsub. rewrite (@source_energy_not_null _ _ Hs). reflexivity. }
        eexists. split;
          [|apply unique_In; apply in_or_app; right; apply in_or_app; right;
            apply in_or_app; left; unfold materials_map_intratec;
            apply in_map; apply filter_In; split; [exact Hl|]].
        -- reflexivity.
        -- unfold l, source_is in *. cbn. rewrite isnull_option_map, Hs, Hb.
           reflexivity.
      * apply andb_true_iff in Hp. destruct Hp as [Hs Hb].
        assert (Hl : In l sub).
        { apply Hsub. rewrite Hb. apply orb_true_r. }
        exists l. split; [reflexivity|].
        apply unique_In. apply in_or_app. right. apply in_or_app. right.
        apply in_or_app. right. unfold materials_map_noregdiff.
        apply filter_In. split; [exact Hl|].
        unfold l. cbn. rewrite isnull_option_map, Hs, Hb. reflexivity.
Qed.

End TechnologyMappingFacts.

Module TechnologyMappingWitness.

Import RegionalDifferentiation Samples TechnologyMappingFacts.

(** An energy mapping with two technologies, and a materials mapping with
    one technology of each kind. *)
Definition get_raw (module : string) : list tech_map_row :=
  if eqb module "energy"
  then [ mk_tech_map_row "gas_cc" (Some "weo") (Some "ccgt") None None;
         mk_tech_map_row "coal_ppl" (Some "weo") (Some "steam_coal")
                         (Some (q 1500)) None ]
  else [ mk_tech_map_row "furnace_gas" (Some "energy") (Some "gas_cc")
                         None None;
         mk_tech_map_row "meth_h2" (Some "intratec") (Some "x") None None;
         mk_tech_map_row "kiln" None None (Some (Q2Qc (5 # 2))) None;
         mk_tech_map_row "scrap" None None None None ].

Definition materials_map : list tech_map_row :=
  match adjust_technology_mapping get_raw "materials" with
  | Some df => df
  | None => []
  end.

Lemma materials_mapping_technologies_witness :
  In "kiln" (map message_technology materials_map) <->
  In "kiln" (map message_technology (get_raw "energy")) \/
  exists m, In m (get_raw "materials") /\ message_technology m = "kiln" /\
            projected m = true.
Proof.
  apply (@materials_mapping_technologies get_raw materials_map "kiln").
  vm_compute. reflexivity.
Defined.

End TechnologyMappingWitness.

(** ** Command-line helpers *)

Module ClickParamsFacts.

Import Click ClickFacts.

Lemma length_app_string (a b : string) :
  String.length (a ++ b)%string = (String.length a + String.length b)%nat.
Proof.
  induction a as [|c a IH]; cbn; [reflexivity | rewrite IH; reflexivity].
Qed.

Lemma substring_prefix (a b : string) :
  substring 0 (String.length a) (a ++ b)%string = a.
Proof.
  induction a as [|c a IH]; cbn.
  - destruct b; reflexivity.
  - rewrite IH. reflexivity.
Qed.

Lemma drop_last_two_continued (s : string) :
  drop_last_two (s ++ continued)%string = s.
Proof.
  unfold drop_last_two. rewrite length_app_string.
  replace (String.length s + String.length continued - 2)%nat
    with (String.length s) by (cbn; lia).
  apply substring_prefix.
Qed.

Lemma argv_lines_last (indent : string) (argv : list string) (last : string) :
  argv_lines indent (argv ++ [last])
  = argv_lines indent argv ++
    [((match argv with [] => indent | _ => "  " end) ++ last ++ continued)%string].
Proof.
  revert indent. induction argv as [|item rest IH]; intros indent; cbn.
  - reflexivity.
  - rewrite IH. destruct rest; reflexivity.
Qed.

Lemma concat_last (sep : string) (l : list string) (x y : string) :
  String.concat sep ((x :: l) ++ [y])
  = (String.concat sep (x :: l) ++ sep ++ y)%string.
Proof.
  revert x. induction l as [|z l IH]; intros x.
  - reflexivity.
  - change (String.concat sep ((x :: z :: l) ++ [y]))
      with (x ++ sep ++ String.concat sep ((z :: l) ++ [y]))%string.
    rewrite IH.
    change (String.concat sep (x :: z :: l))
      with (x ++ sep ++ String.concat sep (z :: l))%string.
    rewrite !append_assoc. reflexivity.
Qed.

(** X17: [format_sys_argv] gives the header "Invoked:" and one line per item
    of [sys.argv], the first as it is and the others indented by two spaces,
    every line but the last ending in a space and a backslash.  For an empty
    [sys.argv] the result is "Invoke", the header without its last two
    characters. *)
Theorem format_sys_argv_lines (argv : list string) (last : string) :
  format_sys_argv (argv ++ [last])
  = (String.concat nl ("Invoked:" :: argv_lines "" argv) ++ nl ++
     (match argv with [] => "" | _ => "  " end) ++ last)%string
  /\ format_sys_argv [] = "Invoke".
Proof.
  split; [|reflexivity].
  unfold format_sys_argv. rewrite argv_lines_last.
  change ("Invoked:" :: argv_lines "" argv ++
          [((match argv with [] => "" | _ => "  " end) ++ last ++ continued)%string])
    with (("Invoked:" :: argv_lines "" argv) ++
          [((match argv with [] => "" | _ => "  " end) ++ last ++ continued)%string]).
  rewrite concat_last. fold nl.
  rewrite <- !append_assoc. rewrite drop_last_two_continued.
  rewrite !append_assoc. reflexivity.
Qed.

(** *** [common_params] *)

Lemma split_starts (c : ascii) (s : string) :
  is_space c = false -> split (String c s) <> [].
Proof.
  intros Hc. cbn [split]. rewrite Hc.
  destruct s as [|c' s']; [discriminate|].
  destruct (is_space c'); [discriminate|].
  destruct (split (String c' s')); discriminate.
Qed.

Lemma split_cons (c : ascii) (s : string) :
  split (String c s)
  = if is_space c then split s
    else match s with
         | EmptyString => [String c EmptyString]
         | String c' _ =>
             if is_space c' then String c EmptyString :: split s
             else match split s with
                  | w :: ws => String c w :: ws
                  | [] => [String c EmptyString]
                  end
         end.
Proof. reflexivity. Qed.

(** Splitting a text that has white space in the middle. *)
Lemma split_app (a b : string) (c : ascii) :
  is_space c = true -> split (a ++ String c b)%string = split a ++ split b.
Proof.
  intros Hc. induction a as [|x a IH].
  - cbn [append]. rewrite split_cons, Hc. reflexivity.
  - cbn [append]. rewrite (split_cons x a), (split_cons x (a ++ String c b)%string).
    destruct (is_space x); [exact IH|].
    destruct a as [|y a'].
    + cbn [append]. rewrite Hc. rewrite split_cons, Hc. reflexivity.
    + cbn [append] in *. destruct (is_space y) eqn:Hy.
      * rewrite IH. reflexivity.
      * rewrite IH.
        destruct (split (String y a')) as [|w ws] eqn:Es.
        -- exfalso. exact (@split_starts y a' Hy Es).
        -- reflexivity.
Qed.

Section CommonParamsFacts.

Variable Param : Type.
Variable PARAMS : string -> option Param.

Lemma extend_app (l : list Param) (names names' : list string) :
  extend PARAMS l (names ++ names')
  = and_then (extend PARAMS l names)
             (fun f => extend PARAMS
                         (match f with Some l' => l' | None => [] end) names').
Proof.
  revert l. induction names as [|n names IH]; intros l; cbn.
  - reflexivity.
  - destruct (PARAMS n); [apply IH | reflexivity].
Qed.

Lemma extend_known (l : list Param) (names : list string) (ps : list Param) :
  map PARAMS names = map Some ps ->
  extend PARAMS l names = Extended (l ++ ps).
Proof.
  revert l ps. induction names as [|n names IH]; intros l ps E.
  - destruct ps; [|discriminate]. cbn. rewrite List.app_nil_r. reflexivity.
  - destruct ps as [|p ps]; [discriminate|]. cbn in E. inversion E as [[En Et]].
    cbn. rewrite En. rewrite (IH _ _ Et). rewrite <- List.app_assoc.
    reflexivity.
Qed.

(** X18: one decorator for several names is the decorators for the names,
    stacked: [common_params] of "a b" does to a function what
    [common_params] of "b" followed by [common_params] of "a" does, also
    when a name is unknown. *)
Theorem common_params_stacked (a b : string) (f : option (list Param)) :
  common_params PARAMS (a ++ " " ++ b)%string f
  = and_then (common_params PARAMS b f) (common_params PARAMS a).
Proof.
  unfold common_params.
  change (a ++ " " ++ b)%string with (a ++ String " "%char b)%string.
  rewrite split_app by reflexivity.
  rewrite List.rev_app_distr, extend_app. reflexivity.
Qed.

(** X19: when every name is in [PARAMS], the decorator appends the
    parameters to the function's list in the reverse order of the names, so
    that the list read backwards, as click reads it, has them in the order
    they were written; what the list held before is kept. *)
Theorem common_params_order (param_names : string) (f : option (list Param))
    (ps : list Param) :
  map PARAMS (split param_names) = map Some ps ->
  exists click_params,
    common_params PARAMS param_names f = Extended click_params /\
    List.rev click_params
    = ps ++ List.rev (match f with Some l => l | None => [] end).
Proof.
  intros E. unfold common_params.
  exists ((match f with Some l => l | None => [] end) ++ List.rev ps). split.
  - apply extend_known. rewrite !List.map_rev, E. reflexivity.
  - rewrite List.rev_app_distr, List.rev_involutive. reflexivity.
Qed.

End CommonParamsFacts.

End ClickParamsFacts.

Module ClickParamsWitness.

Import Click ClickParamsFacts.

(** A dictionary of three parameters, named by numbers. *)
Definition PARAMS (name : string) : option nat :=
  if String.eqb name "ssp" then Some 1%nat
  else if String.eqb name "force" then Some 2%nat
  else if String.eqb name "output_model" then Some 3%nat
  else None.

Lemma common_params_order_witness :
  exists click_params,
    common_params PARAMS "ssp force  output_model" (Some [7%nat])
      = Extended click_params /\
    List.rev click_params = [1; 2; 3]%nat ++ List.rev [7%nat].
Proof.
  apply (@common_params_order nat PARAMS "ssp force  output_model"
           (Some [7%nat]) [1; 2; 3]%nat).
  reflexivity.
Defined.

End ClickParamsWitness.

(** ** The three projections of the investment cost *)

Module ProjectionFacts.

Import Splines.

(** X20: in the table [project_adjusted_inv_costs] returns, every row
    belongs to an investment-cost row of [reg_diff_df] for its technology and
    region.  Up to the first model year (2020) the three projected costs of
    the row are all the regional cost [cost_region_2021] of that row; after
    it and before the convergence year, the converging cost is the
    learning-only cost. *)
Theorem projections_by_period
    (nam_learning_df : list nam_learning_row)
    (adj_cost_ratios_df : list adj_cost_ratio_row)
    (reg_diff_df : list reg_diff_row) (convergence_year_flag : Z)
    (a : learning_region_row) :
  In a (project_adjusted_inv_costs nam_learning_df adj_cost_ratios_df
          reg_diff_df convergence_year_flag) ->
  exists d,
    In d reg_diff_df /\
    rd_cost_type d = "inv_cost" /\
    rd_message_technology d = message_technology a /\
    rd_weo_technology d = weo_technology a /\
    rd_region d = region a /\
    ((year a <= FIRST_MODEL_YEAR)%Z ->
     inv_cost_learning_only a = rd_cost_region_2021 d /\
     inv_cost_gdp_adj a = rd_cost_region_2021 d /\
     inv_cost_converge a = rd_cost_region_2021 d) /\
    ((FIRST_MODEL_YEAR < year a < convergence_year_flag)%Z ->
     inv_cost_converge a = inv_cost_learning_only a).
Proof.
  intros Ha. unfold project_adjusted_inv_costs in Ha.
  apply in_merge in Ha. destruct Ha as [[n c] [d [_ [Hd [Eon ->]]]]].
  apply filter_In in Hd. destruct Hd as [Hd Etype]. apply eqb_eq in Etype.
  cbn [fst snd] in Eon.
  apply andb_true_iff in Eon. destruct Eon as [Eon Ereg].
  apply andb_true_iff in Eon. destruct Eon as [Etech Eweo].
  apply eqb_eq in Ereg, Etech, Eweo.
  exists d.
  cbn [fst snd message_technology weo_technology region year
       inv_cost_learning_only inv_cost_gdp_adj inv_cost_converge].
  repeat (split; [auto; fail|]). split.
  - intros Hy. apply Z.leb_le in Hy. rewrite Hy. cbn [where_]. auto.
  - intros [Hlo Hhi].
    assert (E1 : (nl_year n <=? FIRST_MODEL_YEAR)%Z = false)
      by (apply Z.leb_gt; exact Hlo).
    assert (E2 : (nl_year n <? convergence_year_flag)%Z = true)
      by (apply Z.ltb_lt; exact Hhi).
    rewrite E1, E2. reflexivity.
Qed.

End ProjectionFacts.

Module ProjectionWitness.

Import Splines ProjectionFacts SplinesSamples.

Definition no_learning_region_row : learning_region_row :=
  mk_learning_region_row "" "" "" "" "" 0 None None None.

Definition sample_projection : list learning_region_row :=
  project_adjusted_inv_costs nam_learning_df adj_cost_ratios_df reg_diff_df
                             2050.

Lemma projections_by_period_witness :
  exists d,
    In d reg_diff_df /\
    rd_cost_type d = "inv_cost" /\
    rd_message_technology d
      = message_technology (nth 1 sample_projection no_learning_region_row) /\
    rd_weo_technology d
      = weo_technology (nth 1 sample_projection no_learning_region_row) /\
    rd_region d = region (nth 1 sample_projection no_learning_region_row) /\
    ((year (nth 1 sample_projection no_learning_region_row)
      <= FIRST_MODEL_YEAR)%Z ->
     inv_cost_learning_only (nth 1 sample_projection no_learning_region_row)
       = rd_cost_region_2021 d /\
     inv_cost_gdp_adj (nth 1 sample_projection no_learning_region_row)
       = rd_cost_region_2021 d /\
     inv_cost_converge (nth 1 sample_projection no_learning_region_row)
       = rd_cost_region_2021 d) /\
    ((FIRST_MODEL_YEAR
      < year (nth 1 sample_projection no_learning_region_row) < 2050)%Z ->
     inv_cost_converge (nth 1 sample_projection no_learning_region_row)
     = inv_cost_learning_only
         (nth 1 sample_projection no_learning_region_row)).
Proof.
  apply (@projections_by_period
           nam_learning_df adj_cost_ratios_df reg_diff_df 2050
           (nth 1 sample_projection no_learning_region_row)).
  apply nth_In. vm_compute. lia.
Defined.

End ProjectionWitness.

(** ** The adjusted ratios in their first year *)

Module BaseYearFacts.

Import RegionalDifferentiation Gdp RegressionFacts GdpFacts GdpTableFacts.

(** *** Tables with one row per key *)

Lemma NoDup_map_filter {A K} (k : A -> K) (p : A -> bool) (l : list A) :
  NoDup (map k l) -> NoDup (map k (filter p l)).
Proof.
  induction l as [|a l IH]; cbn; intros H; [constructor|].
  inversion H as [|? ? Hn Hd]; subst.
  destruct (p a); cbn; [constructor|]; auto.
  intros Hin. apply Hn. apply in_map_iff in Hin. destruct Hin as [y [Ey Hy]].
  apply filter_In in Hy. rewrite <- Ey. apply in_map. tauto.
Qed.

Lemma NoDup_map_coarser {A K K'} (k : A -> K) (k' : A -> K') (l : list A) :
  NoDup (map k l) ->
  (forall x y, In x l -> In y l -> k' x = k' y -> k x = k y) ->
  NoDup (map k' l).
Proof.
  induction l as [|a l IH]; cbn; intros H Hk; [constructor|].
  inversion H as [|? ? Hn Hd]; subst. constructor.
  - intros Hin. apply Hn. apply in_map_iff in Hin. destruct Hin as [y [Ey Hy]].
    rewrite <- (Hk y a); [apply in_map; exact Hy | auto | auto | exact Ey].
  - apply IH; [exact Hd|]. intros x y Hx Hy. apply Hk; auto.
Qed.

Lemma NoDup_map_In_eq {A K} (k : A -> K) (l : list A) (x y : A) :
  NoDup (map k l) -> In x l -> In y l -> k x = k y -> x = y.
Proof.
  induction l as [|a l IH]; cbn; intros H Hx Hy E; [contradiction|].
  inversion H as [|? ? Hn Hd]; subst.
  destruct Hx as [->|Hx], Hy as [->|Hy].
  - reflexivity.
  - exfalso. apply Hn. rewrite E. apply in_map. exact Hy.
  - exfalso. apply Hn. rewrite <- E. apply in_map. exact Hx.
  - apply IH; assumption.
Qed.

(** Looking a key up in a table with one row per key. *)
Lemma filter_singleton {A K} (k : A -> K) (q : A -> bool) (l : list A) (x : A) :
  NoDup (map k l) -> In x l ->
  (forall y, In y l -> (q y = true <-> k y = k x)) ->
  filter q l = [x].
Proof.
  induction l as [|a l IH]; cbn; intros H Hx Hq; [contradiction|].
  inversion H as [|? ? Hn Hd]; subst.
  destruct Hx as [->|Hx].
  - rewrite (proj2 (Hq x (or_introl eq_refl)) eq_refl). f_equal.
    apply filter_none. intros y Hy.
    destruct (q y) eqn:E; [|reflexivity]. exfalso. apply Hn.
    rewrite <- (proj1 (Hq y (or_intror Hy)) E). apply in_map. exact Hy.
  - destruct (q a) eqn:E.
    + exfalso. apply Hn. rewrite (proj1 (Hq a (or_introl eq_refl)) E).
      apply in_map. exact Hx.
    + apply IH; [exact Hd | exact Hx |]. intros y Hy. apply Hq. auto.
Qed.

Lemma filter_at_most_one {A K} (k : A -> K) (q : A -> bool) (k0 : K)
    (l : list A) :
  NoDup (map k l) ->
  (forall y, In y l -> q y = true -> k y = k0) ->
  (List.length (filter q l) <= 1)%nat.
Proof.
  induction l as [|a l IH]; cbn; intros H Hq; [lia|].
  inversion H as [|? ? Hn Hd]; subst.
  destruct (q a) eqn:E.
  - rewrite filter_none; [cbn; lia|].
    intros y Hy. destruct (q y) eqn:Ey; [|reflexivity]. exfalso. apply Hn.
    rewrite (Hq a (or_introl eq_refl) E), <- (Hq y (or_intror Hy) Ey).
    apply in_map. exact Hy.
  - apply IH; [exact Hd|]. intros y Hy. apply Hq. auto.
Qed.

Lemma NoDup_flat_map_keys {A B K} (k : A -> K) (k' : B -> K) (f : A -> list B)
    (l : list A) :
  NoDup (map k l) ->
  (forall x, In x l -> (List.length (f x) <= 1)%nat) ->
  (forall x y, In x l -> In y (f x) -> k' y = k x) ->
  NoDup (map k' (flat_map f l)).
Proof.
  induction l as [|a l IH]; cbn; intros H Hlen Hk; [constructor|].
  inversion H as [|? ? Hn Hd]; subst.
  assert (Hrest : NoDup (map k' (flat_map f l)))
    by (apply IH; [exact Hd | intros; apply Hlen; auto
                  | intros x y Hx Hy; apply Hk; auto]).
  pose proof (Hlen a (or_introl eq_refl)) as Hla.
  pose proof (Hk a) as Hka.
  destruct (f a) as [|y [|z t]]; cbn in *.
  - exact Hrest.
  - constructor; [|exact Hrest].
    intros Hin. apply Hn. apply in_map_iff in Hin.
    destruct Hin as [y' [Ey Hy']]. apply in_flat_map in Hy'.
    destruct Hy' as [x [Hx Hy']].
    rewrite <- (Hka y (or_introl eq_refl) (or_introl eq_refl)), <- Ey.
    rewrite (Hk x y' (or_intror Hx) Hy'). apply in_map. exact Hx.
  - lia.
Qed.

Lemma flat_map_nil {A B} (f : A -> list B) (l : list A) :
  (forall y, In y l -> f y = []) -> flat_map f l = [].
Proof.
  induction l as [|a l IH]; cbn; intros Hf; [reflexivity|].
  rewrite (Hf a (or_introl eq_refl)). apply IH. intros y Hy. apply Hf. auto.
Qed.

(** The only row that contributes. *)
Lemma flat_map_single {A B K} (k : A -> K) (f : A -> list B) (l : list A)
    (x : A) :
  NoDup (map k l) -> In x l ->
  (forall y, In y l -> k y <> k x -> f y = []) ->
  flat_map f l = f x.
Proof.
  induction l as [|a l IH]; cbn; intros H Hx Hf; [contradiction|].
  inversion H as [|? ? Hn Hd]; subst.
  destruct Hx as [->|Hx].
  - rewrite (@flat_map_nil _ _ f l); [apply List.app_nil_r|].
    intros y Hy. apply Hf; [auto|].
    intros E. apply Hn. rewrite <- E. apply in_map. exact Hy.
  - rewrite (Hf a); [|left; reflexivity|].
    + apply IH; [exact Hd | exact Hx |]. intros y Hy. apply Hf. auto.
    + intros E. apply Hn. rewrite E. apply in_map. exact Hx.
Qed.

Lemma sequence_In {A} (ms : list (result A)) (rs : list A) (r : A) :
  sequence ms = Ok rs -> In r rs -> In (Ok r) ms.
Proof.
  revert rs. induction ms as [|m ms IH]; cbn; intros rs E Hr.
  - inversion E; subst. contradiction.
  - destruct m as [a|e]; [|discriminate]. cbn in E.
    destruct (sequence ms) as [rs'|e]; [|discriminate]. cbn in E.
    inversion E; subst. destruct Hr as [->|Hr]; [left; reflexivity|].
    right. apply (IH rs'); [reflexivity | exact Hr].
Qed.


(** *** The GDP table has one row per scenario version, scenario, region
    and year *)

Definition agg_key (a : agg_row) : string * (string * (string * Z)) :=
  (ag_scenario_version a, (ag_scenario a, (ag_region a, ag_year a))).

Definition gdp_key (g : gdp_row) : string * (string * (string * Z)) :=
  (scenario_version g, (scenario g, (region g, year g))).

Lemma aggregate_NoDup (regions_countries : list (string * string))
    (ssp : list country_row) :
  NoDup (map agg_key (aggregate regions_countries ssp)).
Proof.
  rewrite aggregate_groups, map_map.
  rewrite (map_ext _ (fun k => k)).
  - rewrite map_id. apply groupby_NoDup.
  - intros [a [b [c d]]]. reflexivity.
Qed.

(** The rows with their ratio, before the copy for "LED". *)
Definition ratio_rows (reference_region : string) (df : list agg_row)
    : list gdp_row :=
  merge
    (fun l r => eqb (ag_scenario_version l) (ag_scenario_version r) &&
                eqb (ag_scenario l) (ag_scenario r) &&
                eqb (ag_year l) (ag_year r))
    ratio_row df
    (filter (fun r => eqb (ag_region r) reference_region) df).

Lemma gdp_ratios_perm (reference_region : string) (df : list agg_row) :
  Permutation
    (gdp_ratios reference_region df)
    (ratio_rows reference_region df ++
     map (with_scenario "LED")
         (filter (fun r => eqb (scenario r) "SSP2")
                 (ratio_rows reference_region df))).
Proof. unfold gdp_ratios. cbv zeta. apply sort_by_perm. Qed.

Lemma ratio_rows_NoDup (reference_region : string)
    (regions_countries : list (string * string)) (ssp : list country_row) :
  NoDup (map gdp_key
             (ratio_rows reference_region (aggregate regions_countries ssp))).
Proof.
  unfold ratio_rows, merge.
  apply (@NoDup_flat_map_keys _ _ _ agg_key gdp_key).
  - apply aggregate_NoDup.
  - intros l Hl. rewrite List.length_map.
    apply (@filter_at_most_one _ _ agg_key _
             (ag_scenario_version l,
              (ag_scenario l, (reference_region, ag_year l)))).
    + apply NoDup_map_filter. apply aggregate_NoDup.
    + intros y Hy Hon. apply filter_In in Hy. destruct Hy as [_ Href].
      apply eqb_eq in Href.
      apply andb_true_iff in Hon. destruct Hon as [Hon Ey].
      apply andb_true_iff in Hon. destruct Hon as [Esv Esc].
      apply eqb_eq in Ey, Esv, Esc. unfold agg_key.
      rewrite Href, Esv, Esc, Ey. reflexivity.
  - intros l y Hl Hy. apply in_map_iff in Hy. destruct Hy as [r [<- _]].
    reflexivity.
Qed.

Lemma ratio_rows_scenario (reference_region : string)
    (regions_countries : list (string * string)) (ssp : list country_row)
    (g : gdp_row) :
  In g (ratio_rows reference_region (aggregate regions_countries ssp)) ->
  scenario g = substring 0 4 (scenario_version g).
Proof.
  unfold ratio_rows. intros Hg. apply in_merge in Hg.
  destruct Hg as [l [r [Hl [_ [_ ->]]]]].
  destruct (@in_aggregate _ _ _ Hl) as [_ [E _]]. exact E.
Qed.

Lemma gdp_ratios_NoDup (reference_region : string)
    (regions_countries : list (string * string)) (ssp : list country_row) :
  NoDup (map gdp_key
             (gdp_ratios reference_region (aggregate regions_countries ssp))).
Proof.
  eapply Permutation_NoDup;
    [symmetry; apply Permutation_map; apply gdp_ratios_perm|].
  rewrite map_app. apply NoDup_app.
  - apply ratio_rows_NoDup.
  - rewrite map_map. apply (@NoDup_map_coarser _ _ _ gdp_key).
    + apply NoDup_map_filter. apply ratio_rows_NoDup.
    + intros x y Hx Hy E. apply filter_In in Hx, Hy.
      destruct Hx as [_ Ex], Hy as [_ Ey]. apply eqb_eq in Ex, Ey.
      unfold gdp_key in *. cbn in E. inversion E as [[E1 E2 E3]].
      rewrite E1, E2, E3, Ex, Ey. reflexivity.
  - intros k Hk1 Hk2. apply in_map_iff in Hk1. destruct Hk1 as [x [Ekx Hx]].
    rewrite map_map in Hk2. apply in_map_iff in Hk2.
    destruct Hk2 as [y [Eky Hy]]. apply filter_In in Hy.
    destruct Hy as [Hy Ey]. apply eqb_eq in Ey.
    apply ratio_rows_scenario in Hx, Hy.
    rewrite <- Ekx in Eky. unfold gdp_key in Eky. cbn in Eky.
    inversion Eky as [[E1 E2 E3]].
    rewrite Hy, E1, <- Hx, <- E2 in Ey. discriminate Ey.
Qed.


(** *** The pieces of a successful adjustment *)

(** [df_gdp_cost] *)
Definition gdp_cost_table (base_year : Z) (df_gdp : list gdp_row)
    (region_diff_df : list all_tech_row) : list gdp_cost_row :=
  merge (fun g c => eqb (Some (region g)) (f_region (at_row c)))
        (fun g c =>
           mk_gdp_cost_row
             (scenario_version g) (scenario g) (region g)
             (gdp_ratio_reg_to_reference g)
             (f_message_technology (at_row c))
             (f_reg_cost_ratio (at_row c)))
        (filter (fun r => eqb (year r) base_year) df_gdp) region_diff_df.

(** The GDP rows with their regressions, from the base year on. *)
Definition fitted_rows (base_year : Z) (df_gdp : list gdp_row)
    (df_reg : list reg_row) : list (gdp_row * option reg_row) :=
  filter (fun p => (base_year <=? year (fst p))%Z)
         (merge_left
            (fun g f =>
               eqb (scenario_version g) (rg_scenario_version f) &&
               eqb (scenario g) (rg_scenario f) &&
               eqb (region g) (rg_region f))
            (fun g f => (g, f))
            df_gdp df_reg).

(** [df_adj_ratios], one row. *)
Definition adjusted_row (ref : string) (p : gdp_row * option reg_row)
    : adj_row :=
  mk_adj_row
    (where_ (contains "2013" (scenario_version (fst p)))
            "Previous (2013)" "Review (2023)")
    (scenario (fst p))
    (option_map rg_message_technology (snd p))
    (region (fst p)) (year (fst p)) (gdp_ratio_reg_to_reference (fst p))
    (where_ (eqb (region (fst p)) ref)
            (Some 1%Qc)
            (fadd (fmul (match snd p with
                         | Some f => slope f
                         | None => None
                         end)
                        (gdp_ratio_reg_to_reference (fst p)))
                  (match snd p with
                   | Some f => intercept f
                   | None => None
                   end))).

Lemma calculate_ok_parts
    (node_files : string -> option (list (string * list string)))
    (ssp_data : list country_row)
    (region_diff_df : list all_tech_row)
    (input_node : string) (input_ref_region : option string)
    (input_base_year : Z) (rows : list adj_row) :
  outcome (calculate_indiv_adjusted_region_cost_ratios
             node_files ssp_data region_diff_df input_node input_ref_region
             input_base_year) = Ok rows ->
  exists df base_year ref l_reg,
    outcome (process_raw_ssp_data node_files ssp_data
                                  input_node input_ref_region) = Ok (Some df) /\
    outcome (resolve_base_year input_base_year
               (filter (fun r => 2020 <=? year r)%Z df)) = Ok base_year /\
    default_ref_region input_node input_ref_region = Some ref /\
    sequence
      (map (indiv_regress_tech_cost_ratio_vs_gdp_ratio (Some ref))
           (map snd
                (groupby group_of
                   (gdp_cost_table base_year
                      (filter (fun r => 2020 <=? year r)%Z df)
                      region_diff_df)))) = Ok l_reg /\
    rows = map (adjusted_row ref)
               (fitted_rows base_year
                  (filter (fun r => 2020 <=? year r)%Z df)
                  (List.concat l_reg)).
Proof.
  unfold calculate_indiv_adjusted_region_cost_ratios. intros H.
  apply io_bind_ok in H. destruct H as [processed [Hp [H _]]].
  destruct processed as [df|].
  2:{ apply io_bind_ok in H. destruct H as [x [Hx _]]. discriminate Hx. }
  apply io_bind_ok in H. destruct H as [df_gdp [Hdf [H _]]].
  cbn in Hdf. inversion Hdf; subst df_gdp. clear Hdf.
  apply io_bind_ok in H. destruct H as [base_year [Hb [H _]]].
  cbv zeta in H.
  apply io_bind_ok in H. destruct H as [l_reg [Hl [H _]]].
  apply io_bind_ok in H. destruct H as [df_reg [Hreg [H _]]].
  apply io_bind_ok in H. destruct H as [ref [Href [H _]]].
  destruct (default_ref_region input_node input_ref_region) as [ref'|] eqn:Er;
    [|discriminate Href].
  cbn in Href. inversion Href; subst ref'. clear Href.
  assert (Edf : df_reg = List.concat l_reg).
  { destruct l_reg; [discriminate Hreg|]. cbn in Hreg.
    inversion Hreg. reflexivity. }
  subst df_reg.
  exists df, base_year, ref, l_reg.
  split; [exact Hp|]. split; [exact Hb|]. split; [reflexivity|].
  split; [exact Hl|].
  cbn [outcome ret snd] in H. inversion H as [E].
  unfold fitted_rows. apply map_ext. intros [g fit]. reflexivity.
Qed.

Lemma resolve_base_year_In (input_base_year : Z) (df_gdp : list gdp_row)
    (base_year : Z) :
  outcome (resolve_base_year input_base_year df_gdp) = Ok base_year ->
  In base_year (map year df_gdp).
Proof.
  unfold resolve_base_year. rewrite mem_unique.
  destruct (mem input_base_year (map year df_gdp)) eqn:Em; cbn [negb].
  - intros E. cbn in E. inversion E; subst. apply mem_In. exact Em.
  - destruct (unique (map year df_gdp)) as [|y t] eqn:Eu;
      [intros E; discriminate E|].
    intros E. cbn in E. inversion E; subst.
    apply (proj1 (unique_In _ _)). rewrite Eu.
    apply (proj1 (fold_min_spec y t)).
Qed.

Lemma filter_flat_map {A B} (q : B -> bool) (f : A -> list B) (l : list A) :
  filter q (flat_map f l) = flat_map (fun a => filter q (f a)) l.
Proof.
  induction l as [|a l IH]; cbn; [reflexivity|].
  rewrite filter_app, IH. reflexivity.
Qed.


(** *** The first year *)

(** The technology and the region of a row of the regional
    differentiation. *)
Definition tech_region (c : all_tech_row) : string * option string :=
  (f_message_technology (at_row c), f_region (at_row c)).

(** The group of a technology in a region, in the base year: one row. *)
Lemma gdp_cost_group
    (base_year : Z) (df_gdp : list gdp_row)
    (region_diff_df : list all_tech_row) (g0 : gdp_row) (c : all_tech_row) :
  NoDup (map gdp_key df_gdp) ->
  NoDup (map tech_region region_diff_df) ->
  In g0 df_gdp -> year g0 = base_year ->
  In c region_diff_df -> f_region (at_row c) = Some (region g0) ->
  filter (fun t => eqb (group_of t)
                       (scenario_version g0,
                        (scenario g0,
                         (f_message_technology (at_row c), region g0))))
         (gdp_cost_table base_year df_gdp region_diff_df)
  = [mk_gdp_cost_row (scenario_version g0) (scenario g0) (region g0)
                     (gdp_ratio_reg_to_reference g0)
                     (f_message_technology (at_row c))
                     (f_reg_cost_ratio (at_row c))].
Proof.
  intros Hkeys Hnd Hg0 Ey Hc Ereg.
  unfold gdp_cost_table, merge. rewrite filter_flat_map.
  rewrite (@flat_map_single _ _ _ gdp_key _ _ g0).
  - rewrite filter_map_swap.
    rewrite (@filter_singleton _ _ tech_region _ _ c); [reflexivity| | |].
    + apply NoDup_map_filter. exact Hnd.
    + apply filter_In. split; [exact Hc|]. apply eqb_eq. symmetry. exact Ereg.
    + intros y Hy. apply filter_In in Hy. destruct Hy as [_ Hy].
      apply eqb_eq in Hy. unfold group_of, tech_region. cbn.
      rewrite Ereg, <- Hy. rewrite eqb_eq. split.
      * intros E. inversion E as [E']. rewrite E'. reflexivity.
      * intros E. inversion E as [E']. rewrite E'. reflexivity.
  - apply NoDup_map_filter. exact Hkeys.
  - apply filter_In. split; [exact Hg0|]. apply eqb_eq. exact Ey.
  - intros y Hy Hne. apply filter_In in Hy. destruct Hy as [_ Hy].
    apply eqb_eq in Hy. apply filter_none. intros t Ht.
    apply in_map_iff in Ht. destruct Ht as [c' [<- _]].
    apply eqb_neq. unfold group_of. cbn. intros E. apply Hne.
    inversion E as [[E1 E2 E3 E4]]. unfold gdp_key.
    rewrite E1, E2, E4, Hy, Ey. reflexivity.
Qed.

(** X21: in the earliest year of the table
    [calculate_indiv_adjusted_region_cost_ratios] returns, the adjusted
    ratio of a technology in a region other than the reference region as
    passed comes from a regression on exactly two points: the reference
    point (1, 1) and the point of the region's GDP ratio and the cost ratio
    that the regional differentiation has for that technology and region.
    The regression returns, and the adjusted ratio is the value of its line
    at the region's GDP ratio, [slope * gdp_ratio + intercept].  The
    regional differentiation has one row per technology and region. *)
Theorem adjusted_ratio_in_first_year
    (node_files : string -> option (list (string * list string)))
    (ssp_data : list country_row)
    (region_diff_df : list all_tech_row)
    (input_node : string) (input_ref_region : option string)
    (input_base_year : Z) (rows : list adj_row) (r : adj_row)
    (c : all_tech_row) :
  outcome (calculate_indiv_adjusted_region_cost_ratios
             node_files ssp_data region_diff_df input_node input_ref_region
             input_base_year) = Ok rows ->
  NoDup (map tech_region region_diff_df) ->
  In r rows ->
  (forall r', In r' rows -> (aj_year r <= aj_year r')%Z) ->
  default_ref_region input_node input_ref_region <> Some (aj_region r) ->
  In c region_diff_df ->
  aj_message_technology r = Some (f_message_technology (at_row c)) ->
  f_region (at_row c) = Some (aj_region r) ->
  exists line,
    linregress [Some 1%Qc; aj_gdp_ratio_reg_to_reference r]
               [Some 1%Qc; f_reg_cost_ratio (at_row c)] = Ok line /\
    reg_cost_ratio_adj r
    = fadd (fmul (fst line) (aj_gdp_ratio_reg_to_reference r)) (snd line).
Proof.
  intros Hout Hnd Hr Hmin Hnref Hc Etech Ereg.
  destruct (@calculate_ok_parts _ _ _ _ _ _ _ Hout)
    as [df [base_year [ref [l_reg [Hp [Hb [Href [Hseq ->]]]]]]]].
  set (df_gdp := filter (fun r => (2020 <=? year r)%Z) df) in *.
  assert (Hkeys : NoDup (map gdp_key df_gdp)).
  { unfold df_gdp. apply NoDup_map_filter.
    destruct (@process_ok_inv _ _ _ _ _ Hp)
      as [nodes_data [ref' [_ [_ [_ ->]]]]].
    unfold aggregated. apply gdp_ratios_NoDup. }
  apply in_map_iff in Hr. destruct Hr as [[g0 fit] [<- Hfit]].
  unfold fitted_rows in Hfit. apply filter_In in Hfit.
  destruct Hfit as [Hfit Hge]. cbn [fst] in Hge. apply Z.leb_le in Hge.
  cbn [adjusted_row aj_year aj_region aj_message_technology
       aj_gdp_ratio_reg_to_reference reg_cost_ratio_adj fst snd]
    in Hmin, Hnref, Etech, Ereg |- *.
  destruct fit as [f|]; [|discriminate Etech].
  cbn [option_map] in Etech. inversion Etech as [Et]. clear Etech.
  apply in_merge_left in Hfit. destruct Hfit as [g' [Hg0 Hcase]].
  destruct Hcase as [E|[f' [Hf [Hon E]]]]; [discriminate E|].
  inversion E; subst g' f'. clear E.
  apply andb_true_iff in Hon. destruct Hon as [Hon Efreg].
  apply andb_true_iff in Hon. destruct Hon as [Efsv Efsc].
  apply eqb_eq in Efreg, Efsv, Efsc.
  (* the row is one of the base year *)
  assert (Eyear : year g0 = base_year).
  { apply resolve_base_year_In in Hb. apply in_map_iff in Hb.
    destruct Hb as [g1 [Ey1 Hg1in]].
    destruct (EngineRowsFacts.merge_left_covers
                (fun g f =>
                   eqb (scenario_version g) (rg_scenario_version f) &&
                   eqb (scenario g) (rg_scenario f) &&
                   eqb (region g) (rg_region f))
                (fun (g : gdp_row) (f : option reg_row) => (g, f))
                df_gdp (List.concat l_reg) g1 Hg1in) as [b Hcov].
    assert (Hrow : In (adjusted_row ref (g1, b))
                      (map (adjusted_row ref)
                           (fitted_rows base_year df_gdp
                                        (List.concat l_reg)))).
    { apply in_map. unfold fitted_rows. apply filter_In.
      split; [exact Hcov|]. cbn [fst]. apply Z.leb_le. lia. }
    apply Hmin in Hrow. cbn [adjusted_row aj_year fst] in Hrow. lia. }
  (* the regression the row was merged with *)
  apply in_concat in Hf. destruct Hf as [fl [Hfl Hffl]].
  apply (@sequence_In _ _ _ _ Hseq) in Hfl.
  apply in_map_iff in Hfl. destruct Hfl as [grp [Hind Hgrp]].
  apply in_map_iff in Hgrp. destruct Hgrp as [[k grp'] [Egrp Hk]].
  cbn [snd] in Egrp. subst grp'.
  unfold groupby in Hk. apply in_map_iff in Hk. destruct Hk as [k' [Ek Hk]].
  inversion Ek as [[Ek' Egrp]]. subst k'. clear Ek.
  eapply Permutation_in in Hk; [|apply sort_by_perm].
  apply (proj1 (unique_In _ _)) in Hk. apply in_map_iff in Hk.
  destruct Hk as [t0 [Et0 Ht0]].
  assert (Hgrp_key : forall t, In t grp -> group_of t = k).
  { intros t Ht. rewrite <- Egrp in Ht. apply filter_In in Ht.
    apply eqb_eq. apply Ht. }
  assert (Ht0grp : In t0 grp).
  { rewrite <- Egrp. apply filter_In. split; [exact Ht0|]. apply eqb_eq.
    exact Et0. }
  destruct grp as [|r0 rest]; [contradiction|].
  unfold indiv_regress_tech_cost_ratio_vs_gdp_ratio in Hind.
  destruct (eqb (gc_region r0) ref) eqn:Eref.
  - (* the group of the reference region: not this row *)
    exfalso. apply eqb_eq in Eref. injection Hind as Efl. subst fl.
    assert (Hex : exists t, In t (r0 :: rest) /\ rg_region f = gc_region t).
    { destruct Hffl as [<-|Hffl];
        [exists r0; split; [left; reflexivity | reflexivity]|].
      apply in_map_iff in Hffl. destruct Hffl as [t [<- Ht]].
      exists t. split; [right; exact Ht | reflexivity]. }
    destruct Hex as [t [Ht Ef]]. rewrite Ef in Efreg.
    pose proof (Hgrp_key t Ht) as E1.
    pose proof (Hgrp_key r0 (or_introl eq_refl)) as E2.
    rewrite <- E2 in E1. unfold group_of in E1.
    injection E1 as E1a E1b E1c E4.
    apply Hnref. rewrite Href, Efreg, E4, Eref. reflexivity.
  - rewrite (@groupby_single_key _ _ _ _ group_of k) in Hind.
    2:{ intros t Ht. unfold regression_rows in Ht. apply in_app_or in Ht.
        destruct Ht as [Ht|Ht]; [|apply Hgrp_key; exact Ht].
        apply in_map_iff in Ht. destruct Ht as [t' [<- Ht']].
        rewrite <- (Hgrp_key t' Ht'). reflexivity. }
    2:{ unfold regression_rows. cbn. discriminate. }
    destruct k as [sv [sc [tech reg]]].
    cbn [map sequence] in Hind.
    destruct (linregress (map gc_gdp_ratio_reg_to_reference
                              (regression_rows (r0 :: rest)))
                         (map gc_reg_cost_ratio
                              (regression_rows (r0 :: rest))))
      as [line|e] eqn:Eline; [|discriminate Hind].
    cbn [bind] in Hind. inversion Hind; subst fl. clear Hind.
    destruct Hffl as [Ef|[]]. subst f.
    cbn [rg_scenario_version rg_scenario rg_region rg_message_technology
         slope intercept] in *.
    subst sv sc reg tech.
    rewrite (@gdp_cost_group base_year df_gdp region_diff_df g0 c
               Hkeys Hnd Hg0 Eyear Hc Ereg) in Egrp.
    inversion Egrp; subst r0 rest. clear Egrp.
    unfold regression_rows in Eline.
    cbn [map List.app gc_gdp_ratio_reg_to_reference gc_reg_cost_ratio]
      in Eline.
    exists line. split; [exact Eline|].
    assert (Enref : eqb (region g0) ref = false).
    { apply eqb_neq. intros E. apply Hnref. rewrite Href, E. reflexivity. }
    rewrite Enref. reflexivity.
Qed.

End BaseYearFacts.

Module BaseYearWitness.

Import RegionalDifferentiation Gdp GdpFacts GdpSamples GdpTableFacts.
Import GdpTableWitness BaseYearFacts.

(** The row of "gas_cc" in R12_CHN: in the regional differentiation of the
    samples, and in the first year of the adjusted ratios. *)
Definition cost_row : all_tech_row :=
  nth 1 EngineWitness.sample_out EngineWitness.no_all_tech_row.

Definition first_year_row : adj_row := nth 12 sample_adjusted no_adj_row.

Lemma sample_out_one_row_per_technology_and_region :
  NoDup (map tech_region EngineWitness.sample_out).
Proof.
  vm_compute.
  repeat (constructor;
          [cbn; intros H;
           repeat (destruct H as [H|H]; [discriminate H|]); exact H|]).
  constructor.
Qed.

Lemma first_year_row_is_earliest (r' : adj_row) :
  In r' sample_adjusted -> (aj_year first_year_row <= aj_year r')%Z.
Proof.
  intros Hr'.
  assert (Hall : forallb (fun r' => (aj_year first_year_row <=? aj_year r')%Z)
                         sample_adjusted = true)
    by (vm_compute; reflexivity).
  apply Z.leb_le. exact (proj1 (forallb_forall _ _) Hall r' Hr').
Qed.

Lemma adjusted_ratio_in_first_year_witness :
  exists line,
    linregress [Some 1%Qc; aj_gdp_ratio_reg_to_reference first_year_row]
               [Some 1%Qc; f_reg_cost_ratio (at_row cost_row)] = Ok line /\
    reg_cost_ratio_adj first_year_row
    = fadd (fmul (fst line) (aj_gdp_ratio_reg_to_reference first_year_row))
           (snd line).
Proof.
  apply (@adjusted_ratio_in_first_year
           node_files ssp_data EngineWitness.sample_out
           "r12" (Some "R12_NAM") 2021 sample_adjusted first_year_row
           cost_row).
  - exact sample_adjusted_ok.
  - exact sample_out_one_row_per_technology_and_region.
  - apply sample_adj_row_in. lia.
  - exact first_year_row_is_earliest.
  - intros E. vm_compute in E. discriminate E.
  - apply EngineWitness.sample_row_in. lia.
  - vm_compute. reflexivity.
  - vm_compute. reflexivity.
Defined.

End BaseYearWitness.

(** ** More outcomes of the GDP functions *)

Module GdpOutcomeFacts.

Import RegionalDifferentiation Gdp GdpFacts GdpTableFacts BaseYearFacts.

(** X23: [process_raw_ssp_data] returns a table exactly when the node file
    exists, there is a reference region (given, or the default of one of the
    three node codelists), and its upper-case form is a region of the
    aggregated data. *)
Theorem process_raw_ssp_data_returns_table_iff
    (node_files : string -> option (list (string * list string)))
    (ssp_data : list country_row)
    (input_node : string) (input_ref_region : option string) :
  (exists df,
      outcome (process_raw_ssp_data node_files ssp_data
                                    input_node input_ref_region)
      = Ok (Some df))
  <->
  (exists nodes_data ref,
      node_files (upper input_node ++ ".yaml")%string = Some nodes_data /\
      default_ref_region input_node input_ref_region = Some ref /\
      In (upper ref) (map ag_region (aggregated nodes_data ssp_data))).
Proof.
  split.
  - intros [df H].
    destruct (@process_ok_inv _ _ _ _ _ H) as [nodes_data [ref [Ef [Er [Hin _]]]]].
    exists nodes_data, ref. auto.
  - intros [nodes_data [ref [Ef [Er Hin]]]].
    exists (gdp_ratios (upper ref) (aggregated nodes_data ssp_data)).
    unfold process_raw_ssp_data, open_node_file, outcome, aggregated in *.
    rewrite Ef, Er. apply mem_In in Hin.
    destruct (mem (upper input_node) ["R11"; "R12"; "R20"]);
      cbn [negb io_bind ret print fst snd List.app];
      rewrite mem_unique, Hin; reflexivity.
Qed.

Lemma outcome_bind {A B} (m : io A) (k : A -> io B) :
  outcome (io_bind m k)
  = match outcome m with
    | Ok a => outcome (k a)
    | Raise e => Raise e
    end.
Proof. unfold outcome, io_bind. destruct (snd m); reflexivity. Qed.

(** X24: when the GDP table has no year from 2020 on,
    [calculate_indiv_adjusted_region_cost_ratios] raises ValueError: the
    earliest year of an empty table is asked for. *)
Theorem calculate_without_model_years_raises
    (node_files : string -> option (list (string * list string)))
    (ssp_data : list country_row)
    (region_diff_df : list all_tech_row)
    (input_node : string) (input_ref_region : option string)
    (input_base_year : Z) (df : list gdp_row) :
  outcome (process_raw_ssp_data node_files ssp_data input_node input_ref_region)
    = Ok (Some df) ->
  (forall g, In g df -> (year g < 2020)%Z) ->
  outcome (calculate_indiv_adjusted_region_cost_ratios
             node_files ssp_data region_diff_df input_node input_ref_region
             input_base_year)
  = Raise ValueError.
Proof.
  intros Hp Hyears. unfold calculate_indiv_adjusted_region_cost_ratios.
  rewrite outcome_bind, Hp, outcome_bind. cbn [outcome ret snd].
  rewrite (@filter_none _ (fun r => (2020 <=? year r)%Z) df).
  - reflexivity.
  - intros g Hg. apply Z.leb_gt. apply Hyears. exact Hg.
Qed.



(** X26: the table [calculate_indiv_adjusted_region_cost_ratios] returns
    loses no row of the GDP table: every row of that table from 2020 on and
    from the base year on has a row with its scenario, region, year and GDP
    ratio. *)
Theorem adjusted_rows_cover_gdp_table
    (node_files : string -> option (list (string * list string)))
    (ssp_data : list country_row)
    (region_diff_df : list all_tech_row)
    (input_node : string) (input_ref_region : option string)
    (input_base_year : Z) (rows : list adj_row) :
  outcome (calculate_indiv_adjusted_region_cost_ratios
             node_files ssp_data region_diff_df input_node input_ref_region
             input_base_year) = Ok rows ->
  exists df base_year,
    outcome (process_raw_ssp_data node_files ssp_data
                                  input_node input_ref_region) = Ok (Some df) /\
    outcome (resolve_base_year input_base_year
               (filter (fun r => 2020 <=? year r)%Z df)) = Ok base_year /\
    forall g, In g df -> (2020 <= year g)%Z -> (base_year <= year g)%Z ->
      exists r, In r rows /\
                aj_scenario r = scenario g /\
                aj_region r = region g /\
                aj_year r = year g /\
                aj_gdp_ratio_reg_to_reference r
                  = gdp_ratio_reg_to_reference g.
Proof.
  intros Hout.
  destruct (@calculate_ok_parts _ _ _ _ _ _ _ Hout)
    as [df [base_year [ref [l_reg [Hp [Hb [_ [_ ->]]]]]]]].
  exists df, base_year. split; [exact Hp|]. split; [exact Hb|].
  intros g Hg H2020 Hbase.
  destruct (EngineRowsFacts.merge_left_covers
              (fun g f =>
                 eqb (scenario_version g) (rg_scenario_version f) &&
                 eqb (scenario g) (rg_scenario f) &&
                 eqb (region g) (rg_region f))
              (fun (g : gdp_row) (f : option reg_row) => (g, f))
              (filter (fun r => (2020 <=? year r)%Z) df)
              (List.concat l_reg) g) as [b Hcov].
  { apply filter_In. split; [exact Hg | apply Z.leb_le; exact H2020]. }
  exists (adjusted_row ref (g, b)). split.
  - apply in_map. unfold fitted_rows. apply filter_In.
    split; [exact Hcov|]. cbn [fst]. apply Z.leb_le. exact Hbase.
  - repeat split.
Qed.

End GdpOutcomeFacts.

Module GdpOutcomeWitness.

Import RegionalDifferentiation Gdp GdpFacts GdpSamples GdpTableFacts.
Import GdpTableWitness GdpOutcomeFacts.

(** SSP data that end before 2020. *)
Definition old_ssp_data : list country_row :=
  [ mk_country_row "SSP2 v9" "USA" 2010 (Some (Samples.q 100))
                   (Some (Samples.q 30));
    mk_country_row "SSP2 v9" "CHN" 2010 (Some (Samples.q 200))
                   (Some (Samples.q 100)) ].

Definition old_table : list gdp_row :=
  match outcome (process_raw_ssp_data node_files old_ssp_data
                                      "r12" (Some "r12_nam")) with
  | Ok (Some df) => df
  | _ => []
  end.

Lemma calculate_without_model_years_raises_witness :
  outcome (calculate_indiv_adjusted_region_cost_ratios
             node_files old_ssp_data EngineWitness.sample_out
             "r12" (Some "r12_nam") 2021)
  = Raise ValueError.
Proof.
  apply (@calculate_without_model_years_raises
           node_files old_ssp_data EngineWitness.sample_out
           "r12" (Some "r12_nam") 2021 old_table).
  - vm_compute. reflexivity.
  - intros g Hg.
    assert (Hall : forallb (fun g => (year g <? 2020)%Z) old_table = true)
      by (vm_compute; reflexivity).
    apply Z.ltb_lt. exact (proj1 (forallb_forall _ _) Hall g Hg).
Defined.


Lemma adjusted_rows_cover_gdp_table_witness :
  exists df base_year,
    outcome (process_raw_ssp_data node_files ssp_data
                                  "r12" (Some "R12_NAM")) = Ok (Some df) /\
    outcome (resolve_base_year 2021
               (filter (fun r => 2020 <=? year r)%Z df)) = Ok base_year /\
    forall g, In g df -> (2020 <= year g)%Z -> (base_year <= year g)%Z ->
      exists r, In r sample_adjusted /\
                aj_scenario r = scenario g /\
                aj_region r = region g /\
                aj_year r = year g /\
                aj_gdp_ratio_reg_to_reference r
                  = gdp_ratio_reg_to_reference g.
Proof.
  apply (@adjusted_rows_cover_gdp_table
           node_files ssp_data EngineWitness.sample_out
           "r12" (Some "R12_NAM") 2021 sample_adjusted).
  exact sample_adjusted_ok.
Defined.

End GdpOutcomeWitness.

(** ** The base year of the adjusted ratios *)

Module BaseYearBlockFacts.

Import RegionalDifferentiation Gdp GdpFacts GdpTableFacts GdpOutcomeFacts.

(** The rows of the GDP table that
    [calculate_indiv_adjusted_region_cost_ratios] keeps before it looks for
    the base year: [.query("year >= 2020")]. *)
Definition from_2020 (df : list gdp_row) : list gdp_row :=
  filter (fun r => (2020 <=? year r)%Z) df.

(** [calculate_indiv_adjusted_region_cost_ratios] after its base-year block:
    the regressions at [base_year] and the adjusted ratios from [base_year]
    on, for the GDP table [df_gdp]. *)
Definition with_base_year
    (region_diff_df : list all_tech_row) (input_node : string)
    (input_ref_region : option string) (df_gdp : list gdp_row)
    (base_year : Z) : io (list adj_row) :=
  let reference_region := default_ref_region input_node input_ref_region in
  let gdp_base_year := filter (fun r => eqb (year r) base_year) df_gdp in
  let df_gdp_cost :=
    merge (fun g c => eqb (Some (region g)) (f_region (at_row c)))
          (fun g c =>
             mk_gdp_cost_row
               (scenario_version g) (scenario g) (region g)
               (gdp_ratio_reg_to_reference g)
               (f_message_technology (at_row c))
               (f_reg_cost_ratio (at_row c)))
          gdp_base_year region_diff_df in
  let dfs := map snd (groupby group_of df_gdp_cost) in
  l_reg <- lift (sequence
                   (map (indiv_regress_tech_cost_ratio_vs_gdp_ratio
                           reference_region) dfs)) ;;
  df_reg <-
    match l_reg with
    | [] => raise ValueError
    | _ => ret (List.concat l_reg)
    end ;;
  ref <-
    match reference_region with
    | Some r => ret r
    | None => raise UnboundLocalError
    end ;;
  ret
    (map (fun '(g, fit) =>
            mk_adj_row
              (where_ (contains "2013" (scenario_version g))
                      "Previous (2013)" "Review (2023)")
              (scenario g)
              (option_map rg_message_technology fit)
              (region g) (year g) (gdp_ratio_reg_to_reference g)
              (where_ (eqb (region g) ref)
                      (Some 1%Qc)
                      (fadd (fmul (match fit with
                                   | Some f => slope f
                                   | None => None
                                   end)
                                  (gdp_ratio_reg_to_reference g))
                            (match fit with
                             | Some f => intercept f
                             | None => None
                             end))))
         (filter (fun p => (base_year <=? year (fst p))%Z)
                 (merge_left
                    (fun g f =>
                       eqb (scenario_version g) (rg_scenario_version f) &&
                       eqb (scenario g) (rg_scenario f) &&
                       eqb (region g) (rg_region f))
                    (fun g f => (g, f))
                    df_gdp df_reg))).

Lemma calculate_steps
    (node_files : string -> option (list (string * list string)))
    (ssp_data : list country_row)
    (region_diff_df : list all_tech_row)
    (input_node : string) (input_ref_region : option string)
    (input_base_year : Z) :
  calculate_indiv_adjusted_region_cost_ratios
    node_files ssp_data region_diff_df input_node input_ref_region
    input_base_year
  = (processed <- process_raw_ssp_data node_files ssp_data
                    input_node input_ref_region ;;
     df_gdp <-
       match processed with
       | Some df => ret (from_2020 df)
       | None => raise AttributeError
       end ;;
     base_year <- resolve_base_year input_base_year df_gdp ;;
     with_base_year region_diff_df input_node input_ref_region
                    df_gdp base_year).
Proof. reflexivity. Qed.

(** Nothing is printed after the base-year block. *)
Lemma with_base_year_prints_nothing
    (region_diff_df : list all_tech_row) (input_node : string)
    (input_ref_region : option string) (df_gdp : list gdp_row)
    (base_year : Z) :
  printed (with_base_year region_diff_df input_node input_ref_region
                          df_gdp base_year) = [].
Proof.
  unfold with_base_year. cbv zeta.
  destruct (sequence _) as [l_reg|e]; [|reflexivity].
  destruct l_reg as [|fl l_reg]; [reflexivity|].
  destruct (default_ref_region input_node input_ref_region); reflexivity.
Qed.

Lemma printed_bind {A B} (m : io A) (k : A -> io B) :
  printed (io_bind m k)
  = printed m ++ match outcome m with
                 | Ok a => printed (k a)
                 | Raise _ => []
                 end.
Proof.
  unfold printed, outcome, io_bind.
  destruct (snd m); cbn [fst]; [reflexivity|].
  rewrite List.app_nil_r. reflexivity.
Qed.

Lemma io_ext {A} (m : io A) (p : list message) (o : result A) :
  printed m = p -> outcome m = o -> m = (p, o).
Proof. destruct m. cbn. intros -> ->. reflexivity. Qed.

(** C9, amended: the base year is looked up among the years of the GDP
    table from 2020 on.  If the configured base year is one of them, the
    computation goes on with it and prints nothing more.  If it is not and
    the table has a year from 2020 on, the computation does not raise
    there: it prints one message naming both years and goes on with the
    earliest of these years.  If the table has no year from 2020 on, the
    computation raises ValueError. *)
Theorem base_year_fallback_from_2020_on
    (node_files : string -> option (list (string * list string)))
    (ssp_data : list country_row)
    (region_diff_df : list all_tech_row)
    (input_node : string) (input_ref_region : option string)
    (input_base_year : Z) (msgs : list message) (df : list gdp_row) :
  process_raw_ssp_data node_files ssp_data input_node input_ref_region
    = (msgs, Ok (Some df)) ->
  (In input_base_year (map year (from_2020 df)) ->
   calculate_indiv_adjusted_region_cost_ratios
     node_files ssp_data region_diff_df input_node input_ref_region
     input_base_year
   = (msgs,
      outcome (with_base_year region_diff_df input_node input_ref_region
                              (from_2020 df) input_base_year)))
  /\
  (~ In input_base_year (map year (from_2020 df)) ->
   from_2020 df <> [] ->
   exists base_year,
     In base_year (map year (from_2020 df)) /\
     (forall y, In y (map year (from_2020 df)) -> (base_year <= y)%Z) /\
     calculate_indiv_adjusted_region_cost_ratios
       node_files ssp_data region_diff_df input_node input_ref_region
       input_base_year
     = (msgs ++ [BaseYearNotFound input_base_year base_year],
        outcome (with_base_year region_diff_df input_node input_ref_region
                                (from_2020 df) base_year)))
  /\
  (from_2020 df = [] ->
   calculate_indiv_adjusted_region_cost_ratios
     node_files ssp_data region_diff_df input_node input_ref_region
     input_base_year
   = (msgs, Raise ValueError)).
Proof.
  intros Hp.
  assert (Hpr : printed (process_raw_ssp_data node_files ssp_data
                                              input_node input_ref_region)
                = msgs) by (rewrite Hp; reflexivity).
  assert (Hout : outcome (process_raw_ssp_data node_files ssp_data
                                               input_node input_ref_region)
                 = Ok (Some df)) by (rewrite Hp; reflexivity).
  split; [|split].
  - intros Hin.
    pose proof (proj1 (resolve_base_year_cases input_base_year (from_2020 df))
                  Hin) as Eb.
    apply io_ext; rewrite calculate_steps.
    + rewrite printed_bind, Hpr, Hout, printed_bind.
      cbn [printed outcome ret fst snd List.app].
      rewrite printed_bind, Eb. cbn [printed outcome fst snd List.app].
      rewrite with_base_year_prints_nothing. apply List.app_nil_r.
    + rewrite outcome_bind, Hout, outcome_bind.
      cbn [outcome ret snd]. rewrite outcome_bind, Eb. reflexivity.
  - intros Hnin Hne.
    destruct (proj2 (resolve_base_year_cases input_base_year (from_2020 df))
                Hnin Hne) as [base_year [Eb [Hin Hle]]].
    exists base_year. split; [exact Hin|]. split; [exact Hle|].
    apply io_ext; rewrite calculate_steps.
    + rewrite printed_bind, Hpr, Hout, printed_bind.
      cbn [printed outcome ret fst snd List.app].
      rewrite printed_bind, Eb. cbn [printed outcome fst snd List.app].
      rewrite with_base_year_prints_nothing. reflexivity.
    + rewrite outcome_bind, Hout, outcome_bind.
      cbn [outcome ret snd]. rewrite outcome_bind, Eb. reflexivity.
  - intros E.
    apply io_ext; rewrite calculate_steps.
    + rewrite printed_bind, Hpr, Hout, printed_bind.
      cbn [printed outcome ret fst snd List.app].
      rewrite printed_bind, E. apply List.app_nil_r.
    + rewrite outcome_bind, Hout, outcome_bind.
      cbn [outcome ret snd]. rewrite outcome_bind, E. reflexivity.
Qed.

End BaseYearBlockFacts.

Module BaseYearBlockWitness.

Import RegionalDifferentiation Gdp GdpFacts GdpSamples GdpTableFacts.
Import GdpTableWitness BaseYearBlockFacts.

(** The GDP table of the sample data for R12, reference region R12_NAM as
    passed to the computation of the samples. *)
Definition sample_gdp_table : list gdp_row :=
  match outcome (process_raw_ssp_data node_files ssp_data
                                      "r12" (Some "R12_NAM")) with
  | Ok (Some df) => df
  | _ => []
  end.

Lemma base_year_fallback_from_2020_on_witness :
  calculate_indiv_adjusted_region_cost_ratios
    node_files ssp_data EngineWitness.sample_out "r12" (Some "R12_NAM") 2030
  = ([],
     outcome (with_base_year EngineWitness.sample_out "r12" (Some "R12_NAM")
                             (from_2020 sample_gdp_table) 2030))
  /\
  exists base_year,
    In base_year (map year (from_2020 sample_gdp_table)) /\
    (forall y, In y (map year (from_2020 sample_gdp_table)) ->
               (base_year <= y)%Z) /\
    calculate_indiv_adjusted_region_cost_ratios
      node_files ssp_data EngineWitness.sample_out "r12" (Some "R12_NAM") 2021
    = ([] ++ [BaseYearNotFound 2021 base_year],
       outcome (with_base_year EngineWitness.sample_out "r12"
                               (Some "R12_NAM")
                               (from_2020 sample_gdp_table) base_year)).
Proof.
  split.
  - apply (proj1 (@base_year_fallback_from_2020_on
                    node_files ssp_data EngineWitness.sample_out
                    "r12" (Some "R12_NAM") 2030 [] sample_gdp_table
                    ltac:(vm_compute; reflexivity))).
    vm_compute. auto 20.
  - apply (proj1 (proj2 (@base_year_fallback_from_2020_on
                           node_files ssp_data EngineWitness.sample_out
                           "r12" (Some "R12_NAM") 2021 [] sample_gdp_table
                           ltac:(vm_compute; reflexivity)))).
    + vm_compute. intuition discriminate.
    + vm_compute. discriminate.
Defined.

(** SSP data that start before 2020: the years 2015, 2020 and 2030. *)
Definition early_ssp_data : list country_row :=
  flat_map
    (fun yr =>
       [ mk_country_row "SSP2 v9" "USA" yr (Some (Samples.q 100))
                        (Some (Samples.q 30));
         mk_country_row "SSP2 v9" "CAN" yr (Some (Samples.q 50))
                        (Some (Samples.q 20));
         mk_country_row "SSP2 v9" "CHN" yr (Some (Samples.q 200))
                        (Some (Samples.q 100)) ])
    [2015%Z; 2020%Z; 2030%Z].

(** SSP data that end before 2020. *)
Definition past_ssp_data : list country_row :=
  [ mk_country_row "SSP2 v9" "USA" 2010 (Some (Samples.q 100))
                   (Some (Samples.q 30));
    mk_country_row "SSP2 v9" "CHN" 2010 (Some (Samples.q 200))
                   (Some (Samples.q 100)) ].

(** C9 as stated fails twice.  A configured base year that the GDP series
    has is not always used unchanged: for a series with the years 2015,
    2020 and 2030 and the base year 2015, the computation reports 2015 as
    not found and goes on with 2020.  And a base year that the series does
    not have can make the computation raise: for a series that ends in
    2010 and the base year 2021, it raises ValueError. *)
Lemma base_year_claim_fails :
  (exists df rows,
      process_raw_ssp_data node_files early_ssp_data "r12" (Some "R12_NAM")
        = ([], Ok (Some df)) /\
      In 2015%Z (map year df) /\
      calculate_indiv_adjusted_region_cost_ratios
        node_files early_ssp_data EngineWitness.sample_out
        "r12" (Some "R12_NAM") 2015
      = ([BaseYearNotFound 2015 2020], Ok rows) /\
      outcome (with_base_year EngineWitness.sample_out "r12" (Some "R12_NAM")
                              (from_2020 df) 2020) = Ok rows)
  /\
  (exists df,
      process_raw_ssp_data node_files past_ssp_data "r12" (Some "R12_NAM")
        = ([], Ok (Some df)) /\
      ~ In 2021%Z (map year df) /\
      calculate_indiv_adjusted_region_cost_ratios
        node_files past_ssp_data EngineWitness.sample_out
        "r12" (Some "R12_NAM") 2021
      = ([], Raise ValueError)).
Proof.
  split.
  - eexists. eexists. split; [vm_compute; reflexivity|].
    split; [vm_compute; auto 20|].
    split; vm_compute; reflexivity.
  - eexists. split; [vm_compute; reflexivity|].
    split; [vm_compute; intuition discriminate|].
    vm_compute. reflexivity.
Qed.

End BaseYearBlockWitness.

(** ** Unknown parameter names *)

Module ClickKeyErrorFacts.

Import Click ClickParamsFacts.

Section UnknownNames.

Variable Param : Type.
Variable PARAMS : string -> option Param.

Lemma extend_KeyError (l l' : list Param) (names : list string) (n : string) :
  extend PARAMS l names = KeyError n l' ->
  exists before after,
    names = before ++ n :: after /\
    PARAMS n = None /\
    forall m, In m before -> PARAMS m <> None.
Proof.
  revert l. induction names as [|a names IH]; intros l; cbn [extend].
  - discriminate.
  - destruct (PARAMS a) as [p|] eqn:Ea.
    + intros H. destruct (IH _ H) as [before [after [E [Hn Hb]]]].
      exists (a :: before), after. split; [rewrite E; reflexivity|].
      split; [exact Hn|]. intros m [<-|Hm]; [congruence | apply Hb; exact Hm].
    + intros H. inversion H; subst. exists [], names.
      split; [reflexivity|]. split; [exact Ea|]. intros m [].
Qed.

Lemma extend_all_known (l : list Param) (names : list string) :
  (forall m, In m names -> PARAMS m <> None) ->
  exists l', extend PARAMS l names = Extended l'.
Proof.
  revert l. induction names as [|a names IH]; intros l Hk; cbn [extend].
  - eexists. reflexivity.
  - destruct (PARAMS a) as [p|] eqn:Ea.
    + apply IH. intros m Hm. apply Hk. right. exact Hm.
    + exfalso. apply (Hk a); [left; reflexivity | exact Ea].
Qed.

(** X27: [common_params] raises KeyError exactly when one of the names is
    not in [PARAMS], and the name it reports is the last unknown one of the
    text: the names are looked up from the last to the first. *)
Theorem common_params_unknown_name (param_names : string)
    (f : option (list Param)) :
  ((exists n l, common_params PARAMS param_names f = KeyError n l) <->
   (exists n, In n (split param_names) /\ PARAMS n = None))
  /\
  (forall n l,
      common_params PARAMS param_names f = KeyError n l ->
      exists before after,
        split param_names = before ++ n :: after /\
        PARAMS n = None /\
        forall m, In m after -> PARAMS m <> None).
Proof.
  assert (Hlast : forall n l,
             common_params PARAMS param_names f = KeyError n l ->
             exists before after,
               split param_names = before ++ n :: after /\
               PARAMS n = None /\
               forall m, In m after -> PARAMS m <> None).
  { intros n l H. unfold common_params in H.
    destruct (extend_KeyError _ _ H) as [before [after [E [Hn Hb]]]].
    exists (List.rev after), (List.rev before). split.
    - rewrite <- (List.rev_involutive (split param_names)), E.
      rewrite List.rev_app_distr. cbn [List.rev].
      rewrite <- List.app_assoc. reflexivity.
    - split; [exact Hn|]. intros m Hm. apply Hb.
      apply List.in_rev. exact Hm. }
  split; [|exact Hlast]. split.
  - intros [n [l H]]. destruct (Hlast n l H) as [before [after [E [Hn _]]]].
    exists n. split; [|exact Hn]. rewrite E. apply in_or_app. right. left.
    reflexivity.
  - intros [n [Hin Hn]]. unfold common_params.
    destruct (extend PARAMS (match f with Some l => l | None => [] end)
                     (List.rev (split param_names))) as [l'|n' l'] eqn:E.
    + exfalso.
      assert (Hknown : exists before after,
                 List.rev (split param_names) = before ++ n :: after)
        by (apply in_split; apply List.in_rev;
            rewrite List.rev_involutive; exact Hin).
      destruct Hknown as [before [after Esplit]].
      rewrite Esplit, extend_app in E.
      destruct (extend PARAMS _ before) as [l1|n1 l1]; [|discriminate E].
      cbn [and_then extend] in E. rewrite Hn in E. discriminate E.
    + exists n', l'. reflexivity.
Qed.

End UnknownNames.

End ClickKeyErrorFacts.

Module ClickKeyErrorWitness.

Import Click ClickParamsWitness ClickKeyErrorFacts.

Lemma common_params_unknown_name_witness :
  exists before after,
    split "ssp nope force" = before ++ "nope" :: after /\
    PARAMS "nope" = None /\
    forall m, In m after -> PARAMS m <> None.
Proof.
  apply (proj2 (@common_params_unknown_name nat PARAMS "ssp nope force" None)
               "nope" [2%nat]).
  vm_compute. reflexivity.
Defined.

End ClickKeyErrorWitness.
